(** * Warm Pulse Arcade (src/src/App.tsx): a shallow embedding and its properties

    The program is one React file: seven mini-games, a token/best-score store
    persisted in localStorage, and a shop.  The embedding follows the file top
    to bottom.

    Numbers.  JavaScript numbers are modelled by their exact values:
    - integer-valued quantities (scores, tokens, levels) are [Z];
    - timestamps and physical quantities are [Q], the finite numbers with
      rounding idealised: a double rounds every operation, so the last
      digits of a value the program computes can differ from the exact ones.
      Where a property would depend on them (a bound reached only in the
      limit, a threshold met to the last digit), it is stated with the bound
      included or with a margin;
    - every division written with [/] on [Q] has a
      denominator that is not zero when the program runs (a constant, a
      tempo the code rounds from a draw between 72 and 128, or a value the
      code guards);
    - the one division whose denominator can be zero on real input (Heartbeat's
      [60000/avg]) is modelled by [JS.div], whose result lives in [JS.num],
      the finite numbers extended with the IEEE special values.

    React state.  A component is a record of its [useState]/[useRef] cells and
    a step function over the events the browser delivers (pointer events,
    animation frames, timer expirations, mount and unmount).  An event
    carries what its handler reads from outside: the [performance.now()]
    reading and the draws of [Math.random()]. *)

From Stdlib Require Import ZArith QArith Qround Qabs List String Ascii Bool Lia Lqa.
From Stdlib Require Import DecimalString.
Import ListNotations.

Local Open Scope Q_scope.

(* ------------------------------------------------------------------------- *)
(** * Utilities (App.tsx lines 10-14) and the [Math] functions they use *)

Module JS.

(** [Math.max] and [Math.min] on finite numbers. *)
Definition Math_max (a b : Q) : Q := if Qlt_le_dec a b then b else a.
Definition Math_min (a b : Q) : Q := if Qlt_le_dec b a then b else a.

(** [const clamp = (v, a, b) => Math.max(a, Math.min(b, v))] *)
Definition clamp (v a b : Q) : Q := Math_max a (Math_min b v).

(** [const rand = (min, max) => Math.random() * (max - min) + min], with the
    draw [r] of [Math.random()] made explicit. *)
Definition rand (r : Q) (min max : Q) : Q := r * (max - min) + min.

(** [Math.floor], and [Math.round], which rounds halves up. *)
Definition Math_floor (x : Q) : Z := Qfloor x.
Definition Math_round (x : Q) : Z := Qfloor (x + (1 # 2)).

Definition Math_abs (x : Q) : Q := Qabs x.

(** Truncation toward zero, and the remainder operator [%] of two finite
    numbers with a non-zero divisor: the result has the sign of the dividend. *)
Definition Math_trunc (x : Q) : Z :=
  if Qlt_le_dec x 0 then Qceiling x else Qfloor x.
Definition fmod (x y : Q) : Q := x - y * inject_Z (Math_trunc (x / y)).

(** The value of a division of finite numbers.  The zero denominators that
    occur in the program come from subtracting equal timestamps and from
    summing such differences from the literal 0, so they are [+0]. *)
Inductive num : Type :=
| NaN
| NegInf
| Fin (q : Q)
| PosInf.

Definition div (x y : Q) : num :=
  if Qeq_bool y 0 then
    if Qlt_le_dec 0 x then PosInf
    else if Qlt_le_dec x 0 then NegInf
    else NaN
  else Fin (x / y).

(** [Math.min(b, v)] and [Math.max(a, v)] for a finite bound and an arbitrary
    second argument; NaN is contagious in both. *)
Definition Math_min_num (b : Q) (v : num) : num :=
  match v with
  | NaN => NaN
  | NegInf => NegInf
  | Fin q => Fin (Math_min b q)
  | PosInf => Fin b
  end.

Definition Math_max_num (a : Q) (v : num) : num :=
  match v with
  | NaN => NaN
  | NegInf => Fin a
  | Fin q => Fin (Math_max a q)
  | PosInf => PosInf
  end.

(** [clamp] applied to the value of a division. *)
Definition clamp_num (v : num) (a b : Q) : num :=
  Math_max_num a (Math_min_num b v).

(** [v || d] on numbers: [0] and NaN are falsy. *)
Definition or_else (v : num) (d : Q) : num :=
  match v with
  | NaN => Fin d
  | Fin q => if Qeq_bool q 0 then Fin d else Fin q
  | other => other
  end.

(** [Object.is] on two such values: NaN is the same value as NaN. *)
Definition num_eqb (x y : num) : bool :=
  match x, y with
  | NaN, NaN | NegInf, NegInf | PosInf, PosInf => true
  | Fin p, Fin q => Qeq_bool p q
  | _, _ => false
  end.

(** The delay [setTimeout] makes of such a value: NaN and the infinities
    count as 0. *)
Definition delay_of (v : num) : Q :=
  match v with
  | Fin q => q
  | NaN | NegInf | PosInf => 0
  end.

(** [x / y] for a finite numerator and the value of an earlier division:
    a finite number over an infinity is zero, and NaN stays NaN. *)
Definition div_num (x : Q) (y : num) : num :=
  match y with
  | NaN => NaN
  | Fin q => div x q
  | NegInf | PosInf => Fin 0
  end.

End JS.

(* ------------------------------------------------------------------------- *)
(** * Haptics and audio (App.tsx lines 28-85)

    The calls a game makes on the two backends; the backends hold no state
    the games read, so a game only records what it asked for. *)

Module Feedback.

Inductive request : Type :=
| Tone (freq dur : Q)          (* [sound.tone(freq, dur)] *)
| Vibrate (pattern : list Z).  (* [vibrate(pattern)] *)

(** [blip(success) = tone(success ? 740 : 180, success ? 0.06 : 0.12)] *)
Definition blip (success : bool) : request :=
  if success then Tone 740 (6 # 100) else Tone 180 (12 # 100).

(** The requests made so far, the latest first, each with its time. *)
Definition log : Type := list (Q * request).

Definition is_tone (r : request) : bool :=
  match r with
  | Tone _ _ => true
  | Vibrate _ => false
  end.

End Feedback.

(* ------------------------------------------------------------------------- *)
(** * The browser's timers: [setTimeout] and [clearTimeout]

    A pending timer has an id, the time it is due and the callback to run;
    callbacks are named by a type [C] each game supplies.  Ids are positive
    and never reused. *)

Module Timers.

Section Queue.
Variable C : Type.

Record timer : Type := mkTimer {
  tid : nat;
  due : Q;
  callback : C
}.

Record queue : Type := mkQueue {
  pending : list timer;
  next_id : nat
}.

Definition empty : queue := mkQueue [] 1.

(** [setTimeout(cb, delay)] called at time [now]: the new id and queue.  The
    delay is kept as the code wrote it. *)
Definition setTimeout (cb : C) (delay now : Q) (q : queue) : nat * queue :=
  (next_id q,
   mkQueue (mkTimer (next_id q) (now + delay) cb :: pending q) (S (next_id q))).

(** [clearTimeout(id)]: cancels the timer if it is pending; [undefined] and
    ids that already ran are ignored. *)
Definition clearTimeout (id : option nat) (q : queue) : queue :=
  match id with
  | None => q
  | Some i =>
      mkQueue (filter (fun tm => negb (Nat.eqb (tid tm) i)) (pending q))
              (next_id q)
  end.

(** The timer [id] expires at time [now]: if it is pending and due, it leaves
    the queue and its callback is handed over. *)
Definition expire (id : nat) (now : Q) (q : queue) : option (C * queue) :=
  match find (fun tm => Nat.eqb (tid tm) id) (pending q) with
  | Some tm =>
      if Qle_bool (due tm) now
      then Some (callback tm, clearTimeout (Some id) q)
      else None
  | None => None
  end.

End Queue.

Arguments mkTimer {C} tid due callback.
Arguments tid {C} t.
Arguments due {C} t.
Arguments callback {C} t.
Arguments mkQueue {C} pending next_id.
Arguments pending {C} q.
Arguments next_id {C} q.
Arguments empty {C}.
Arguments setTimeout {C} cb delay now q.
Arguments clearTimeout {C} id q.
Arguments expire {C} id now q.

End Timers.

(* ------------------------------------------------------------------------- *)
(** * Store and persistence (App.tsx lines 652-716) *)

Module Store.

(** [type GameKey = 'pulse'|'heat'|'tension'|'echo'|'pressure'|'ascend'|'heart'] *)
Inductive GameKey : Type :=
| pulse | heat | tension | echo | pressure | ascend | heart.

(** [Record<GameKey, number>]: one number per key. *)
Record Best : Type := mkBest {
  best_pulse : Z;
  best_heat : Z;
  best_tension : Z;
  best_echo : Z;
  best_pressure : Z;
  best_ascend : Z;
  best_heart : Z
}.

(** [b[k]] *)
Definition get_best (b : Best) (k : GameKey) : Z :=
  match k with
  | pulse => best_pulse b
  | heat => best_heat b
  | tension => best_tension b
  | echo => best_echo b
  | pressure => best_pressure b
  | ascend => best_ascend b
  | heart => best_heart b
  end.

(** [{ ...b, [k]: v }] *)
Definition set_best (b : Best) (k : GameKey) (v : Z) : Best :=
  match k with
  | pulse => mkBest v (best_heat b) (best_tension b) (best_echo b) (best_pressure b) (best_ascend b) (best_heart b)
  | heat => mkBest (best_pulse b) v (best_tension b) (best_echo b) (best_pressure b) (best_ascend b) (best_heart b)
  | tension => mkBest (best_pulse b) (best_heat b) v (best_echo b) (best_pressure b) (best_ascend b) (best_heart b)
  | echo => mkBest (best_pulse b) (best_heat b) (best_tension b) v (best_pressure b) (best_ascend b) (best_heart b)
  | pressure => mkBest (best_pulse b) (best_heat b) (best_tension b) (best_echo b) v (best_ascend b) (best_heart b)
  | ascend => mkBest (best_pulse b) (best_heat b) (best_tension b) (best_echo b) (best_pressure b) v (best_heart b)
  | heart => mkBest (best_pulse b) (best_heat b) (best_tension b) (best_echo b) (best_pressure b) (best_ascend b) v
  end.

(** [type SaveState = { tokens; palette; best }] *)
Record SaveState : Type := mkSave {
  tokens : Z;
  palette : string;
  best : Best
}.

(** [PALETTES.map(p => p.key)]; [PALETTES[0].key] is the default theme. *)
Definition PALETTES : list string :=
  ["aurora"; "molten"; "sunset"; "lilac"; "reef"]%string.
Definition default_palette : string := hd EmptyString PALETTES.

(** The record [loadState] falls back to (line 680). *)
Definition default_state : SaveState :=
  mkSave 0 default_palette (mkBest 0 0 0 0 0 0 0).

(** The view of [App]: the menu, a game, the shop or the about page. *)
Inductive View : Type :=
| menu
| game (k : GameKey)
| store
| about.

(** The [useState] cells of [App] that the store operations read and write. *)
Record App : Type := mkApp {
  state : SaveState;
  view : View
}.

(** [award = n => setState(s => ({...s, tokens: s.tokens + Math.max(0, n)}))] *)
Definition award (n : Z) (s : SaveState) : SaveState :=
  mkSave (tokens s + Z.max 0 n) (palette s) (best s).

(** [spend = n => setState(s => ({...s, tokens: Math.max(0, s.tokens - n)}))] *)
Definition spend (n : Z) (s : SaveState) : SaveState :=
  mkSave (Z.max 0 (tokens s - n)) (palette s) (best s).

(** The updater [onExit] hands to [setState] (line 702), for the game [k] on
    view: [s => ({...s, best: {...s.best, [k]: Math.max(s.best[k], gscore)}})]. *)
Definition recordBest (k : GameKey) (gscore : Z) (s : SaveState) : SaveState :=
  mkSave (tokens s) (palette s)
         (set_best (best s) k (Z.max (get_best (best s) k) gscore)).

(** [onExit] (lines 700-704): nothing on the menu, the shop or the about page;
    on a game, settle the best score and return to the menu. *)
Definition onExit (gscore : Z) (a : App) : App :=
  match view a with
  | game k => mkApp (recordBest k gscore (state a)) menu
  | menu | store | about => a
  end.

(** The shop's Buy button for the theme [p] (lines 781-783).  It is disabled
    when the theme is equipped or fewer than 20 tokens are held, and a disabled
    button delivers no click; otherwise [spend(20); setPalette(p)], and the
    palette effect (line 694) copies the new key into the saved state. *)
Definition buy_disabled (p : string) (s : SaveState) : bool :=
  String.eqb (palette s) p || (tokens s <? 20)%Z.

Definition buy_click (p : string) (s : SaveState) : SaveState :=
  if buy_disabled p s then s
  else let s' := spend 20 s in mkSave (tokens s') p (best s').

(** The calls a game makes on the settlement interface it is given. *)
Inductive call : Type :=
| CallAward (n : Z)
| CallOnExit (score : Z).

Definition run_call (c : call) (a : App) : App :=
  match c with
  | CallAward n => mkApp (award n (state a)) (view a)
  | CallOnExit score => onExit score a
  end.

Definition run_calls (cs : list call) (a : App) : App :=
  fold_left (fun acc c => run_call c acc) cs a.

End Store.

(* ------------------------------------------------------------------------- *)
(** * Loading the saved state (App.tsx lines 667-681) *)

Module Persist.

Import Store.

(** A computation returns or throws. *)
Inductive outcome (A : Type) : Type :=
| Returns (a : A)
| Throws.
Arguments Returns {A} a.
Arguments Throws {A}.

Definition bind {A B : Type} (m : outcome A) (k : A -> outcome B) : outcome B :=
  match m with
  | Returns a => k a
  | Throws => Throws
  end.

(** [try { body } catch {}]: the exception is swallowed; [None] says control
    fell out of the block without a [return]. *)
Definition try_catch {A : Type} (body : outcome (option A)) : option A :=
  match body with
  | Returns r => r
  | Throws => None
  end.

(** What [JSON.parse] may return. *)
#[warnings="-register-all"] Inductive json : Type :=
| JNull
| JBool (b : bool)
| JNum (q : Q)
| JStr (s : string)
| JArr (l : list json)
| JObj (fields : list (string * json)).

Definition json_of_best (b : Best) : json :=
  JObj [ ("pulse"%string, JNum (inject_Z (best_pulse b)));
         ("heat"%string, JNum (inject_Z (best_heat b)));
         ("tension"%string, JNum (inject_Z (best_tension b)));
         ("echo"%string, JNum (inject_Z (best_echo b)));
         ("pressure"%string, JNum (inject_Z (best_pressure b)));
         ("ascend"%string, JNum (inject_Z (best_ascend b)));
         ("heart"%string, JNum (inject_Z (best_heart b))) ].

(** A [SaveState] as the JavaScript object it is. *)
Definition json_of_state (s : SaveState) : json :=
  JObj [ ("tokens"%string, JNum (inject_Z (tokens s)));
         ("palette"%string, JStr (palette s));
         ("best"%string, json_of_best (best s)) ].

(** The browser as [loadState] meets it: what [localStorage.getItem(LS_KEY)]
    does (throws, or returns [null] or the stored text) and what [JSON.parse]
    does on a text (throws a SyntaxError or returns a value). *)
Record browser : Type := mkBrowser {
  getItem : outcome (option string);
  JSON_parse : string -> outcome json
}.

(** A string is truthy unless it is empty. *)
Definition truthy (txt : option string) : bool :=
  match txt with
  | None => false
  | Some s => negb (String.eqb s EmptyString)
  end.

(** [loadState] (lines 675-681). *)
Definition loadState (w : browser) : outcome json :=
  match try_catch
          (bind (getItem w) (fun txt =>
             if truthy txt then
               match txt with
               | Some s => bind (JSON_parse w s) (fun v => Returns (Some v))
               | None => Returns None
               end
             else Returns None))
  with
  | Some v => Returns v
  | None => Returns (json_of_state default_state)
  end.

(** The stored data is missing or unparsable: reading throws, nothing is
    stored, the stored text is empty, or [JSON.parse] rejects it. *)
Definition missing_or_unparsable (w : browser) : Prop :=
  match getItem w with
  | Throws => True
  | Returns None => True
  | Returns (Some s) => s = EmptyString \/ JSON_parse w s = Throws
  end.

End Persist.

(* ------------------------------------------------------------------------- *)
(** * Scoring shared by the tap games

    The two expressions the tap handlers repeat (lines 187-188, 404-405 and
    616-617): [1 - clamp(err / tolerance, 0, 1)] and
    [Math.round(accuracy * maxPoints)]. *)

Module Scoring.

Definition accuracyFromError (err tolerance : Q) : Q :=
  1 - JS.clamp (err / tolerance) 0 1.

Definition pointsFromAccuracy (accuracy maxPoints : Q) : Z :=
  JS.Math_round (accuracy * maxPoints).

End Scoring.

(* ------------------------------------------------------------------------- *)
(** * Game: PulseLink (App.tsx lines 142-219) *)

Module PulseLink.

(** The one deferred callback: [tick]. *)
Inductive cb : Type :=
| Tick.

Record session : Type := mkSession {
  score : Z;                    (* useState *)
  beatAt : Q;                   (* useState *)
  bpm : Z;                      (* beatRef.current.bpm *)
  id : option nat;              (* [let id] of the beat effect *)
  timers : Timers.queue cb;
  out : Feedback.log;
  mounted : bool
}.

(** The first render: [useState(0)], [useState(0)], [useRef({bpm: 84, ..})]. *)
Definition init : session :=
  mkSession 0 0 84 None Timers.empty [] true.

(** [setState] of an unmounted component is dropped by React. *)
Definition set_beatAt (t : Q) (s : session) : session :=
  if mounted s
  then mkSession (score s) t (bpm s) (id s) (timers s) (out s) (mounted s)
  else s.

Definition set_score (v : Z) (s : session) : session :=
  if mounted s
  then mkSession v (beatAt s) (bpm s) (id s) (timers s) (out s) (mounted s)
  else s.

Definition emit (t : Q) (r : Feedback.request) (s : session) : session :=
  mkSession (score s) (beatAt s) (bpm s) (id s) (timers s) ((t, r) :: out s)
            (mounted s).

(** [const interval = 60000 / beatRef.current.bpm] *)
Definition interval (s : session) : Q := 60000 / inject_Z (bpm s).

(** [tick] (lines 168-174), run at time [t]. *)
Definition tick (t : Q) (s : session) : session :=
  let iv := interval s in
  let s := set_beatAt t s in
  let s := emit t (Feedback.Tone 220 (5 # 100)) s in
  let s := emit t (Feedback.Vibrate [10%Z]) s in
  let '(i, q) := Timers.setTimeout Tick iv t (timers s) in
  mkSession (score s) (beatAt s) (bpm s) (Some i) q (out s) (mounted s).

(** The beat effect on mount (lines 163-177): [start()] draws the tempo and
    runs the first [tick]. *)
Definition start (t r : Q) : session :=
  let s := init in
  let s := mkSession (score s) (beatAt s) (JS.Math_round (JS.rand r 72 128))
                     (id s) (timers s) (out s) (mounted s) in
  tick t s.

(** [onTap] (lines 181-191), handled at time [t]. *)
Definition tap_gain (t : Q) (s : session) : Z :=
  let iv := interval s in
  let d := JS.Math_abs (JS.fmod (t - beatAt s) iv) in
  let err := JS.Math_min d (iv - d) in
  let acc := Scoring.accuracyFromError err (iv / 2) in
  Scoring.pointsFromAccuracy acc 10.

Definition onTap (t : Q) (s : session) : session :=
  let s := emit t (Feedback.blip true) s in
  let gain := tap_gain t s in
  let s := set_score (score s + gain) s in
  if (9 <=? gain)%Z then emit t (Feedback.Vibrate [10; 10; 10]%Z) s else s.

(** The cleanup of the beat effect: [if (id) clearTimeout(id)]. *)
Definition unmount (s : session) : session :=
  mkSession (score s) (beatAt s) (bpm s) (id s)
            (Timers.clearTimeout (id s) (timers s)) (out s) false.

Inductive event : Type :=
| Tap (t : Q)                 (* pointer down on the Tap button *)
| Expire (i : nat) (t : Q)    (* the browser runs the timer [i] *)
| Unmount.                    (* the game leaves the screen *)

Definition step (s : session) (e : event) : session :=
  match e with
  | Tap t => if mounted s then onTap t s else s
  | Expire i t =>
      match Timers.expire i t (timers s) with
      | Some (Tick, q) =>
          tick t (mkSession (score s) (beatAt s) (bpm s) (id s) q (out s)
                            (mounted s))
      | None => s
      end
  | Unmount => if mounted s then unmount s else s
  end.

(** A session: mounted at [t0] with the draw [r], then the events in order. *)
Definition run (t0 r : Q) (evs : list event) : session :=
  fold_left step evs (start t0 r).

(** The Exit button (line 215): [award(Math.floor(score/5)); onExit(score)]. *)
Definition exit_click (score : Z) : list Store.call :=
  [Store.CallAward (JS.Math_floor (inject_Z score / 5)); Store.CallOnExit score].

End PulseLink.

(* ------------------------------------------------------------------------- *)
(** * Game: HeatBloom (App.tsx lines 224-305) *)

Module HeatBloom.

Record session : Type := mkSession {
  score : Z;            (* useState *)
  heat : Q;             (* useRef *)
  target_min : Q;       (* target.current.min *)
  target_max : Q;       (* target.current.max *)
  holding : bool;       (* useRef *)
  bloom : Q;            (* useState *)
  last : Q              (* [let last] of the loop effect *)
}.

(** The first render, and the loop effect's [last = now()] at mount time [t]. *)
Definition start (t : Q) : session :=
  mkSession 0 0 (45 # 100) (65 # 100) false 0 t.

(** [const dt = (t - last) / 1000] (line 236; the same line opens the loops
    of TensionLine, PressureCraft and AscendLight). *)
Definition frame_dt (t last : Q) : Q := (t - last) / 1000.

(** The heat physics of a frame (lines 238-240). *)
Definition heat_step (hold : bool) (dt h : Q) : Q :=
  let kUp := 55 # 100 in
  let kDown := 35 # 100 in
  JS.clamp (if hold then h + kUp * dt else h - kDown * dt) 0 1.

(** The draws of [Math.random()] a frame may consume: two for the new band
    after a bloom, two for the new band after an overheat. *)
Record draws : Type := mkDraws {
  bloom_min : Q; bloom_max : Q;
  crack_min : Q; crack_max : Q
}.

(** One pass of [loop] (lines 234-266) at time [t].  The effect depends on
    [bloom], so the [bloom] the loop reads is the current one; when a change
    of [bloom] restarts the effect, its [last = now()] is taken to read the
    time of the frame that caused it. *)
Definition frame (t : Q) (r : draws) (s : session) : session :=
  let dt := frame_dt t (last s) in
  let h := heat_step (holding s) dt (heat s) in
  let inBand := Qle_bool (target_min s) h && Qle_bool h (target_max s) in
  let success := inBand && Qle_bool 1 (bloom s + dt * (6 # 10)) in
  (* the band branch *)
  let b1 :=
    if inBand
    then (if success then 0 else JS.clamp (bloom s + dt * (6 # 10)) 0 1)
    else JS.clamp (bloom s - dt * (8 # 10)) 0 1 in
  let sc1 := if success then (score s + 10)%Z else score s in
  let tmin1 := if success then JS.rand (bloom_min r) (3 # 10) (5 # 10)
               else target_min s in
  let tmax1 := if success then JS.rand (bloom_max r) (6 # 10) (8 # 10)
               else target_max s in
  (* overheat crack *)
  if Qle_bool (995 # 1000) h
  then mkSession (Z.max 0 (sc1 - 3)) (3 # 10)
                 (JS.rand (crack_min r) (35 # 100) (55 # 100))
                 (JS.rand (crack_max r) (6 # 10) (85 # 100))
                 (holding s) 0 t
  else mkSession sc1 h tmin1 tmax1 (holding s) b1 t.

Definition set_holding (v : bool) (s : session) : session :=
  mkSession (score s) (heat s) (target_min s) (target_max s) v (bloom s)
            (last s).

Inductive event : Type :=
| Frame (t : Q) (r : draws)   (* requestAnimationFrame calls [loop] *)
| Down                        (* onPointerDown *)
| Up.                         (* onPointerUp and onPointerCancel *)

Definition step (s : session) (e : event) : session :=
  match e with
  | Frame t r => frame t r s
  | Down => set_holding true s
  | Up => set_holding false s
  end.

Definition run (t0 : Q) (evs : list event) : session :=
  fold_left step evs (start t0).

(** The Exit button (line 301). *)
Definition exit_click (score : Z) : list Store.call :=
  [Store.CallAward (JS.Math_floor (inject_Z score / 5)); Store.CallOnExit score].

End HeatBloom.

(* ------------------------------------------------------------------------- *)
(** * Game: TensionLine (App.tsx lines 310-371) *)

Module TensionLine.

Record session : Type := mkSession {
  score : Z;        (* useState *)
  len : Q;          (* useState *)
  target : Q;       (* useState *)
  pulling : bool;   (* useRef *)
  last : Q          (* [let last] of the loop effect *)
}.

(** The first render, with the draw [r] of [rand(0.35, 0.8)], mounted at [t]. *)
Definition start (t r : Q) : session :=
  mkSession 0 (4 # 10) (JS.rand r (35 # 100) (8 # 10)) false t.

Definition frame_dt (t last : Q) : Q := (t - last) / 1000.

(** One pass of [loop] (lines 336-345). *)
Definition frame (t : Q) (s : session) : session :=
  let dt := frame_dt t (last s) in
  let l := if pulling s
           then JS.clamp (len s + dt * (35 # 100)) 0 1
           else JS.clamp (len s - dt * (25 # 100)) 0 1 in
  mkSession (score s) l (target s) (pulling s) t.

(** [onDown] (lines 316-318). *)
Definition onDown (s : session) : session :=
  mkSession (score s) (len s) (target s) true (last s).

(** The points of a release (lines 322-323). *)
Definition release_points (l tgt : Q) : Z :=
  let err := JS.Math_abs (l - tgt) in
  Z.max 0 (JS.Math_round (12 - err * 40)).

(** [onUp] (lines 320-332), with the draw [r] of [rand(0.3, 0.9)]. *)
Definition onUp (r : Q) (s : session) : session :=
  mkSession (score s + release_points (len s) (target s)) (len s)
            (JS.rand r (3 # 10) (9 # 10)) false (last s).

Inductive event : Type :=
| Frame (t : Q)
| Down
| Up (r : Q).     (* onPointerUp and onPointerCancel *)

Definition step (s : session) (e : event) : session :=
  match e with
  | Frame t => frame t s
  | Down => onDown s
  | Up r => onUp r s
  end.

Definition run (t0 r0 : Q) (evs : list event) : session :=
  fold_left step evs (start t0 r0).

(** The Exit button (line 367). *)
Definition exit_click (score : Z) : list Store.call :=
  [Store.CallAward (JS.Math_floor (inject_Z score / 6)); Store.CallOnExit score].

End TensionLine.

(* ------------------------------------------------------------------------- *)
(** * Game: Echo Orb (App.tsx lines 376-436) *)

Module EchoOrb.

Inductive phase_t : Type :=
| listen
| tap
| result.

Definition phase_eqb (a b : phase_t) : bool :=
  match a, b with
  | listen, listen | tap, tap | result, result => true
  | _, _ => false
  end.

(** The deferred callbacks: the outer one of the listen effect (line 388),
    which captured [intervalMs]; the inner one (line 390); and the one [onTap]
    schedules when a round is scored (line 409). *)
Inductive cb : Type :=
| PulseOff (intervalMs : Q)
| ToTap
| NextRound.

Record session : Type := mkSession {
  phase : phase_t;              (* useState *)
  intervalMs : Q;               (* useState *)
  score : Z;                    (* useState *)
  pulse : Z;                    (* useState *)
  taps : list Q;                (* taps.current, oldest first *)
  timer : option nat;           (* [let timer] of the listen effect *)
  timers : Timers.queue cb;
  out : Feedback.log;
  mounted : bool
}.

(** The first render. *)
Definition init : session :=
  mkSession listen 800 0 0 [] None Timers.empty [] true.

Definition emit (t : Q) (r : Feedback.request) (s : session) : session :=
  mkSession (phase s) (intervalMs s) (score s) (pulse s) (taps s) (timer s)
            (timers s) ((t, r) :: out s) (mounted s).

(** [setState] calls; React drops them once the component is unmounted. *)
Definition set_pulse (v : Z) (s : session) : session :=
  if mounted s
  then mkSession (phase s) (intervalMs s) (score s) v (taps s) (timer s)
                 (timers s) (out s) (mounted s)
  else s.

Definition set_phase (v : phase_t) (s : session) : session :=
  if mounted s
  then mkSession v (intervalMs s) (score s) (pulse s) (taps s) (timer s)
                 (timers s) (out s) (mounted s)
  else s.

Definition set_intervalMs (v : Q) (s : session) : session :=
  if mounted s
  then mkSession (phase s) v (score s) (pulse s) (taps s) (timer s)
                 (timers s) (out s) (mounted s)
  else s.

Definition set_score (v : Z) (s : session) : session :=
  if mounted s
  then mkSession (phase s) (intervalMs s) v (pulse s) (taps s) (timer s)
                 (timers s) (out s) (mounted s)
  else s.

(** Writes to the ref and to the effect's variable always happen. *)
Definition set_taps (v : list Q) (s : session) : session :=
  mkSession (phase s) (intervalMs s) (score s) (pulse s) v (timer s)
            (timers s) (out s) (mounted s).

Definition set_timer (v : option nat) (q : Timers.queue cb) (s : session)
  : session :=
  mkSession (phase s) (intervalMs s) (score s) (pulse s) (taps s) v q (out s)
            (mounted s).

(** [timer = setTimeout(cb, delay)] at time [t]. *)
Definition schedule_timer (c : cb) (delay t : Q) (s : session) : session :=
  let '(i, q) := Timers.setTimeout c delay t (timers s) in
  set_timer (Some i) q s.

(** The body of the listen effect (lines 384-394), run at time [t] with a
    fresh [timer] variable. *)
Definition effect_body (t : Q) (s : session) : session :=
  let s := set_timer None (timers s) s in
  if phase_eqb (phase s) listen then
    let s := set_pulse 1 s in
    let s := emit t (Feedback.Tone 240 (1 # 10)) s in
    let s := emit t (Feedback.Vibrate [10%Z]) s in
    schedule_timer (PulseOff (intervalMs s)) 300 t s
  else s.

(** Its cleanup (line 395): [clearTimeout(timer)]. *)
Definition effect_cleanup (s : session) : session :=
  set_timer (timer s) (Timers.clearTimeout (timer s) (timers s)) s.

(** After a handler ran from [before] to [s]: a mounted component whose
    [phase] or [intervalMs] changed re-runs the effect, cleanup first. *)
Definition rerender (t : Q) (before s : session) : session :=
  if mounted s &&
     negb (phase_eqb (phase before) (phase s) &&
           Qeq_bool (intervalMs before) (intervalMs s))
  then effect_body t (effect_cleanup s)
  else s.

(** The points of a round (lines 402-405): [first] and [second] are the two
    tap times. *)
Definition round_points (first second iv : Q) : Z :=
  let d := JS.Math_abs (second - first) in
  let err := JS.Math_abs (d - iv) in
  let acc := Scoring.accuracyFromError err 800 in
  Scoring.pointsFromAccuracy acc 12.

(** [onTap] (lines 398-415), handled at time [t]. *)
Definition onTap (t : Q) (s : session) : session :=
  if negb (phase_eqb (phase s) tap) then s
  else
    let s := set_taps (taps s ++ [t]) s in
    match taps s with
    | [first; second] =>
        let pts := round_points first second (intervalMs s) in
        let s := set_score (score s + pts) s in
        let s := if (8 <? pts)%Z
                 then emit t (Feedback.Vibrate [10; 10; 10]%Z)
                        (emit t (Feedback.blip true) s)
                 else emit t (Feedback.blip false) s in
        let s := set_phase result s in
        (* [setTimeout(.., 700)]: the id is not kept *)
        let '(_, q) := Timers.setTimeout NextRound 700 t (timers s) in
        set_timer (timer s) q s
    | _ => s
    end.

(** The callbacks, run at time [t]; [r] is the draw [NextRound] consumes. *)
Definition run_cb (c : cb) (t r : Q) (s : session) : session :=
  match c with
  | PulseOff iv =>
      let s := set_pulse 0 s in
      schedule_timer ToTap iv t s
  | ToTap => set_phase tap s
  | NextRound =>
      let s := set_taps [] s in
      let s := set_intervalMs (JS.rand r 500 1400) s in
      set_phase listen s
  end.

(** Mounting at time [t] runs the effect once. *)
Definition start (t : Q) : session := effect_body t init.

(** Unmounting runs the cleanup of the effect. *)
Definition unmount (s : session) : session :=
  let s := effect_cleanup s in
  mkSession (phase s) (intervalMs s) (score s) (pulse s) (taps s) (timer s)
            (timers s) (out s) false.

Inductive event : Type :=
| Tap (t : Q)                     (* pointer down anywhere on the game *)
| Expire (i : nat) (t r : Q)      (* the browser runs the timer [i] *)
| Unmount.

Definition step (s : session) (e : event) : session :=
  match e with
  | Tap t => if mounted s then rerender t s (onTap t s) else s
  | Expire i t r =>
      match Timers.expire i t (timers s) with
      | Some (c, q) =>
          rerender t s (run_cb c t r (set_timer (timer s) q s))
      | None => s
      end
  | Unmount => if mounted s then unmount s else s
  end.

Definition run (t0 : Q) (evs : list event) : session :=
  fold_left step evs (start t0).

(** The Exit button (line 432). *)
Definition exit_click (score : Z) : list Store.call :=
  [Store.CallAward (JS.Math_floor (inject_Z score / 6)); Store.CallOnExit score].

End EchoOrb.

(* ------------------------------------------------------------------------- *)
(** * Game: PressureCraft (App.tsx lines 441-502) *)

Module PressureCraft.

Record session : Type := mkSession {
  score : Z;        (* useState *)
  level : Z;        (* useState *)
  fill : Q;         (* useState *)
  holding : bool;   (* useState *)
  zone_a : Q;       (* zone.a *)
  zone_b : Q;       (* zone.b *)
  zone_dir : Q;     (* zone.dir *)
  last : Q          (* [let last] of the loop effect *)
}.

(** The first render, mounted at time [t]. *)
Definition start (t : Q) : session :=
  mkSession 0 1 0 false (5 # 10) (7 # 10) 1 t.

Definition frame_dt (t last : Q) : Q := (t - last) / 1000.

(** The fill updater of a frame (line 452). *)
Definition fill_step (hold : bool) (dt f : Q) : Q :=
  JS.clamp (f + (if hold then 1 else -1) * dt * (8 # 10)) 0 1.

(** One pass of [loop] (lines 450-460) at time [t]. *)
Definition frame (t : Q) (s : session) : session :=
  let dt := frame_dt t (last s) in
  let f := fill_step (holding s) dt (fill s) in
  let speed := (2 # 10) + inject_Z (level s) * (4 # 100) in
  let a := zone_a s + zone_dir s * dt * speed in
  let b := zone_b s + zone_dir s * dt * speed in
  if Qle_bool 1 b || Qle_bool a 0
  then mkSession (score s) (level s) f (holding s)
                 (JS.clamp a 0 (85 # 100)) (JS.clamp b (15 # 100) 1)
                 (zone_dir s * -1) t
  else mkSession (score s) (level s) f (holding s) a b (zone_dir s) t.

(** The loop effect depends on [holding] and [level]: when a handler changes
    either, the effect restarts and its [last] is read anew at time [t]. *)
Definition restart (t : Q) (before s : session) : session :=
  if Bool.eqb (holding before) (holding s) && (level before =? level s)%Z
  then s
  else mkSession (score s) (level s) (fill s) (holding s) (zone_a s)
                 (zone_b s) (zone_dir s) t.

(** [onPointerDown]: [setHolding(true)]. *)
Definition onDown (s : session) : session :=
  mkSession (score s) (level s) (fill s) true (zone_a s) (zone_b s)
            (zone_dir s) (last s).

(** [release] (lines 465-477). *)
Definition release (s : session) : session :=
  if Qle_bool (zone_a s) (fill s) && Qle_bool (fill s) (zone_b s)
  then mkSession (score s + 12) (level s + 1) (15 # 100) false (zone_a s)
                 (zone_b s) (zone_dir s) (last s)
  else mkSession (Z.max 0 (score s - 4)) (level s) (5 # 100) false (zone_a s)
                 (zone_b s) (zone_dir s) (last s).

Inductive event : Type :=
| Frame (t : Q)
| Down (t : Q)
| Release (t : Q).   (* onPointerUp and onPointerCancel *)

Definition step (s : session) (e : event) : session :=
  match e with
  | Frame t => frame t s
  | Down t => restart t s (onDown s)
  | Release t => restart t s (release s)
  end.

Definition run (t0 : Q) (evs : list event) : session :=
  fold_left step evs (start t0).

(** The Exit button (line 498). *)
Definition exit_click (score : Z) : list Store.call :=
  [Store.CallAward (JS.Math_floor (inject_Z score / 6)); Store.CallOnExit score].

End PressureCraft.

(* ------------------------------------------------------------------------- *)
(** * Game: Ascend Light (App.tsx lines 507-582) *)

Module AscendLight.

Section Physics.

(** [Math.hypot], the one function of the file that leaves the rationals. *)
Variable Math_hypot : Q -> Q -> Q.

Record zone : Type := mkZone {
  zx : Q;
  zy : Q;
  zr : Q
}.

Record session : Type := mkSession {
  score : Z;           (* useState *)
  y : Q;
  vy : Q;
  alive : bool;
  last : Q;
  zones : list zone;
  press : bool;        (* pressRef.current *)
  W : Q;
  H : Q
}.

(** [Array.from({length: 5}, (_, i) => ({x: i*220 + 200, y: rand(120, H-120),
    r: 60}))], the draw of zone [i] being [r i]. *)
Definition initial_zones (h : Q) (r : nat -> Q) : list zone :=
  map (fun i => mkZone (inject_Z (Z.of_nat i) * 220 + 200)
                       (JS.rand (r i) 120 (h - 120)) 60)
      (seq 0 5).

(** The effect on mount (lines 514-523) at time [t], on a canvas of client
    size [cw] by [ch]. *)
Definition start (t cw ch : Q) (r : nat -> Q) : session :=
  let w := JS.Math_min 420 cw in
  let h := JS.Math_min 720 ch in
  mkSession 0 (h * (6 # 10)) 0 true t (initial_zones h r) false w h.

Definition frame_dt (t last : Q) : Q := (t - last) / 1000.

(** The body of the loop over the zones (lines 534-538) for zone number [i]:
    the zone moved, the new [vy] and the points earned. *)
Definition zone_step (dt w h py : Q) (live : bool) (draw : nat -> Q)
           (i : nat) (z : zone) (v : Q) : zone * Q * Z :=
  let x1 := zx z - 120 * dt in
  let wrapped := if Qlt_le_dec x1 (-60) then true else false in
  let x2 := if wrapped then x1 + 5 * 220 else x1 in
  let y2 := if wrapped then JS.rand (draw i) 120 (h - 120) else zy z in
  let dx := w * (35 # 100) - x2 in
  let dy := py - y2 in
  let d := Math_hypot dx dy in
  let boost := JS.clamp (1 - d / zr z) 0 1 in
  let v' := v - 240 * boost * dt in
  let pts := if live && (if Qlt_le_dec (8 # 10) boost then true else false)
             then 1%Z else 0%Z in
  (mkZone x2 y2 (zr z), v', pts).

Fixpoint zones_loop (dt w h py : Q) (live : bool) (draw : nat -> Q)
         (i : nat) (zs : list zone) (v : Q) (sc : Z) : list zone * Q * Z :=
  match zs with
  | [] => ([], v, sc)
  | z :: rest =>
      let '(z', v', pts) := zone_step dt w h py live draw i z v in
      let '(rest', v'', sc') :=
        zones_loop dt w h py live draw (S i) rest v' (sc + pts) in
      (z' :: rest', v'', sc')
  end.

(** One pass of [loop] (lines 525-563) at time [t]; the drawing is left out. *)
Definition frame (t : Q) (draw : nat -> Q) (s : session) : session :=
  let dt := frame_dt t (last s) in
  let v1 := if alive s
            then (if press s then vy s + 160 * dt - 360 * dt
                  else vy s + 160 * dt)
            else vy s + 40 * dt in
  let y1 := y s + v1 * dt in
  let '(y2, v2, a2) :=
    if Qlt_le_dec y1 10 then (10, 0, false) else (y1, v1, alive s) in
  let '(y3, v3, a3) :=
    if Qlt_le_dec (H s - 10) y2 then (H s - 10, 0, false) else (y2, v2, a2) in
  let '(zs, v4, sc) :=
    zones_loop dt (W s) (H s) y3 a3 draw 0 (zones s) v3 (score s) in
  mkSession sc y3 v4 a3 t zs (press s) (W s) (H s).

Definition set_press (v : bool) (s : session) : session :=
  mkSession (score s) (y s) (vy s) (alive s) (last s) (zones s) v (W s) (H s).

(** [resize] (line 516), on the window's resize event. *)
Definition resize (cw ch : Q) (s : session) : session :=
  mkSession (score s) (y s) (vy s) (alive s) (last s) (zones s) (press s)
            (JS.Math_min 420 cw) (JS.Math_min 720 ch).

Inductive event : Type :=
| Frame (t : Q) (draw : nat -> Q)
| Down
| Up                    (* onPointerUp and onPointerCancel *)
| Resize (cw ch : Q).

Definition step (s : session) (e : event) : session :=
  match e with
  | Frame t draw => frame t draw s
  | Down => set_press true s
  | Up => set_press false s
  | Resize cw ch => resize cw ch s
  end.

Definition run (t0 cw ch : Q) (r : nat -> Q) (evs : list event) : session :=
  fold_left step evs (start t0 cw ch r).

End Physics.

(** The Exit button (line 578). *)
Definition exit_click (score : Z) : list Store.call :=
  [Store.CallAward (JS.Math_floor (inject_Z score / 8)); Store.CallOnExit score].

End AscendLight.

(* ------------------------------------------------------------------------- *)
(** * Game: Heartbeat Collective (App.tsx lines 587-646) *)

Module Heartbeat.

Inductive phase_t : Type :=
| cal
| sync.

Definition phase_eqb (a b : phase_t) : bool :=
  match a, b with
  | cal, cal | sync, sync => true
  | _, _ => false
  end.

(** The deferred callbacks of [tick] (line 597): the pulse going off, and
    [tick] itself, which captured the effect's [interval]. *)
Inductive cb : Type :=
| PulseOff
| Tick (interval : JS.num).

(** [score] is [None] when it is NaN. *)
Record session : Type := mkSession {
  phase : phase_t;              (* useState *)
  bpm : JS.num;                 (* useState *)
  taps : list Q;                (* taps.current, oldest first *)
  score : option Z;             (* useState *)
  pulse : Z;                    (* useState *)
  id : option nat;              (* [let id] of the sync effect *)
  cleanup : bool;               (* the last effect run returned its cleanup *)
  timers : Timers.queue cb;
  out : Feedback.log;
  mounted : bool
}.

(** The first render. *)
Definition init : session :=
  mkSession cal (JS.Fin 0) [] (Some 0%Z) 0 None false Timers.empty [] true.

Definition emit (t : Q) (r : Feedback.request) (s : session) : session :=
  mkSession (phase s) (bpm s) (taps s) (score s) (pulse s) (id s) (cleanup s)
            (timers s) ((t, r) :: out s) (mounted s).

(** [setState] calls; React drops them once the component is unmounted. *)
Definition set_phase (v : phase_t) (s : session) : session :=
  if mounted s
  then mkSession v (bpm s) (taps s) (score s) (pulse s) (id s) (cleanup s)
                 (timers s) (out s) (mounted s)
  else s.

Definition set_bpm (v : JS.num) (s : session) : session :=
  if mounted s
  then mkSession (phase s) v (taps s) (score s) (pulse s) (id s) (cleanup s)
                 (timers s) (out s) (mounted s)
  else s.

Definition set_score (v : option Z) (s : session) : session :=
  if mounted s
  then mkSession (phase s) (bpm s) (taps s) v (pulse s) (id s) (cleanup s)
                 (timers s) (out s) (mounted s)
  else s.

Definition set_pulse (v : Z) (s : session) : session :=
  if mounted s
  then mkSession (phase s) (bpm s) (taps s) (score s) v (id s) (cleanup s)
                 (timers s) (out s) (mounted s)
  else s.

(** Writes to the ref and to the effect's variables always happen. *)
Definition set_taps (v : list Q) (s : session) : session :=
  mkSession (phase s) (bpm s) v (score s) (pulse s) (id s) (cleanup s)
            (timers s) (out s) (mounted s).

Definition set_id (v : option nat) (q : Timers.queue cb) (s : session)
  : session :=
  mkSession (phase s) (bpm s) (taps s) (score s) (pulse s) v (cleanup s) q
            (out s) (mounted s).

Definition set_cleanup (v : bool) (s : session) : session :=
  mkSession (phase s) (bpm s) (taps s) (score s) (pulse s) (id s) v
            (timers s) (out s) (mounted s).

(** [id = setTimeout(cb, delay)] at time [t]. *)
Definition schedule_id (c : cb) (delay t : Q) (s : session) : session :=
  let '(i, q) := Timers.setTimeout c delay t (timers s) in
  set_id (Some i) q s.

(** [const interval = 60000 / (bpm || 60)] (lines 596 and 614). *)
Definition beat_interval (b : JS.num) : JS.num :=
  JS.div_num 60000 (JS.or_else b 60).

(** [tick] (line 597), run at time [t] with the captured [interval]. *)
Definition tick (t : Q) (iv : JS.num) (s : session) : session :=
  let s := set_pulse 1 s in
  let s := emit t (Feedback.Tone 200 (8 # 100)) s in
  let s := emit t (Feedback.Vibrate [8%Z]) s in
  let s := schedule_id PulseOff 180 t s in
  schedule_id (Tick iv) (JS.delay_of iv) t s.

(** The body of the sync effect (lines 595-599) at time [t]. *)
Definition effect_body (t : Q) (s : session) : session :=
  if phase_eqb (phase s) sync then
    let s := set_id None (timers s) s in
    let s := tick t (beat_interval (bpm s)) s in
    set_cleanup true s
  else set_cleanup false s.

(** The cleanup the effect returned, if it returned one: [clearTimeout(id)]. *)
Definition effect_cleanup (s : session) : session :=
  if cleanup s
  then set_id (id s) (Timers.clearTimeout (id s) (timers s)) s
  else s.

(** A mounted component whose [phase] or [bpm] changed re-runs the effect. *)
Definition rerender (t : Q) (before s : session) : session :=
  if mounted s &&
     negb (phase_eqb (phase before) (phase s) &&
           JS.num_eqb (bpm before) (bpm s))
  then effect_body t (effect_cleanup s)
  else s.

(** [taps.current.slice(1).map((t, i) => t - taps.current[i])] *)
Fixpoint gaps (l : list Q) : list Q :=
  match l with
  | a :: (b :: _) as rest => (b - a) :: gaps rest
  | _ => []
  end.

(** [ds.reduce((a, b) => a + b, 0) / ds.length] *)
Definition mean (ds : list Q) : Q :=
  fold_left Qplus ds 0 / inject_Z (Z.of_nat (List.length ds)).

(** [clamp(60000 / avg, 50, 150)] (line 608). *)
Definition candidate (recorded : list Q) : JS.num :=
  JS.clamp_num (JS.div 60000 (mean (gaps recorded))) 50 150.

(** The points of a tap in [sync] (lines 614-617) at time [t], [None] being
    NaN.  With a finite non-zero interval every step is finite.  Otherwise:
    [t % 0] and [t % NaN] are NaN, which every later step keeps; [t % Infinity]
    is [t], the error is [t], [t / Infinity] is 0 and the accuracy 1;
    [Math.min(t, -Infinity - t)] is [-Infinity], and [-Infinity / -Infinity]
    is NaN. *)
Definition sync_points (iv : JS.num) (t : Q) : option Z :=
  match iv with
  | JS.Fin i =>
      if Qeq_bool i 0 then None
      else
        let d := JS.fmod t i in
        let err := JS.Math_min d (i - d) in
        let acc := Scoring.accuracyFromError err (i / 2) in
        Some (Scoring.pointsFromAccuracy acc 10)
  | JS.PosInf => Some (Scoring.pointsFromAccuracy 1 10)
  | JS.NaN | JS.NegInf => None
  end.

(** [s + pts] *)
Definition add_points (sc pts : option Z) : option Z :=
  match sc, pts with
  | Some a, Some b => Some (a + b)%Z
  | _, _ => None
  end.

(** [pts > 8], false for NaN. *)
Definition above_8 (pts : option Z) : bool :=
  match pts with
  | Some p => (8 <? p)%Z
  | None => false
  end.

(** [onTap] (lines 602-621), handled at time [t]. *)
Definition onTap (t : Q) (s : session) : session :=
  match phase s with
  | cal =>
      let s := set_taps (taps s ++ [t]) s in
      let s := emit t (Feedback.Tone 260 (5 # 100)) s in
      if (6 <=? List.length (taps s))%nat then
        let c := candidate (taps s) in
        let s := set_bpm c s in
        let s := set_phase sync s in
        set_taps [] s
      else s
  | sync =>
      let pts := sync_points (beat_interval (bpm s)) t in
      let s := set_score (add_points (score s) pts) s in
      if above_8 pts
      then emit t (Feedback.Vibrate [10; 10; 10]%Z)
             (emit t (Feedback.blip true) s)
      else emit t (Feedback.blip false) s
  end.

Definition run_cb (c : cb) (t : Q) (s : session) : session :=
  match c with
  | PulseOff => set_pulse 0 s
  | Tick iv => tick t iv s
  end.

(** Mounting at time [t] runs the effect once. *)
Definition start (t : Q) : session := effect_body t init.

(** Unmounting runs the cleanup the effect left, if any. *)
Definition unmount (s : session) : session :=
  let s := effect_cleanup s in
  mkSession (phase s) (bpm s) (taps s) (score s) (pulse s) (id s) (cleanup s)
            (timers s) (out s) false.

Inductive event : Type :=
| Tap (t : Q)                 (* pointer down anywhere on the game *)
| Expire (i : nat) (t : Q)    (* the browser runs the timer [i] *)
| Unmount.

Definition step (s : session) (e : event) : session :=
  match e with
  | Tap t => if mounted s then rerender t s (onTap t s) else s
  | Expire i t =>
      match Timers.expire i t (timers s) with
      | Some (c, q) => rerender t s (run_cb c t (set_id (id s) q s))
      | None => s
      end
  | Unmount => if mounted s then unmount s else s
  end.

Definition run (t0 : Q) (evs : list event) : session :=
  fold_left step evs (start t0).

(** The Exit button (line 642). *)
Definition exit_click (score : Z) : list Store.call :=
  [Store.CallAward (JS.Math_floor (inject_Z score / 6)); Store.CallOnExit score].

End Heartbeat.

(* ------------------------------------------------------------------------- *)
(** * GameFrame (App.tsx lines 654-662): the game a key stands for *)

Module GameFrame.

Import Store.

(** What the Exit button of the game [g] calls when the score is [score]. *)
Definition exit_click (g : GameKey) (score : Z) : list call :=
  match g with
  | pulse => PulseLink.exit_click score
  | heat => HeatBloom.exit_click score
  | tension => TensionLine.exit_click score
  | echo => EchoOrb.exit_click score
  | pressure => PressureCraft.exit_click score
  | ascend => AscendLight.exit_click score
  | heart => Heartbeat.exit_click score
  end.

End GameFrame.

(* ------------------------------------------------------------------------- *)
(** * The palettes (App.tsx lines 17-23) and their lookup (lines 130, 690) *)

Module Palettes.

(** [{ key, g, a }] *)
Record palette : Type := mkPalette {
  key : string;
  g : string;
  a : list string
}.

Definition PALETTES : list palette :=
  [ mkPalette "aurora" "from-rose-300 via-amber-200 to-emerald-200"
      ["#fecdd3"; "#fde68a"; "#a7f3d0"];
    mkPalette "molten" "from-orange-300 via-rose-200 to-pink-300"
      ["#fdba74"; "#fecdd3"; "#f9a8d4"];
    mkPalette "sunset" "from-amber-200 via-rose-200 to-violet-200"
      ["#fde68a"; "#fecdd3"; "#ddd6fe"];
    mkPalette "lilac" "from-fuchsia-200 via-violet-200 to-sky-200"
      ["#f5d0fe"; "#ddd6fe"; "#bae6fd"];
    mkPalette "reef" "from-teal-200 via-emerald-200 to-sky-200"
      ["#99f6e4"; "#a7f3d0"; "#bae6fd"] ]%string.

(** [PALETTES[0]] *)
Definition first : palette :=
  hd (mkPalette EmptyString EmptyString []) PALETTES.

(** [PALETTES.find(p => p.key === k)] *)
Definition find_key (k : string) : option palette :=
  find (fun p => String.eqb (key p) k) PALETTES.

(** [PALETTES.find(p => p.key === k) || PALETTES[0]]: the palette the top
    bar's select sets (line 130) and the one [App] starts with (line 690). *)
Definition resolve (k : string) : palette :=
  match find_key k with
  | Some p => p
  | None => first
  end.

End Palettes.

(* ------------------------------------------------------------------------- *)
(** * The backends behind the feedback: [vibrate] (lines 28-32) and the
      class [Sound] (lines 37-83) *)

Module Backends.

(** What the page finds under [navigator]: no navigator at all, one without
    [vibrate], or one whose [vibrate] returns ([true]) or throws ([false]) on
    a pattern. *)
Inductive navigator : Type :=
| NoNavigator
| NoVibrate
| HasVibrate (accepts : list Z -> bool).

(** [vibrate(pattern)] (lines 28-32): the patterns the device was handed so
    far, the latest first; an exception of the device is swallowed. *)
Definition vibrate (nav : navigator) (pattern : list Z)
           (handed : list (list Z)) : list (list Z) :=
  match nav with
  | HasVibrate accepts =>
      if accepts pattern then pattern :: handed else handed
  | NoNavigator | NoVibrate => handed
  end.

(** An oscillator as [tone] sets it up (lines 67-77): its frequency, when it
    starts and stops, and the two ramps of its gain (to 0.12, then to
    0.0001). *)
Record oscillator : Type := mkOscillator {
  frequency : Q;
  start_at : Q;
  stop_at : Q;
  peak_at : Q;
  fade_at : Q
}.

(** An [AudioContext] as the class uses it: whether it is suspended, the
    value of the master gain, and the oscillators started, latest first. *)
Record context : Type := mkContext {
  suspended : bool;
  master_gain : Q;
  oscillators : list oscillator
}.

(** The fields of [Sound], and the number of contexts constructed so far. *)
Record sound : Type := mkSound {
  ctx : option context;
  unlocked : bool;
  constructed : nat
}.

(** [const sound = new Sound()] *)
Definition fresh : sound := mkSound None false 0.

(** The page: whether [window.AudioContext || window.webkitAudioContext] is
    there, and whether a context it constructs starts suspended. *)
Record window : Type := mkWindow {
  has_audio : bool;
  starts_suspended : bool
}.

(** [ensure()] (lines 42-53). *)
Definition ensure (w : window) (s : sound) : sound :=
  match ctx s with
  | Some _ => s
  | None =>
      if has_audio w
      then mkSound (Some (mkContext (starts_suspended w) (1 # 10) []))
                   (unlocked s) (S (constructed s))
      else s
  end.

(** [unlock()] (lines 55-62); [resumed] says whether [ctx.resume()] went
    through, its exception being swallowed. *)
Definition unlock (w : window) (resumed : bool) (s : sound) : sound :=
  let s := ensure w s in
  match ctx s with
  | None => s
  | Some c =>
      let c' := if suspended c && resumed
                then mkContext false (master_gain c) (oscillators c)
                else c in
      mkSound (Some c') true (constructed s)
  end.

(** [tone(freq, dur)] (lines 64-78) when [ctx.currentTime] reads [now]. *)
Definition tone (w : window) (freq dur now : Q) (s : sound) : sound :=
  let s := ensure w s in
  match ctx s with
  | None => s
  | Some c =>
      let o := mkOscillator freq now (now + dur + (2 # 100))
                            (now + (1 # 100)) (now + dur) in
      mkSound (Some (mkContext (suspended c) (master_gain c)
                               (o :: oscillators c)))
              (unlocked s) (constructed s)
  end.

(** The device and the sound object together. *)
Record devices : Type := mkDevices {
  handed : list (list Z);
  audio : sound
}.

(** A request of a game carried out: [sound.tone] or [vibrate]. *)
Definition perform (w : window) (nav : navigator) (now : Q)
           (r : Feedback.request) (d : devices) : devices :=
  match r with
  | Feedback.Tone f dur => mkDevices (handed d) (tone w f dur now (audio d))
  | Feedback.Vibrate p => mkDevices (vibrate nav p (handed d)) (audio d)
  end.

(** The requests of a log carried out in the order they were made (a log
    holds the latest first); [clock] gives [ctx.currentTime] at a request's
    time. *)
Definition replay (w : window) (nav : navigator) (clock : Q -> Q)
           (l : Feedback.log) (d : devices) : devices :=
  fold_right (fun e acc => perform w nav (clock (fst e)) (snd e) acc) d l.

End Backends.

(* ------------------------------------------------------------------------- *)
(** * Saving (App.tsx lines 667, 683) on a model of [localStorage] *)

Module Storage.

Import Persist.

(** [localStorage]: the items it holds, and whether reading and writing go
    through or throw (storage disabled, quota exceeded). *)
Record localStorage : Type := mkStorage {
  items : list (string * string);
  readable : bool;
  writable : bool
}.

Fixpoint lookup (k : string) (l : list (string * string)) : option string :=
  match l with
  | [] => None
  | (k', v) :: rest => if String.eqb k' k then Some v else lookup k rest
  end.

Definition remove (k : string) (l : list (string * string))
  : list (string * string) :=
  filter (fun kv => negb (String.eqb (fst kv) k)) l.

(** [localStorage.getItem(k)] *)
Definition getItem (k : string) (ls : localStorage) : outcome (option string) :=
  if readable ls then Returns (lookup k (items ls)) else Throws.

(** [localStorage.setItem(k, v)] *)
Definition setItem (k v : string) (ls : localStorage) : outcome localStorage :=
  if writable ls
  then Returns (mkStorage ((k, v) :: remove k (items ls)) (readable ls)
                          (writable ls))
  else Throws.

(** [const LS_KEY = "warm-pulse-arcade"] *)
Definition LS_KEY : string := "warm-pulse-arcade".

Section Codec.

(** [JSON.stringify] and [JSON.parse]. *)
Variable JSON_stringify : json -> string.
Variable JSON_parse : string -> outcome json.

(** [saveState] (line 683): the storage afterwards; an exception of
    [setItem] is swallowed. *)
Definition saveState (s : Store.SaveState) (ls : localStorage) : localStorage :=
  match setItem LS_KEY (JSON_stringify (json_of_state s)) ls with
  | Returns ls' => ls'
  | Throws => ls
  end.

(** [loadState] (lines 675-681) on this storage. *)
Definition loadState (ls : localStorage) : outcome json :=
  Persist.loadState (mkBrowser (getItem LS_KEY ls) JSON_parse).

End Codec.

End Storage.

(* ------------------------------------------------------------------------- *)
(** * A concrete codec

    [JSON.stringify] and [JSON.parse] are parameters of the model.  Where a
    concrete pair is needed to run it, this printer writes the values the
    program saves (whole numbers, keys and texts without quotes) the way
    [JSON.stringify] does, and [reads_back] parses the one text it is given. *)

Module Codec.

Import Persist.

Definition show_Z (z : Z) : string := NilZero.string_of_int (Z.to_int z).

Definition quoted (s : string) : string :=
  String (ascii_of_nat 34) (s ++ String (ascii_of_nat 34) EmptyString).

Fixpoint show (v : json) : string :=
  match v with
  | JNull => "null"
  | JBool true => "true"
  | JBool false => "false"
  | JNum q => show_Z (Qnum q)
  | JStr s => quoted s
  | JArr l =>
      "[" ++ (fix items (l : list json) : string :=
                match l with
                | [] => EmptyString
                | [x] => show x
                | x :: rest => show x ++ "," ++ items rest
                end) l ++ "]"
  | JObj fields =>
      "{" ++ (fix members (l : list (string * json)) : string :=
                match l with
                | [] => EmptyString
                | [(k, x)] => quoted k ++ ":" ++ show x
                | (k, x) :: rest => quoted k ++ ":" ++ show x ++ "," ++ members rest
                end) fields ++ "}"
  end%string.

Definition reads_back (txt : string) (v : json) (t : string) : outcome json :=
  if String.eqb t txt then Returns v else Throws.

End Codec.

(* ------------------------------------------------------------------------- *)
(** * The application shell (App.tsx lines 688-804): views, shop, saving *)

Module AppShell.

Import Store.

Section Shell.

Variable JSON_stringify : Persist.json -> string.

(** The cells of [App] and the storage it writes to. *)
Record app : Type := mkApp {
  saved : SaveState;                 (* [state] *)
  palette : Palettes.palette;        (* [palette] *)
  view : View;                       (* [view] *)
  storage : Storage.localStorage
}.

(** [saveState], once for each state in turn. *)
Definition save_each (states : list SaveState) (ls : Storage.localStorage)
  : Storage.localStorage :=
  fold_left (fun acc s => Storage.saveState JSON_stringify s acc) states ls.

(** [{ ...s, palette: k }] *)
Definition with_palette (k : string) (s : SaveState) : SaveState :=
  mkSave (tokens s) k (best s).

(** The first render and its effects, for the state [loaded] that
    [loadState] gave.  The palette effect (line 694) copies the key of the
    resolved palette into the state and saves it; the state effect (line 695)
    saves the state of the first render, then, on the render the palette
    effect caused, the new one. *)
Definition mount (loaded : SaveState) (ls : Storage.localStorage) : app :=
  let p := Palettes.resolve (Store.palette loaded) in
  let s := with_palette (Palettes.key p) loaded in
  mkApp s p menu (save_each [s; loaded; s] ls).

(** What the user can do. *)
Inductive action : Type :=
| ClickCard (k : GameKey)      (* a game's card on the menu *)
| OpenShop                     (* the menu's Open Shop button *)
| OpenAbout                    (* the menu's About button *)
| Back                         (* the top bar's Back button *)
| ExitSave (score : Z)         (* a game's Exit & Save button *)
| Buy (n : nat)                (* the Buy button of the shop's n-th theme *)
| Select (k : string).         (* the top bar's palette select *)

(** The Buy button's [disabled] (line 781). *)
Definition buy_disabled (p : Palettes.palette) (a : app) : bool :=
  String.eqb (Palettes.key (palette a)) (Palettes.key p)
  || (tokens (saved a) <? 20)%Z.

(** [setPalette(p)] once the other updates of the handler gave the state
    [s]: when the key changes, the palette effect writes it into the state
    and saves; the state effect saves what it saw and then the result. *)
Definition set_palette (p : Palettes.palette) (changed : bool)
           (s : SaveState) (a : app) : app :=
  if String.eqb (Palettes.key (palette a)) (Palettes.key p)
  then mkApp s (palette a) (view a)
             (if changed then save_each [s] (storage a) else storage a)
  else
    let s' := with_palette (Palettes.key p) s in
    mkApp s' p (view a)
          (save_each (if changed then [s'; s; s'] else [s'; s'])
                     (storage a)).

Definition perform (a : app) (act : action) : app :=
  match act, view a with
  | ClickCard k, menu => mkApp (saved a) (palette a) (game k) (storage a)
  | OpenShop, menu => mkApp (saved a) (palette a) store (storage a)
  | OpenAbout, menu => mkApp (saved a) (palette a) about (storage a)
  | Back, (game _ | store | about) =>
      mkApp (saved a) (palette a) menu (storage a)
  | ExitSave score, game k =>
      let r := run_calls (GameFrame.exit_click k score)
                         (Store.mkApp (saved a) (game k)) in
      mkApp (state r) (palette a) (Store.view r)
            (save_each [state r] (storage a))
  | Buy n, store =>
      match nth_error Palettes.PALETTES n with
      | Some p =>
          if buy_disabled p a then a
          else set_palette p true (spend 20 (saved a)) a
      | None => a
      end
  | Select k, _ => set_palette (Palettes.resolve k) false (saved a) a
  | _, _ => a
  end.

Definition run (loaded : SaveState) (ls : Storage.localStorage)
           (acts : list action) : app :=
  fold_left perform acts (mount loaded ls).

End Shell.

End AppShell.

(* ------------------------------------------------------------------------- *)
(** * The cue of a TensionLine release (App.tsx lines 325-330)

    The session of TensionLine above keeps what [onUp] computes; the calls on
    the two backends that go with it are given here, the latest first as in
    [Feedback.log]. *)

Module Cues.

Definition tension_onUp (l tgt : Q) : list Feedback.request :=
  let err := JS.Math_abs (l - tgt) in
  if Qlt_le_dec err (4 # 100)
  then [Feedback.Vibrate [10; 10; 10]%Z; Feedback.blip true]
  else [Feedback.blip false].

End Cues.

(* ------------------------------------------------------------------------- *)
(** * Notions and sample sessions the properties are stated with *)

(** Settling a run of scores for the game [k], one [recordBest] each. *)
Definition settle_all (k : Store.GameKey) (scores : list Z)
           (s : Store.SaveState) : Store.SaveState :=
  fold_left (fun st g => Store.recordBest k g st) scores s.

(** The divisor of each game's token award, as the exit buttons have it:
    5 for PulseLink and HeatBloom, 8 for Ascend Light, 6 for the others. *)
Definition exit_divisor (g : Store.GameKey) : Z :=
  match g with
  | Store.pulse | Store.heat => 5
  | Store.ascend => 8
  | Store.tension | Store.echo | Store.pressure | Store.heart => 6
  end.

(** The tempo of Heartbeat is 0 (before calibration) or lies in [50, 150]. *)
Definition bpm_ok (b : JS.num) : Prop :=
  exists q, b = JS.Fin q /\ (q == 0 \/ 50 <= q <= 150).

(** What every step of a Heartbeat session keeps. *)
Definition heart_inv (s : Heartbeat.session) : Prop :=
  (exists n, Heartbeat.score s = Some n /\ (0 <= n)%Z) /\
  bpm_ok (Heartbeat.bpm s).

(** What PulseLink keeps: while mounted, at most one timer is pending and
    the effect's [id] names it; once unmounted, none is. *)
Definition pulse_timers_inv (s : PulseLink.session) : Prop :=
  if PulseLink.mounted s
  then Timers.pending (PulseLink.timers s) = [] \/
       exists tm, Timers.pending (PulseLink.timers s) = [tm] /\
                  PulseLink.id s = Some (Timers.tid tm)
  else Timers.pending (PulseLink.timers s) = [].

(** A balance of 5 tokens. *)
Definition five_tokens : Store.SaveState :=
  Store.mkSave 5 Store.default_palette (Store.mkBest 0 0 0 0 0 0 0).

(** A store holding text that [JSON.parse] rejects. *)
Definition corrupt_browser : Persist.browser :=
  Persist.mkBrowser (Persist.Returns (Some "{tokens:"%string))
                    (fun _ => Persist.Throws).



(** The mean inter-tap interval as the specification words it: the
    intervals between consecutive taps, added up in their order and
    divided by how many they are. *)
Definition inter_tap_intervals (taps : list Q) : list Q :=
  map (fun p => snd p - fst p) (combine taps (tl taps)).

Definition mean_inter_tap_interval (taps : list Q) : Q :=
  fold_left Qplus (inter_tap_intervals taps) 0
  / inject_Z (Z.of_nat (List.length (inter_tap_intervals taps))).

(** Every tap of a list comes at least [lo] and at most [hi] after the one
    before it. *)
Fixpoint spaced (lo hi : Q) (taps : list Q) : Prop :=
  match taps with
  | a :: (b :: _) as rest => lo <= b - a <= hi /\ spaced lo hi rest
  | _ => True
  end.

(** The first six taps of a Heartbeat session, at the times given. *)
Definition six_taps (t1 t2 t3 t4 t5 t6 : Q) : list Heartbeat.event :=
  map Heartbeat.Tap [t1; t2; t3; t4; t5; t6].

(** The first listen phase of an Echo Orb session mounted at time 0: the outer
    timer runs at 300 ms and the inner one 800 ms later. *)
Definition first_listen : EchoOrb.session :=
  EchoOrb.run 0 [EchoOrb.Expire 1 300 0; EchoOrb.Expire 2 1100 0].

(** An Echo Orb session left during its result phase: the round is scored at
    2000 ms and the game is left before the 700 ms delay has passed. *)
Definition echo_left_in_result : EchoOrb.session :=
  EchoOrb.run 0 [EchoOrb.Expire 1 300 0; EchoOrb.Expire 2 1100 0;
                 EchoOrb.Tap 1200; EchoOrb.Tap 2000; EchoOrb.Unmount].

(** A Heartbeat session left right after calibration: the sixth tap, at
    2500 ms, starts the ticker, and the game is left before 2680 ms. *)
Definition heart_left_after_calibration : Heartbeat.session :=
  Heartbeat.run 0 (six_taps 0 500 1000 1500 2000 2500 ++ [Heartbeat.Unmount]).


(** What every action of the shell keeps: the saved palette is the key of
    the palette in use, which is one of the five. *)
Definition palette_synced (a : AppShell.app) : Prop :=
  Store.palette (AppShell.saved a) = Palettes.key (AppShell.palette a) /\
  In (AppShell.palette a) Palettes.PALETTES.

(** The storage holds the saved state of the shell, as [stringify] writes it. *)
Definition storage_current (stringify : Persist.json -> string)
           (a : AppShell.app) : Prop :=
  Storage.writable (AppShell.storage a) = true /\
  Storage.lookup Storage.LS_KEY (Storage.items (AppShell.storage a))
  = Some (stringify (Persist.json_of_state (AppShell.saved a))).

(** A storage that takes writes and holds nothing yet, and one that refuses
    them. *)
Definition empty_storage : Storage.localStorage :=
  Storage.mkStorage [] true true.

Definition full_storage : Storage.localStorage :=
  Storage.mkStorage [] true false.

(** The oscillator [tone(freq, dur)] starts at time [now], the oscillators a
    log asks for, the patterns it asks the device to play, and the
    oscillators a sound object holds. *)
Definition osc_of (now freq dur : Q) : Backends.oscillator :=
  Backends.mkOscillator freq now (now + dur + (2 # 100)) (now + (1 # 100))
                        (now + dur).

Definition expected_oscillators (clock : Q -> Q) (l : Feedback.log)
  : list Backends.oscillator :=
  flat_map (fun e => match snd e with
                     | Feedback.Tone f d => [osc_of (clock (fst e)) f d]
                     | Feedback.Vibrate _ => []
                     end) l.

Definition patterns (l : Feedback.log) : list (list Z) :=
  flat_map (fun e => match snd e with
                     | Feedback.Tone _ _ => []
                     | Feedback.Vibrate p => [p]
                     end) l.

Definition audio_oscillators (s : Backends.sound) : list Backends.oscillator :=
  match Backends.ctx s with
  | Some c => Backends.oscillators c
  | None => []
  end.

(** The metronome of a mounted PulseLink session: one pending [tick], named
    by the effect's [id] and due one interval after the last beat. *)
Definition metronome_runs (s : PulseLink.session) : Prop :=
  PulseLink.mounted s = true ->
  exists i,
    PulseLink.id s = Some i /\
    Timers.pending (PulseLink.timers s)
    = [Timers.mkTimer i (PulseLink.beatAt s + PulseLink.interval s)
                      PulseLink.Tick].

(** What every event of PressureCraft keeps of the moving zone: its two
    edges are in order and within the bar, and its direction is 1 or -1. *)
Definition pressure_zone_inv (s : PressureCraft.session) : Prop :=
  0 <= PressureCraft.zone_a s /\
  PressureCraft.zone_a s <= PressureCraft.zone_b s /\
  PressureCraft.zone_b s <= 1 /\
  (PressureCraft.zone_dir s == 1 \/ PressureCraft.zone_dir s == -1).

(** The level of PressureCraft starts at 1, and every level above it came
    with 12 points. *)
Definition pressure_level_inv (s : PressureCraft.session) : Prop :=
  (1 <= PressureCraft.level s)%Z /\
  (0 <= PressureCraft.score s <= 12 * (PressureCraft.level s - 1))%Z.

(** A draw of [Math.random()]. *)
Definition is_draw (r : Q) : Prop := 0 <= r /\ r < 1.

(** The draws of the events of HeatBloom, TensionLine and Echo Orb. *)
Definition heat_draws_ok (e : HeatBloom.event) : Prop :=
  match e with
  | HeatBloom.Frame _ r =>
      is_draw (HeatBloom.bloom_min r) /\ is_draw (HeatBloom.bloom_max r) /\
      is_draw (HeatBloom.crack_min r) /\ is_draw (HeatBloom.crack_max r)
  | _ => True
  end.

Definition tension_draws_ok (e : TensionLine.event) : Prop :=
  match e with
  | TensionLine.Up r => is_draw r
  | _ => True
  end.


(** The band of HeatBloom: its lower edge in [0.3, 0.55], its upper edge in
    [0.6, 0.85]; and the heat below the threshold of a crack. *)
Definition heat_band_inv (s : HeatBloom.session) : Prop :=
  (3 # 10 <= HeatBloom.target_min s /\ HeatBloom.target_min s <= 55 # 100) /\
  (6 # 10 <= HeatBloom.target_max s /\ HeatBloom.target_max s <= 85 # 100) /\
  (0 <= HeatBloom.heat s /\ HeatBloom.heat s < 995 # 1000).

(** A rational distance for sample sessions of Ascend Light, whose theorems
    hold for every [Math_hypot]: it agrees with [Math.hypot] on the axes. *)
Definition axis_distance (dx dy : Q) : Q := Qabs dx + Qabs dy.

(** An Ascend Light session that crashed: after 100 s without a frame the
    light is far below the ground. *)
Definition ascend_crashed : AscendLight.session :=
  AscendLight.run axis_distance 0 400 700 (fun _ => 0)
                  [AscendLight.Frame 100000 (fun _ => 0)].

(** Every pending timer of a Heartbeat session that would run [tick] is the
    one the effect's [id] names, and the effect returned its cleanup. *)
Definition heart_ticker_inv (s : Heartbeat.session) : Prop :=
  forall tm, In tm (Timers.pending (Heartbeat.timers s)) ->
    (exists iv, Timers.callback tm = Heartbeat.Tick iv) ->
    Heartbeat.id s = Some (Timers.tid tm) /\ Heartbeat.cleanup s = true.

(** No pending timer of a Heartbeat session would run [tick]: whatever is
    pending only turns the pulse off. *)
Definition heart_no_ticker (s : Heartbeat.session) : Prop :=
  forall tm, In tm (Timers.pending (Heartbeat.timers s)) ->
    Timers.callback tm = Heartbeat.PulseOff.

(* ========================================================================= *)
(** * Properties *)

(** The arithmetic is reasoned about through lemmas, never by unfolding. *)
Arguments JS.clamp : simpl never.
Arguments JS.rand : simpl never.
Arguments JS.Math_round : simpl never.
Arguments JS.Math_floor : simpl never.
Arguments JS.Math_min : simpl never.
Arguments JS.Math_max : simpl never.
Arguments JS.Math_abs : simpl never.
Arguments JS.fmod : simpl never.
Arguments JS.div : simpl never.
Arguments Scoring.accuracyFromError : simpl never.
Arguments Scoring.pointsFromAccuracy : simpl never.
Arguments PulseLink.tap_gain : simpl never.
Arguments PulseLink.interval : simpl never.
Arguments TensionLine.release_points : simpl never.
Arguments EchoOrb.round_points : simpl never.
Arguments Heartbeat.sync_points : simpl never.
Arguments Heartbeat.candidate : simpl never.
Arguments Heartbeat.beat_interval : simpl never.
Arguments HeatBloom.heat_step : simpl never.
Arguments HeatBloom.frame_dt : simpl never.
Arguments PressureCraft.fill_step : simpl never.
Arguments PressureCraft.frame_dt : simpl never.
Arguments TensionLine.frame_dt : simpl never.
Arguments AscendLight.frame_dt : simpl never.
Arguments Qplus : simpl never.
Arguments Qmult : simpl never.
Arguments Qminus : simpl never.
Arguments Qdiv : simpl never.
Arguments Qle_bool : simpl never.
Arguments Qeq_bool : simpl never.

(* ------------------------------------------------------------------------- *)
(** ** Arithmetic of the utilities *)

(** Splits on the comparison a [Math.max], [Math.min] or guard makes. *)
Ltac case_dec :=
  match goal with
  | |- context [Qlt_le_dec ?x ?y] =>
      lazymatch x with
      | context [Qlt_le_dec _ _] => fail
      | _ =>
          lazymatch y with
          | context [Qlt_le_dec _ _] => fail
          | _ => destruct (Qlt_le_dec x y)
          end
      end
  end.

Section Utilities.

Import JS.

Lemma Math_max_lub (a b : Q) : a <= Math_max a b /\ b <= Math_max a b.
Proof. unfold Math_max; case_dec; lra. Qed.

Lemma Math_min_glb (a b : Q) : Math_min a b <= a /\ Math_min a b <= b.
Proof. unfold Math_min; case_dec; lra. Qed.

Lemma clamp_range (v a b : Q) : a <= b -> a <= clamp v a b <= b.
Proof.
  intros Hab; unfold clamp, Math_max, Math_min.
  repeat case_dec; lra.
Qed.

Lemma clamp_monotone (v w a b : Q) : v <= w -> clamp v a b <= clamp w a b.
Proof.
  intros Hvw; unfold clamp, Math_max, Math_min.
  repeat case_dec; lra.
Qed.

Lemma clamp_low (v a b : Q) : a <= b -> v <= a -> clamp v a b == a.
Proof.
  intros Hab Hv; unfold clamp, Math_max, Math_min.
  repeat case_dec; lra.
Qed.

Lemma clamp_high (v a b : Q) : a <= b -> b <= v -> clamp v a b == b.
Proof.
  intros Hab Hv; unfold clamp, Math_max, Math_min.
  repeat case_dec; lra.
Qed.

Lemma Math_round_nonneg (x : Q) : 0 <= x -> (0 <= Math_round x)%Z.
Proof.
  intros Hx; unfold Math_round.
  change 0%Z with (Qfloor 0); apply Qfloor_resp_le; lra.
Qed.

Lemma Math_round_le (x : Q) (n : Z) : x <= inject_Z n -> (Math_round x <= n)%Z.
Proof.
  intros Hx; unfold Math_round.
  assert (H : (Qfloor (x + (1 # 2)) < n + 1)%Z).
  { rewrite Zlt_Qlt. eapply Qle_lt_trans; [apply Qfloor_le|].
    rewrite inject_Z_plus. change (inject_Z 1) with 1. lra. }
  lia.
Qed.

Lemma div_nonneg (x y : Q) : 0 <= x -> 0 < y -> 0 <= x / y.
Proof. intros Hx Hy; apply Qle_shift_div_l; lra. Qed.

Lemma div_monotone (x x' y : Q) : 0 < y -> x <= x' -> x / y <= x' / y.
Proof.
  intros Hy Hx; unfold Qdiv; apply Qmult_le_compat_r; [exact Hx|].
  apply Qlt_le_weak, Qinv_lt_0_compat, Hy.
Qed.

Lemma div_ge_1 (x y : Q) : 0 < y -> y <= x -> 1 <= x / y.
Proof. intros Hy Hx; apply Qle_shift_div_l; lra. Qed.

End Utilities.

(* ------------------------------------------------------------------------- *)
(** ** The store *)

Section StoreFacts.

Import Store.

Lemma GameKey_eq_dec (k k' : GameKey) : {k = k'} + {k <> k'}.
Proof. decide equality. Defined.

Lemma get_set_best (b : Best) (k : GameKey) (v : Z) :
  get_best (set_best b k v) k = v.
Proof. destruct k; reflexivity. Qed.

Lemma get_set_best_other (b : Best) (k k' : GameKey) (v : Z) :
  k <> k' -> get_best (set_best b k v) k' = get_best b k'.
Proof. destruct k, k'; intros H; try reflexivity; contradiction. Qed.

Lemma set_get_best (b : Best) (k : GameKey) : set_best b k (get_best b k) = b.
Proof. destruct b, k; reflexivity. Qed.

Lemma recordBest_best (k : GameKey) (g : Z) (s : SaveState) :
  get_best (best (recordBest k g s)) k = Z.max (get_best (best s) k) g.
Proof. unfold recordBest; simpl; apply get_set_best. Qed.

Lemma recordBest_unchanged (k : GameKey) (g : Z) (s : SaveState) :
  (g <= get_best (best s) k)%Z -> recordBest k g s = s.
Proof.
  intros H; unfold recordBest.
  rewrite Z.max_l by exact H. rewrite set_get_best. destruct s; reflexivity.
Qed.

End StoreFacts.

Section StoreProperties.

Import Store.

(** C1, as stated, fails: with 5 tokens the balance is insufficient for
    [spend(20)], yet the spend is not refused; the state changes, the tokens
    dropping to 0. *)
Lemma spend_insufficient_not_refused :
  (tokens five_tokens < 20)%Z /\
  spend 20 five_tokens <> five_tokens /\
  tokens (spend 20 five_tokens) = 0%Z.
Proof.
  split; [reflexivity|]. split; [|reflexivity].
  intros H. apply (f_equal tokens) in H. discriminate H.
Qed.

(** C1 (amended): for every balance and every amount [n], [spend(n)] leaves
    [tokens >= 0] and touches neither the palette nor the best scores; when the
    balance is insufficient ([tokens < n]) the spend is carried out and leaves
    exactly 0 tokens.  Refusing is the Buy button's work: with fewer than 20
    tokens it is disabled and the state stays as it is; and whenever it does
    call [spend(20)] the balance covers it. *)
Theorem spend_floors_at_zero (n : Z) (s : SaveState) :
  (0 <= tokens (spend n s))%Z /\
  palette (spend n s) = palette s /\
  best (spend n s) = best s /\
  ((tokens s < n)%Z -> tokens (spend n s) = 0%Z) /\
  ((n <= tokens s)%Z -> tokens (spend n s) = (tokens s - n)%Z) /\
  (forall p, (tokens s < 20)%Z -> buy_click p s = s) /\
  (forall p, buy_click p s <> s -> (20 <= tokens s)%Z).
Proof.
  unfold spend; simpl. repeat split; try lia.
  - intros p H. unfold buy_click, buy_disabled.
    apply Z.ltb_lt in H. rewrite H, orb_true_r. reflexivity.
  - intros p H. unfold buy_click, buy_disabled in H.
    destruct (tokens s <? 20)%Z eqn:E.
    + rewrite orb_true_r in H. contradiction.
    + apply Z.ltb_ge in E. exact E.
Qed.

Lemma spend_floors_at_zero_witness :
  (tokens five_tokens < 20)%Z /\
  tokens (spend 20 five_tokens) = 0%Z /\
  buy_click "reef" five_tokens = five_tokens.
Proof.
  destruct (spend_floors_at_zero 20 five_tokens)
    as (_ & _ & _ & Hzero & _ & Hbuy & _).
  split; [reflexivity|]. split.
  - apply Hzero. reflexivity.
  - apply Hbuy. reflexivity.
Defined.

Lemma settle_all_unchanged (k : GameKey) (scores : list Z) (s : SaveState) :
  Forall (fun g => (g <= get_best (best s) k)%Z) scores ->
  settle_all k scores s = s.
Proof.
  induction scores as [|g gs IH]; intros H; [reflexivity|].
  inversion H as [|? ? Hg Hgs]; subst. simpl.
  rewrite (recordBest_unchanged k g s Hg). apply IH, Hgs.
Qed.

(** C3: the best-score settlement is a ratchet.  With [b] the stored best of
    the game on view and [g] the reported score: the new best is [max b g], so
    it differs from [b] only if [g > b], and then it is [g]; tokens, palette
    and the other games' bests are untouched; a score [<= b] leaves the whole
    state as it is; settling is idempotent; and after settling [g], any run of
    scores none of which exceeds [g] changes nothing.  [onExit] applies exactly
    this settlement to the game on view. *)
Theorem recordBest_ratchet (k : GameKey) (g : Z) (s : SaveState) :
  let b := get_best (best s) k in
  get_best (best (recordBest k g s)) k = Z.max b g /\
  (get_best (best (recordBest k g s)) k <> b -> (b < g)%Z) /\
  ((b < g)%Z -> get_best (best (recordBest k g s)) k = g) /\
  ((g <= b)%Z -> recordBest k g s = s) /\
  (forall k', k <> k' ->
     get_best (best (recordBest k g s)) k' = get_best (best s) k') /\
  tokens (recordBest k g s) = tokens s /\
  palette (recordBest k g s) = palette s /\
  recordBest k g (recordBest k g s) = recordBest k g s /\
  (forall scores, Forall (fun g' => (g' <= g)%Z) scores ->
     settle_all k scores (recordBest k g s) = recordBest k g s) /\
  onExit g (mkApp s (game k)) = mkApp (recordBest k g s) menu.
Proof.
  intros b. pose proof (recordBest_best k g s) as Hmax. fold b in Hmax.
  repeat split.
  - exact Hmax.
  - rewrite Hmax. lia.
  - intros H. rewrite Hmax. lia.
  - intros H. apply recordBest_unchanged. exact H.
  - intros k' Hk. unfold recordBest; simpl. apply get_set_best_other, Hk.
  - apply recordBest_unchanged. rewrite Hmax. lia.
  - intros scores H. apply settle_all_unchanged.
    rewrite Hmax. eapply Forall_impl; [|exact H]. simpl. intros; lia.
Qed.

Lemma recordBest_ratchet_witness :
  get_best (best (recordBest echo 9 five_tokens)) echo = 9%Z /\
  recordBest echo 4 (recordBest echo 9 five_tokens)
  = recordBest echo 9 five_tokens /\
  settle_all echo [9; 7; 7; 2]%Z (recordBest echo 9 five_tokens)
  = recordBest echo 9 five_tokens.
Proof.
  destruct (recordBest_ratchet echo 9 five_tokens)
    as (_ & _ & Hup & _ & _ & _ & _ & _ & Hrun & _).
  destruct (recordBest_ratchet echo 4 (recordBest echo 9 five_tokens))
    as (_ & _ & _ & Hkeep & _).
  split; [apply Hup; reflexivity|]. split.
  - apply Hkeep. vm_compute. discriminate.
  - apply Hrun. repeat constructor; vm_compute; discriminate.
Defined.

Lemma award_tokens (n : Z) (s : SaveState) :
  tokens (award n s) = (tokens s + Z.max 0 n)%Z /\
  (tokens s <= tokens (award n s))%Z.
Proof. unfold award; simpl. lia. Qed.

(** C10: the Exit button of every game makes exactly two calls, in this order:
    [award] with [floor(score / k)] tokens, [k] being the game's divisor, and
    then [onExit(score)].  [award(n)] adds [max(0, n)] tokens, so it never
    lowers the balance; run against the application on that game's view, the
    two calls add the award, settle the best score and return to the menu. *)
Theorem exit_awards_then_exits (g : GameKey) (score : Z) (s : SaveState) :
  GameFrame.exit_click g score
  = [CallAward (score / exit_divisor g); CallOnExit score] /\
  (forall n, tokens (award n s) = (tokens s + Z.max 0 n)%Z) /\
  (forall n, (tokens s <= tokens (award n s))%Z) /\
  run_calls (GameFrame.exit_click g score) (mkApp s (game g))
  = mkApp (recordBest g score (award (score / exit_divisor g) s)) menu.
Proof.
  assert (Hclick : GameFrame.exit_click g score
                   = [CallAward (score / exit_divisor g); CallOnExit score]).
  { destruct g; unfold GameFrame.exit_click, PulseLink.exit_click,
      HeatBloom.exit_click, TensionLine.exit_click, EchoOrb.exit_click,
      PressureCraft.exit_click, AscendLight.exit_click, Heartbeat.exit_click,
      JS.Math_floor, exit_divisor;
      rewrite Zdiv_Qdiv; reflexivity. }
  split; [exact Hclick|]. split; [intros n; apply award_tokens|].
  split; [intros n; apply award_tokens|].
  rewrite Hclick. reflexivity.
Qed.

End StoreProperties.

(* ------------------------------------------------------------------------- *)
(** ** The accuracy primitive *)

Section ScoringProperties.

Import JS Scoring.

Lemma accuracy_range (err tol : Q) : 0 <= accuracyFromError err tol <= 1.
Proof.
  unfold accuracyFromError.
  pose proof (clamp_range (err / tol) 0 1 ltac:(lra)). lra.
Qed.

Lemma points_range (acc : Q) (m : Z) :
  0 <= acc <= 1 -> (0 <= m)%Z ->
  (0 <= pointsFromAccuracy acc (inject_Z m) <= m)%Z.
Proof.
  intros [Hlo Hhi] Hm. unfold pointsFromAccuracy.
  assert (Hq : 0 <= inject_Z m) by (change 0 with (inject_Z 0); now rewrite <- Zle_Qle).
  split.
  - apply Math_round_nonneg. apply Qmult_le_0_compat; assumption.
  - apply Math_round_le.
    setoid_replace (inject_Z m) with (1 * inject_Z m) at 2 by ring.
    apply Qmult_le_compat_r; assumption.
Qed.

(** C5: for every [err >= 0] and [tolerance > 0], the accuracy
    [1 - clamp(err / tolerance, 0, 1)] lies in [0, 1], does not increase when
    the error grows, is 1 at error 0 and is 0 from [err >= tolerance] on. *)
Theorem accuracyFromError_properties (err tolerance : Q) :
  0 <= err -> 0 < tolerance ->
  accuracyFromError err tolerance == 1 - clamp (err / tolerance) 0 1 /\
  0 <= accuracyFromError err tolerance <= 1 /\
  (forall err', err <= err' ->
     accuracyFromError err' tolerance <= accuracyFromError err tolerance) /\
  accuracyFromError 0 tolerance == 1 /\
  (tolerance <= err -> accuracyFromError err tolerance == 0).
Proof.
  intros Herr Htol. split; [reflexivity|]. split; [apply accuracy_range|].
  unfold accuracyFromError. split; [|split].
  - intros err' Hle.
    pose proof (clamp_monotone (err / tolerance) (err' / tolerance) 0 1
                  (div_monotone err err' tolerance Htol Hle)). lra.
  - rewrite (clamp_low (0 / tolerance) 0 1); [ring|lra|].
    unfold Qdiv. rewrite Qmult_0_l. lra.
  - intros Hge.
    rewrite (clamp_high (err / tolerance) 0 1);
      [ring|lra|apply div_ge_1; assumption].
Qed.

Lemma accuracyFromError_properties_witness :
  accuracyFromError 200 800 == 3 # 4 /\
  accuracyFromError 900 800 == 0 /\
  accuracyFromError 300 800 <= accuracyFromError 200 800.
Proof.
  destruct (accuracyFromError_properties 200 800 ltac:(lra) ltac:(lra))
    as (_ & _ & Hmono & _ & _).
  destruct (accuracyFromError_properties 900 800 ltac:(lra) ltac:(lra))
    as (_ & _ & _ & _ & Hzero).
  split; [reflexivity|]. split.
  - apply Hzero. lra.
  - apply Hmono. lra.
Defined.

(** The scoring of three concrete taps: Echo Orb with an interval of 800 ms
    and two taps 800 ms apart; TensionLine released on the target; PulseLink
    at 60 beats a minute tapped three whole beats after the last one. *)
Example echo_exact_round : EchoOrb.round_points 1200 2000 800 = 12%Z.
Proof. reflexivity. Qed.

Example tension_exact_release :
  TensionLine.release_points (1 # 2) (1 # 2) = 12%Z.
Proof. reflexivity. Qed.

Example pulse_tap_on_the_beat :
  PulseLink.tap_gain 4000
    (PulseLink.mkSession 0 1000 60 None Timers.empty [] true) = 10%Z.
Proof. reflexivity. Qed.

End ScoringProperties.

(* ------------------------------------------------------------------------- *)
(** ** Loading the saved state *)

Section PersistProperties.

Import Store Persist.

(** C6: whatever the browser does (reading throws, nothing is stored, the
    stored text is empty, corrupt or well-formed), [loadState] returns a value
    and does not throw; and when the data is missing or unparsable the value
    is exactly the default record: no tokens, the first palette ("aurora"),
    and a best score of 0 for each of the seven games. *)
Theorem loadState_never_throws (w : browser) :
  (exists v, loadState w = Returns v) /\
  (missing_or_unparsable w ->
     loadState w = Returns (json_of_state default_state)) /\
  default_state = mkSave 0 "aurora" (mkBest 0 0 0 0 0 0 0) /\
  (forall k, get_best (best default_state) k = 0%Z).
Proof.
  split; [|split; [|split]].
  - unfold loadState. destruct (try_catch _); eauto.
  - unfold missing_or_unparsable, loadState.
    destruct (getItem w) as [[s|]|]; simpl; try reflexivity.
    intros [Hs | Hs].
    + subst s. reflexivity.
    + rewrite Hs. destruct (negb _); reflexivity.
  - reflexivity.
  - intros k; destruct k; reflexivity.
Qed.

Lemma loadState_never_throws_witness :
  missing_or_unparsable corrupt_browser /\
  loadState corrupt_browser = Returns (json_of_state default_state).
Proof.
  assert (H : missing_or_unparsable corrupt_browser) by (right; reflexivity).
  split; [exact H|].
  destruct (loadState_never_throws corrupt_browser) as (_ & Hdef & _).
  exact (Hdef H).
Defined.

End PersistProperties.

(* ------------------------------------------------------------------------- *)
(** ** Frame time and the clamped quantities *)

Section FrameProperties.

Import JS.


Lemma heat_step_range (hold : bool) (dt h : Q) :
  0 <= HeatBloom.heat_step hold dt h <= 1.
Proof. unfold HeatBloom.heat_step. apply clamp_range. lra. Qed.





End FrameProperties.

(* ------------------------------------------------------------------------- *)
(** ** The score of a session *)

Section ScoreProperties.

Import JS Scoring.

(** A property kept by every step holds after every run of events. *)
Lemma fold_left_invariant {S E : Type} (step : S -> E -> S) (P : S -> Prop) :
  (forall s e, P s -> P (step s e)) ->
  forall evs s, P s -> P (fold_left step evs s).
Proof.
  intros Hstep evs; induction evs as [|e evs IH]; intros s Hs; cbn.
  - exact Hs.
  - apply IH, Hstep, Hs.
Qed.

(** *** PulseLink *)

Lemma pulse_tap_gain_range (t : Q) (s : PulseLink.session) :
  (0 <= PulseLink.tap_gain t s <= 10)%Z.
Proof.
  unfold PulseLink.tap_gain.
  apply (points_range _ 10); [apply accuracy_range|lia].
Qed.

Lemma pulse_tick_score (t : Q) (s : PulseLink.session) :
  PulseLink.score (PulseLink.tick t s) = PulseLink.score s.
Proof.
  unfold PulseLink.tick, PulseLink.set_beatAt.
  destruct (PulseLink.mounted s); reflexivity.
Qed.

Lemma pulse_onTap_score (t : Q) (s : PulseLink.session) :
  PulseLink.mounted s = true ->
  (PulseLink.score s <= PulseLink.score (PulseLink.onTap t s)
   <= PulseLink.score s + 10)%Z.
Proof.
  intros Hm. unfold PulseLink.onTap.
  pose proof (pulse_tap_gain_range t
                (PulseLink.emit t (Feedback.blip true) s)) as Hg.
  generalize dependent (PulseLink.tap_gain t
                          (PulseLink.emit t (Feedback.blip true) s)).
  intros gain Hg. destruct s as [sc ba bp i q o m]. cbn in Hm. subst m.
  destruct (9 <=? gain)%Z; cbn; lia.
Qed.

Lemma pulse_step_score (s : PulseLink.session) (e : PulseLink.event) :
  (PulseLink.score s <= PulseLink.score (PulseLink.step s e)
   <= PulseLink.score s + 10)%Z.
Proof.
  destruct e as [t|i t|]; unfold PulseLink.step.
  - destruct (PulseLink.mounted s) eqn:Hm; [|lia].
    apply pulse_onTap_score, Hm.
  - destruct (Timers.expire i t (PulseLink.timers s)) as [[[] q]|]; [|lia].
    rewrite pulse_tick_score. cbn. lia.
  - destruct (PulseLink.mounted s); cbn; lia.
Qed.

(** *** HeatBloom *)

Lemma heat_step_score (s : HeatBloom.session) (e : HeatBloom.event) :
  let sc := HeatBloom.score s in
  let sc' := HeatBloom.score (HeatBloom.step s e) in
  sc' = sc \/ sc' = (sc + 10)%Z \/
  sc' = Z.max 0 (sc - 3) \/ sc' = Z.max 0 (sc + 10 - 3).
Proof.
  destruct e as [t r| |]; cbn; try (left; reflexivity).
  unfold HeatBloom.frame.
  destruct (Qle_bool (995 # 1000) _); cbn;
    destruct (_ && Qle_bool 1 _); cbn; tauto.
Qed.

(** *** TensionLine *)

Lemma tension_release_points_range (l tgt : Q) :
  (0 <= TensionLine.release_points l tgt <= 12)%Z.
Proof.
  unfold TensionLine.release_points. split; [lia|].
  apply Z.max_lub; [lia|]. apply Math_round_le.
  pose proof (Qabs_nonneg (l - tgt)). unfold Math_abs.
  change (inject_Z 12) with 12. lra.
Qed.

Lemma tension_step_score (s : TensionLine.session) (e : TensionLine.event) :
  (TensionLine.score s <= TensionLine.score (TensionLine.step s e)
   <= TensionLine.score s + 12)%Z.
Proof.
  destruct e as [t| |r]; cbn; try lia.
  pose proof (tension_release_points_range (TensionLine.len s)
                (TensionLine.target s)). lia.
Qed.

(** *** Echo Orb *)

Lemma echo_round_points_range (a b iv : Q) :
  (0 <= EchoOrb.round_points a b iv <= 12)%Z.
Proof.
  unfold EchoOrb.round_points.
  apply (points_range _ 12); [apply accuracy_range|lia].
Qed.

Lemma echo_effect_body_score (t : Q) (s : EchoOrb.session) :
  EchoOrb.score (EchoOrb.effect_body t s) = EchoOrb.score s.
Proof.
  unfold EchoOrb.effect_body, EchoOrb.set_timer; cbn.
  destruct (EchoOrb.phase_eqb _ _); [|reflexivity].
  unfold EchoOrb.schedule_timer, EchoOrb.set_pulse; cbn.
  destruct (EchoOrb.mounted s); reflexivity.
Qed.

Lemma echo_rerender_score (t : Q) (before s : EchoOrb.session) :
  EchoOrb.score (EchoOrb.rerender t before s) = EchoOrb.score s.
Proof.
  unfold EchoOrb.rerender.
  destruct (_ && _); [|reflexivity].
  rewrite echo_effect_body_score. reflexivity.
Qed.

Lemma echo_onTap_score (t : Q) (s : EchoOrb.session) :
  (EchoOrb.score s <= EchoOrb.score (EchoOrb.onTap t s)
   <= EchoOrb.score s + 12)%Z.
Proof.
  destruct s as [ph iv sc pu tp tm q o m].
  unfold EchoOrb.onTap. cbn [EchoOrb.phase EchoOrb.score].
  destruct (negb _); [cbn; lia|].
  unfold EchoOrb.set_taps.
  cbn [EchoOrb.taps EchoOrb.phase EchoOrb.score EchoOrb.intervalMs
       EchoOrb.pulse EchoOrb.timer EchoOrb.timers EchoOrb.out EchoOrb.mounted].
  destruct (tp ++ [t]) as [|a [|b [|c l]]]; try (cbn [EchoOrb.score]; lia).
  pose proof (echo_round_points_range a b iv) as Hp.
  generalize dependent (EchoOrb.round_points a b iv). intros pts Hp.
  destruct m; destruct (8 <? pts)%Z; cbn; lia.
Qed.

Lemma echo_run_cb_score (c : EchoOrb.cb) (t r : Q) (s : EchoOrb.session) :
  EchoOrb.score (EchoOrb.run_cb c t r s) = EchoOrb.score s.
Proof.
  destruct c; unfold EchoOrb.run_cb, EchoOrb.schedule_timer, EchoOrb.set_pulse,
    EchoOrb.set_phase, EchoOrb.set_intervalMs, EchoOrb.set_taps; cbn;
    destruct (EchoOrb.mounted s); reflexivity.
Qed.

Lemma echo_step_score (s : EchoOrb.session) (e : EchoOrb.event) :
  (EchoOrb.score s <= EchoOrb.score (EchoOrb.step s e)
   <= EchoOrb.score s + 12)%Z.
Proof.
  destruct e as [t|i t r|]; cbn.
  - destruct (EchoOrb.mounted s); [|lia].
    rewrite echo_rerender_score. apply echo_onTap_score.
  - destruct (Timers.expire i t (EchoOrb.timers s)) as [[c q]|]; [|lia].
    rewrite echo_rerender_score, echo_run_cb_score. cbn. lia.
  - destruct (EchoOrb.mounted s); cbn; lia.
Qed.

(** *** PressureCraft *)

Lemma pressure_step_score (s : PressureCraft.session)
      (e : PressureCraft.event) :
  let sc := PressureCraft.score s in
  let sc' := PressureCraft.score (PressureCraft.step s e) in
  sc' = sc \/ sc' = (sc + 12)%Z \/ sc' = Z.max 0 (sc - 4).
Proof.
  destruct e as [t|t|t]; cbn.
  - unfold PressureCraft.frame. destruct (_ || _); left; reflexivity.
  - unfold PressureCraft.restart. destruct (_ && _); left; reflexivity.
  - unfold PressureCraft.restart, PressureCraft.release.
    destruct (Qle_bool (PressureCraft.zone_a s) _ && _); cbn;
      destruct (_ && _); cbn; tauto.
Qed.

(** *** Ascend Light *)

Lemma ascend_zones_loop_score (hyp : Q -> Q -> Q) (dt w h py : Q)
      (live : bool) (draw : nat -> Q) (zs : list AscendLight.zone) :
  forall (i : nat) (v : Q) (sc : Z),
    (sc <= snd (AscendLight.zones_loop hyp dt w h py live draw i zs v sc)
     <= sc + Z.of_nat (List.length zs))%Z.
Proof.
  induction zs as [|z rest IH]; intros i v sc.
  - cbn. lia.
  - cbn [AscendLight.zones_loop List.length].
    destruct (AscendLight.zone_step hyp dt w h py live draw i z v)
      as [[z' v'] pts] eqn:Hz.
    assert (Hpts : (0 <= pts <= 1)%Z).
    { unfold AscendLight.zone_step in Hz.
      injection Hz as _ _ Hp. subst pts.
      destruct (live && _); lia. }
    specialize (IH (S i) v' (sc + pts)%Z).
    destruct (AscendLight.zones_loop hyp dt w h py live draw (S i) rest v'
                (sc + pts)) as [[rest' v''] sc'].
    cbn [snd] in *. lia.
Qed.

Lemma ascend_frame_score (hyp : Q -> Q -> Q) (t : Q) (draw : nat -> Q)
      (s : AscendLight.session) :
  (AscendLight.score s <= AscendLight.score (AscendLight.frame hyp t draw s)
   <= AscendLight.score s + Z.of_nat (List.length (AscendLight.zones s)))%Z.
Proof.
  unfold AscendLight.frame.
  repeat case_dec; cbv beta iota zeta;
    match goal with
    | |- context [AscendLight.zones_loop ?a ?b ?c ?d ?e ?f ?g ?i ?j ?k ?l] =>
        pose proof (ascend_zones_loop_score a b c d e f g j i k l) as H;
        destruct (AscendLight.zones_loop a b c d e f g i j k l)
          as [[zs v4] sc]
    end; cbn [snd AscendLight.score] in *; exact H.
Qed.

Lemma ascend_step_score (hyp : Q -> Q -> Q) (s : AscendLight.session)
      (e : AscendLight.event) :
  (AscendLight.score s <= AscendLight.score (AscendLight.step hyp s e))%Z.
Proof.
  destruct e as [t draw| | |cw ch]; cbn [AscendLight.step];
    try (cbn; lia).
  pose proof (ascend_frame_score hyp t draw s). lia.
Qed.

(** *** Heartbeat *)

Lemma clamp_num_finite (v : JS.num) (a b : Q) :
  a <= b -> v <> JS.NaN ->
  exists q, JS.clamp_num v a b = JS.Fin q /\ a <= q <= b.
Proof.
  intros Hab Hv. unfold JS.clamp_num.
  destruct v as [| |q|]; cbn [JS.Math_min_num JS.Math_max_num].
  - contradiction.
  - exists a. split; [reflexivity|lra].
  - exists (JS.clamp q a b). split; [reflexivity|apply clamp_range, Hab].
  - exists (JS.Math_max a b). split; [reflexivity|].
    unfold JS.Math_max. case_dec; lra.
Qed.

Lemma div_60000_not_NaN (y : Q) : JS.div 60000 y <> JS.NaN.
Proof.
  unfold JS.div. destruct (Qeq_bool y 0); [|discriminate].
  destruct (Qlt_le_dec 0 60000) as [_|H]; [discriminate|].
  exfalso. apply Qle_bool_iff in H. discriminate H.
Qed.

Lemma candidate_range (recorded : list Q) :
  exists q, Heartbeat.candidate recorded = JS.Fin q /\ 50 <= q <= 150.
Proof.
  unfold Heartbeat.candidate.
  apply clamp_num_finite; [lra|apply div_60000_not_NaN].
Qed.

Lemma Qeq_bool_pos (q : Q) : 0 < q -> Qeq_bool q 0 = false.
Proof.
  intros Hq. destruct (Qeq_bool q 0) eqn:E; [|reflexivity].
  apply Qeq_bool_iff in E. lra.
Qed.

Lemma beat_interval_positive (b : JS.num) :
  bpm_ok b -> exists i, Heartbeat.beat_interval b = JS.Fin i /\ 0 < i.
Proof.
  intros (q & -> & Hq). unfold Heartbeat.beat_interval, JS.or_else.
  assert (Hdiv : forall d, 0 < d ->
            exists i, JS.div_num 60000 (JS.Fin d) = JS.Fin i /\ 0 < i).
  { intros d Hd. cbn [JS.div_num]. unfold JS.div.
    rewrite (Qeq_bool_pos d Hd). exists (60000 / d). split; [reflexivity|].
    apply Qlt_shift_div_l; lra. }
  destruct (Qeq_bool q 0) eqn:E.
  - apply Hdiv. lra.
  - apply Hdiv. destruct Hq as [Hq|Hq]; [|lra].
    apply Qeq_bool_iff in Hq. congruence.
Qed.

Lemma sync_points_range (i t : Q) :
  0 < i ->
  exists p, Heartbeat.sync_points (JS.Fin i) t = Some p /\ (0 <= p <= 10)%Z.
Proof.
  intros Hi. unfold Heartbeat.sync_points. rewrite (Qeq_bool_pos i Hi).
  eexists. split; [reflexivity|].
  apply (points_range _ 10); [apply accuracy_range|lia].
Qed.

Lemma heart_tick_frame (t : Q) (iv : JS.num) (s : Heartbeat.session) :
  Heartbeat.score (Heartbeat.tick t iv s) = Heartbeat.score s /\
  Heartbeat.bpm (Heartbeat.tick t iv s) = Heartbeat.bpm s.
Proof.
  destruct s as [ph b tp sc pu i cl q o m].
  unfold Heartbeat.tick, Heartbeat.set_pulse, Heartbeat.schedule_id.
  destruct m; split; reflexivity.
Qed.

Lemma heart_effect_frame (t : Q) (s : Heartbeat.session) :
  Heartbeat.score (Heartbeat.effect_body t (Heartbeat.effect_cleanup s))
  = Heartbeat.score s /\
  Heartbeat.bpm (Heartbeat.effect_body t (Heartbeat.effect_cleanup s))
  = Heartbeat.bpm s.
Proof.
  assert (Hc : Heartbeat.score (Heartbeat.effect_cleanup s) = Heartbeat.score s
               /\ Heartbeat.bpm (Heartbeat.effect_cleanup s) = Heartbeat.bpm s).
  { unfold Heartbeat.effect_cleanup. destruct (Heartbeat.cleanup s);
      split; reflexivity. }
  destruct Hc as [Hs Hb]. rewrite <- Hs, <- Hb.
  generalize (Heartbeat.effect_cleanup s). intros s'.
  unfold Heartbeat.effect_body.
  destruct (Heartbeat.phase_eqb _ _); [|split; reflexivity].
  cbn [Heartbeat.set_cleanup Heartbeat.score Heartbeat.bpm].
  match goal with
  | |- context [Heartbeat.tick ?a ?b ?c] =>
      destruct (heart_tick_frame a b c) as [H1 H2]
  end.
  rewrite H1, H2. destruct s'; split; reflexivity.
Qed.

Lemma heart_rerender_frame (t : Q) (before s : Heartbeat.session) :
  Heartbeat.score (Heartbeat.rerender t before s) = Heartbeat.score s /\
  Heartbeat.bpm (Heartbeat.rerender t before s) = Heartbeat.bpm s.
Proof.
  unfold Heartbeat.rerender. destruct (_ && _); [|split; reflexivity].
  apply heart_effect_frame.
Qed.

Lemma heart_onTap_inv (t : Q) (s : Heartbeat.session) :
  heart_inv s -> heart_inv (Heartbeat.onTap t s).
Proof.
  intros [(n & Hn & Hpos) Hb]. unfold Heartbeat.onTap.
  destruct (Heartbeat.phase s) eqn:Hph.
  - destruct (candidate_range (Heartbeat.taps s ++ [t])) as (c & Hc & Hrange).
    destruct s as [ph b tp sc pu i cl q o m].
    cbn [Heartbeat.phase Heartbeat.score Heartbeat.bpm Heartbeat.taps] in *.
    unfold Heartbeat.set_taps, Heartbeat.emit.
    cbn [Heartbeat.phase Heartbeat.bpm Heartbeat.taps Heartbeat.score
         Heartbeat.pulse Heartbeat.id Heartbeat.cleanup Heartbeat.timers
         Heartbeat.out Heartbeat.mounted].
    destruct (6 <=? _)%nat.
    + rewrite Hc. unfold Heartbeat.set_bpm, Heartbeat.set_phase.
      destruct m; cbn; (split; [exists n; auto|]); try exact Hb.
      exists c. split; [reflexivity|right; exact Hrange].
    + split; [exists n; auto|exact Hb].
  - destruct (beat_interval_positive _ Hb) as (i & Hi & Hipos).
    rewrite Hi. destruct (sync_points_range i t Hipos) as (p & Hp & Hprange).
    rewrite Hp. destruct s as [ph b tp sc pu i0 cl q o m].
    cbn [Heartbeat.score Heartbeat.bpm] in *. subst sc.
    unfold Heartbeat.set_score, Heartbeat.above_8, Heartbeat.add_points.
    destruct m; destruct (8 <? p)%Z; cbn;
      (split; [eexists; split; [reflexivity|lia]|exact Hb]).
Qed.

Lemma heart_step_inv (s : Heartbeat.session) (e : Heartbeat.event) :
  heart_inv s -> heart_inv (Heartbeat.step s e).
Proof.
  intros Hinv. destruct e as [t|i t|]; unfold Heartbeat.step.
  - destruct (Heartbeat.mounted s); [|exact Hinv].
    apply (heart_onTap_inv t) in Hinv. unfold heart_inv in *.
    destruct (heart_rerender_frame t s (Heartbeat.onTap t s)) as [H1 H2].
    rewrite H1, H2. exact Hinv.
  - destruct (Timers.expire i t (Heartbeat.timers s)) as [[c q]|];
      [|exact Hinv].
    unfold heart_inv in *.
    match goal with
    | |- context [Heartbeat.rerender ?a ?b ?c] =>
        destruct (heart_rerender_frame a b c) as [H1 H2]
    end.
    rewrite H1, H2. destruct c as [|iv]; cbn [Heartbeat.run_cb].
    + unfold Heartbeat.set_pulse. destruct s as [ph b tp sc pu i0 cl q0 o m].
      destruct m; exact Hinv.
    + match goal with
      | |- context [Heartbeat.tick ?a ?b ?c] =>
          destruct (heart_tick_frame a b c) as [H3 H4]
      end.
      rewrite H3, H4. exact Hinv.
  - destruct (Heartbeat.mounted s); [|exact Hinv].
    unfold heart_inv, Heartbeat.unmount, Heartbeat.effect_cleanup in *.
    destruct (Heartbeat.cleanup s); exact Hinv.
Qed.

Lemma heart_start_inv (t0 : Q) : heart_inv (Heartbeat.start t0).
Proof.
  split.
  - exists 0%Z. split; [reflexivity|lia].
  - exists 0. split; [reflexivity|left; reflexivity].
Qed.

(** C4: in every game the score is an integer that never goes below 0,
    whatever the mount time, the random draws and the sequence of frames,
    pointer events and timer expirations (every prefix of a run is a run, so
    this covers every observation point).  Step by step: a tap of PulseLink
    adds between 0 and 10, a release of TensionLine and a round of Echo Orb
    between 0 and 12, a frame of Ascend Light at most one point per zone; a
    frame of HeatBloom adds 10 or applies the overheat penalty
    [max(0, score - 3)]; a release of PressureCraft adds 12 or applies the miss
    penalty [max(0, score - 4)]; Heartbeat's score is never NaN. *)
Theorem score_never_negative :
  (forall t0 r evs, (0 <= PulseLink.score (PulseLink.run t0 r evs))%Z) /\
  (forall t0 evs, (0 <= HeatBloom.score (HeatBloom.run t0 evs))%Z) /\
  (forall t0 r0 evs, (0 <= TensionLine.score (TensionLine.run t0 r0 evs))%Z) /\
  (forall t0 evs, (0 <= EchoOrb.score (EchoOrb.run t0 evs))%Z) /\
  (forall t0 evs, (0 <= PressureCraft.score (PressureCraft.run t0 evs))%Z) /\
  (forall hyp t0 cw ch r evs,
     (0 <= AscendLight.score (AscendLight.run hyp t0 cw ch r evs))%Z) /\
  (forall t0 evs, exists n,
     Heartbeat.score (Heartbeat.run t0 evs) = Some n /\ (0 <= n)%Z) /\
  (forall s e,
     (PulseLink.score s <= PulseLink.score (PulseLink.step s e)
      <= PulseLink.score s + 10)%Z) /\
  (forall s e,
     let sc := HeatBloom.score s in
     let sc' := HeatBloom.score (HeatBloom.step s e) in
     sc' = sc \/ sc' = (sc + 10)%Z \/
     sc' = Z.max 0 (sc - 3) \/ sc' = Z.max 0 (sc + 10 - 3)) /\
  (forall s e,
     (TensionLine.score s <= TensionLine.score (TensionLine.step s e)
      <= TensionLine.score s + 12)%Z) /\
  (forall s e,
     (EchoOrb.score s <= EchoOrb.score (EchoOrb.step s e)
      <= EchoOrb.score s + 12)%Z) /\
  (forall s e,
     let sc := PressureCraft.score s in
     let sc' := PressureCraft.score (PressureCraft.step s e) in
     sc' = sc \/ sc' = (sc + 12)%Z \/ sc' = Z.max 0 (sc - 4)) /\
  (forall hyp s e,
     (AscendLight.score s <= AscendLight.score (AscendLight.step hyp s e))%Z).
Proof.
  repeat match goal with |- _ /\ _ => split end.
  - intros t0 r evs. unfold PulseLink.run.
    apply (fold_left_invariant PulseLink.step
             (fun s => (0 <= PulseLink.score s)%Z)).
    + intros s e Hs. pose proof (pulse_step_score s e). lia.
    + unfold PulseLink.start. rewrite pulse_tick_score. cbn. lia.
  - intros t0 evs. unfold HeatBloom.run.
    apply (fold_left_invariant HeatBloom.step
             (fun s => (0 <= HeatBloom.score s)%Z)).
    + intros s e Hs. pose proof (heat_step_score s e) as H. cbv zeta in H. lia.
    + cbn. lia.
  - intros t0 r0 evs. unfold TensionLine.run.
    apply (fold_left_invariant TensionLine.step
             (fun s => (0 <= TensionLine.score s)%Z)).
    + intros s e Hs. pose proof (tension_step_score s e). lia.
    + cbn. lia.
  - intros t0 evs. unfold EchoOrb.run.
    apply (fold_left_invariant EchoOrb.step
             (fun s => (0 <= EchoOrb.score s)%Z)).
    + intros s e Hs. pose proof (echo_step_score s e). lia.
    + unfold EchoOrb.start. rewrite echo_effect_body_score. cbn. lia.
  - intros t0 evs. unfold PressureCraft.run.
    apply (fold_left_invariant PressureCraft.step
             (fun s => (0 <= PressureCraft.score s)%Z)).
    + intros s e Hs. pose proof (pressure_step_score s e) as H.
      cbv zeta in H. lia.
    + cbn. lia.
  - intros hyp t0 cw ch r evs. unfold AscendLight.run.
    apply (fold_left_invariant (AscendLight.step hyp)
             (fun s => (0 <= AscendLight.score s)%Z)).
    + intros s e Hs. pose proof (ascend_step_score hyp s e). lia.
    + cbn. lia.
  - intros t0 evs.
    apply (fold_left_invariant Heartbeat.step heart_inv heart_step_inv evs
             (Heartbeat.start t0) (heart_start_inv t0)).
  - apply pulse_step_score.
  - apply heat_step_score.
  - apply tension_step_score.
  - apply echo_step_score.
  - apply pressure_step_score.
  - apply ascend_step_score.
Qed.

End ScoreProperties.

(* ------------------------------------------------------------------------- *)
(** ** Heartbeat: calibration *)

Section HeartbeatProperties.

Import JS.

Lemma heart_tick_phase (t : Q) (iv : num) (s : Heartbeat.session) :
  Heartbeat.phase (Heartbeat.tick t iv s) = Heartbeat.phase s.
Proof.
  destruct s as [ph b tp sc pu i cl q o m].
  unfold Heartbeat.tick, Heartbeat.set_pulse, Heartbeat.schedule_id.
  destruct m; reflexivity.
Qed.

Lemma heart_rerender_phase (t : Q) (before s : Heartbeat.session) :
  Heartbeat.phase (Heartbeat.rerender t before s) = Heartbeat.phase s.
Proof.
  unfold Heartbeat.rerender. destruct (_ && _); [|reflexivity].
  assert (Hc : Heartbeat.phase (Heartbeat.effect_cleanup s) = Heartbeat.phase s).
  { unfold Heartbeat.effect_cleanup. destruct (Heartbeat.cleanup s);
      reflexivity. }
  rewrite <- Hc. generalize (Heartbeat.effect_cleanup s). intros s'.
  unfold Heartbeat.effect_body.
  destruct (Heartbeat.phase_eqb _ _); [|reflexivity].
  cbn [Heartbeat.set_cleanup Heartbeat.phase].
  rewrite heart_tick_phase. reflexivity.
Qed.

(** Once in [sync], a session stays there and keeps its tempo. *)
Lemma heart_sync_stable (b : num) (s : Heartbeat.session)
      (e : Heartbeat.event) :
  Heartbeat.phase s = Heartbeat.sync /\ Heartbeat.bpm s = b ->
  Heartbeat.phase (Heartbeat.step s e) = Heartbeat.sync /\
  Heartbeat.bpm (Heartbeat.step s e) = b.
Proof.
  intros [Hph Hb]. destruct e as [t|i t|]; unfold Heartbeat.step.
  - destruct (Heartbeat.mounted s); [|split; assumption].
    rewrite heart_rerender_phase.
    rewrite (proj2 (heart_rerender_frame t s (Heartbeat.onTap t s))).
    unfold Heartbeat.onTap. rewrite Hph.
    generalize (Heartbeat.sync_points (Heartbeat.beat_interval (Heartbeat.bpm s)) t).
    intros pts. destruct s as [ph b0 tp sc pu i cl q o m].
    cbn [Heartbeat.phase Heartbeat.bpm] in *.
    unfold Heartbeat.set_score.
    destruct m; destruct (Heartbeat.above_8 pts); cbn; split; assumption.
  - destruct (Timers.expire i t (Heartbeat.timers s)) as [[c q]|];
      [|split; assumption].
    rewrite heart_rerender_phase.
    match goal with
    | |- context [Heartbeat.rerender ?x ?y ?z] =>
        rewrite (proj2 (heart_rerender_frame x y z))
    end.
    destruct c as [|iv]; cbn [Heartbeat.run_cb].
    + unfold Heartbeat.set_pulse. destruct s as [ph b0 tp sc pu i0 cl q0 o m].
      destruct m; cbn in *; split; assumption.
    + rewrite heart_tick_phase.
      match goal with
      | |- context [Heartbeat.tick ?x ?y ?z] =>
          rewrite (proj2 (heart_tick_frame x y z))
      end.
      cbn. split; assumption.
  - destruct (Heartbeat.mounted s); [|split; assumption].
    unfold Heartbeat.unmount, Heartbeat.effect_cleanup.
    destruct (Heartbeat.cleanup s); cbn; split; assumption.
Qed.

Lemma heart_sync_forever (b : num) (s : Heartbeat.session)
      (rest : list Heartbeat.event) :
  Heartbeat.phase s = Heartbeat.sync -> Heartbeat.bpm s = b ->
  Heartbeat.phase (fold_left Heartbeat.step rest s) = Heartbeat.sync /\
  Heartbeat.bpm (fold_left Heartbeat.step rest s) = b.
Proof.
  intros Hph Hb.
  apply (fold_left_invariant Heartbeat.step
           (fun x => Heartbeat.phase x = Heartbeat.sync /\
                     Heartbeat.bpm x = b)).
  - intros x e. apply heart_sync_stable.
  - split; assumption.
Qed.

Lemma six_taps_calibrate (t0 t1 t2 t3 t4 t5 t6 : Q) :
  let s := Heartbeat.run t0 (six_taps t1 t2 t3 t4 t5 t6) in
  Heartbeat.phase s = Heartbeat.sync /\
  Heartbeat.bpm s = Heartbeat.candidate [t1; t2; t3; t4; t5; t6] /\
  Heartbeat.taps s = [].
Proof.
  cbv zeta. unfold Heartbeat.run, six_taps.
  cbn [map fold_left].
  repeat split.
Qed.

Lemma five_taps_listen (t0 t1 t2 t3 t4 t5 : Q) :
  let s := Heartbeat.run t0 (map Heartbeat.Tap [t1; t2; t3; t4; t5]) in
  Heartbeat.phase s = Heartbeat.cal /\
  Heartbeat.taps s = [t1; t2; t3; t4; t5].
Proof.
  cbv zeta. unfold Heartbeat.run.
  cbn [map fold_left].
  repeat split.
Qed.

Lemma candidate_zero_mean (recorded : list Q) :
  Heartbeat.mean (Heartbeat.gaps recorded) == 0 ->
  Heartbeat.candidate recorded = Fin 150.
Proof.
  intros H. unfold Heartbeat.candidate, div.
  apply Qeq_bool_iff in H. rewrite H. reflexivity.
Qed.

Lemma candidate_nonzero_mean (recorded : list Q) :
  ~ Heartbeat.mean (Heartbeat.gaps recorded) == 0 ->
  Heartbeat.candidate recorded
  = Fin (clamp (60000 / Heartbeat.mean (Heartbeat.gaps recorded)) 50 150).
Proof.
  unfold Heartbeat.candidate, div.
  generalize (Heartbeat.mean (Heartbeat.gaps recorded)). intros m Hne.
  destruct (Qeq_bool m 0) eqn:Hz; [|reflexivity].
  apply Qeq_bool_iff in Hz. contradiction.
Qed.

(** C7: a Heartbeat session mounted at any time stays in [cal] through its
    first five taps, whatever their timestamps; at the sixth it moves to
    [sync] with [bpm = clamp(60000 / avg, 50, 150)], [avg] being the mean of
    the five gaps between the six timestamps, and clears the recorded taps.
    The tempo is then a finite number in [50, 150] (never NaN nor an
    infinity) and no later event changes it.  When the mean gap is 0, as for
    six simultaneous taps, the quotient is [+Infinity] and the clamp gives
    exactly 150.  The mean is the one the specification names: the code adds
    the five differences of consecutive timestamps, in their order, to 0 and
    divides by 5, which is the mean inter-tap interval; and whenever it is
    not 0 the tempo is the finite [clamp(60000 / avg, 50, 150)]. *)
Theorem calibrate_bpm_clamped (t0 t1 t2 t3 t4 t5 t6 : Q) :
  let before := Heartbeat.run t0 (map Heartbeat.Tap [t1; t2; t3; t4; t5]) in
  let recorded := [t1; t2; t3; t4; t5; t6] in
  let avg := Heartbeat.mean (Heartbeat.gaps recorded) in
  let s := Heartbeat.run t0 (six_taps t1 t2 t3 t4 t5 t6) in
  Heartbeat.phase before = Heartbeat.cal /\
  Heartbeat.taps before = [t1; t2; t3; t4; t5] /\
  Heartbeat.phase s = Heartbeat.sync /\
  Heartbeat.bpm s = clamp_num (div 60000 avg) 50 150 /\
  Heartbeat.taps s = [] /\
  (exists q, Heartbeat.bpm s = Fin q /\ 50 <= q <= 150) /\
  (forall rest,
     let s' := Heartbeat.run t0 (six_taps t1 t2 t3 t4 t5 t6 ++ rest) in
     Heartbeat.phase s' = Heartbeat.sync /\
     Heartbeat.bpm s' = Heartbeat.bpm s) /\
  (avg == 0 -> Heartbeat.bpm s = Fin 150) /\
  Heartbeat.bpm (Heartbeat.run t0 (six_taps t1 t1 t1 t1 t1 t1)) = Fin 150 /\
  avg = (0 + (t2 - t1) + (t3 - t2) + (t4 - t3) + (t5 - t4) + (t6 - t5)) / 5 /\
  avg = mean_inter_tap_interval recorded /\
  (~ avg == 0 -> Heartbeat.bpm s = Fin (clamp (60000 / avg) 50 150)).
Proof.
  intros before recorded avg s.
  pose proof (six_taps_calibrate t0 t1 t2 t3 t4 t5 t6) as (Hph & Hb & Htp).
  pose proof (five_taps_listen t0 t1 t2 t3 t4 t5) as (Hph5 & Htp5).
  pose proof (six_taps_calibrate t0 t1 t1 t1 t1 t1 t1) as (_ & Hone & _).
  pose proof (fun rest =>
                heart_sync_forever (Heartbeat.bpm s) s rest Hph eq_refl)
    as Hrest.
  change (forall rest,
            Heartbeat.phase (fold_left Heartbeat.step rest s)
            = Heartbeat.sync /\
            Heartbeat.bpm (fold_left Heartbeat.step rest s) = Heartbeat.bpm s)
    in Hrest.
  fold s in Hph, Hb, Htp. fold recorded in Hb. fold before in Hph5, Htp5.
  assert (Happ : forall rest,
            Heartbeat.run t0 (six_taps t1 t2 t3 t4 t5 t6 ++ rest)
            = fold_left Heartbeat.step rest s).
  { intros rest. unfold s, Heartbeat.run. apply fold_left_app. }
  clearbody s before.
  split; [exact Hph5|]. split; [exact Htp5|].
  split; [exact Hph|]. split; [exact Hb|]. split; [exact Htp|].
  split; [rewrite Hb; apply candidate_range|].
  split; [intros rest; cbv zeta; rewrite Happ; apply Hrest|].
  split; [intros Hz; rewrite Hb; apply candidate_zero_mean, Hz|].
  split.
  { rewrite Hone. apply candidate_zero_mean.
    unfold Heartbeat.mean. cbn [Heartbeat.gaps fold_left List.length].
    unfold Qdiv. setoid_replace (0 + (t1 - t1) + (t1 - t1) + (t1 - t1)
                                 + (t1 - t1) + (t1 - t1)) with 0 by ring.
    ring. }
  split; [reflexivity|].
  split; [reflexivity|].
  intros Hne. rewrite Hb. apply candidate_nonzero_mean, Hne.
Qed.

Lemma calibrate_bpm_clamped_witness :
  Heartbeat.bpm (Heartbeat.run 0 (six_taps 7 7 7 7 7 7)) = Fin 150 /\
  exists q,
    Heartbeat.bpm (Heartbeat.run 0 (six_taps 0 500 1000 1500 2000 2500))
    = Fin q /\
    q == 120.
Proof.
  split.
  - destruct (calibrate_bpm_clamped 0 7 7 7 7 7 7)
      as (_ & _ & _ & _ & _ & _ & _ & Hzero & _).
    apply Hzero. reflexivity.
  - destruct (calibrate_bpm_clamped 0 0 500 1000 1500 2000 2500)
      as (_ & _ & _ & _ & _ & _ & _ & _ & _ & _ & _ & Hmean).
    eexists. split.
    + apply Hmean. intros H. vm_compute in H. discriminate H.
    + vm_compute. reflexivity.
Defined.

End HeartbeatProperties.

(* ------------------------------------------------------------------------- *)
(** ** Echo Orb: the listen phase *)

Section EchoProperties.

Import JS Feedback Timers EchoOrb.

(** C8, as stated, fails: when the first listen phase has ended in [tap], the
    session has asked for one tone and one vibration, both at time 0, and has
    shown one pulse, set at time 0 and cleared at 300 ms.  No second cue was
    given, 800 ms later or at any other time. *)
Lemma listen_phase_gives_one_cue :
  phase first_listen = tap /\
  out first_listen = [(0, Vibrate [10%Z]); (0, Tone 240 (1 # 10))] /\
  List.length (filter (fun x => is_tone (snd x)) (out first_listen)) = 1%nat /\
  pulse (start 0) = 1%Z /\
  pulse (run 0 [Expire 1 300 0]) = 0%Z /\
  pulse first_listen = 0%Z.
Proof. repeat split. Qed.

Lemma rand_range (r lo hi : Q) :
  lo <= hi -> 0 <= r -> r < 1 -> lo <= rand r lo hi /\ rand r lo hi <= hi.
Proof.
  intros Hlh H0 H1. unfold rand.
  assert (0 <= r * (hi - lo)) by (apply Qmult_le_0_compat; lra).
  assert (r * (hi - lo) <= 1 * (hi - lo))
    by (apply Qmult_le_compat_r; lra).
  lra.
Qed.

Lemma expire_head (c : cb) (n : nat) (d now : Q) (m : nat) :
  d <= now ->
  expire n now (mkQueue [mkTimer n d c] m) = Some (c, mkQueue [] m).
Proof.
  intros Hd. unfold expire. cbn [pending find tid].
  rewrite Nat.eqb_refl. cbn [due callback].
  apply Qle_bool_iff in Hd. rewrite Hd.
  unfold clearTimeout. cbn [pending filter tid next_id].
  rewrite Nat.eqb_refl. reflexivity.
Qed.

Lemma expire_early (c : cb) (n : nat) (d now : Q) (m : nat) :
  now < d -> expire n now (mkQueue [mkTimer n d c] m) = None.
Proof.
  intros Hd. unfold expire. cbn [pending find tid].
  rewrite Nat.eqb_refl. cbn [due].
  destruct (Qle_bool d now) eqn:E; [|reflexivity].
  apply Qle_bool_iff in E. lra.
Qed.

(** C8 (amended): a listen phase gives one cue, not two.  When the listen
    effect runs at time [t] in a mounted session with no timer pending, it
    asks for one tone (240 Hz, 0.1 s) and one vibration, sets the pulse and
    schedules the pulse-off callback for [t + 300]; until then nothing can
    run, and taps are ignored.  That callback, run at [t1], clears the pulse,
    asks for no feedback and schedules the change of phase for
    [t1 + intervalMs]; the second callback, run at [t2], sets the phase to
    [tap], again without any feedback.  So the interval is the time between
    the pulse going off and the phase becoming [tap].  [intervalMs] is 800 in
    the first cycle and [rand(500, 1400)], within [500, 1400], afterwards. *)
Theorem listen_phase_single_cue (s : session) (t t1 t2 r1 r2 : Q) :
  mounted s = true -> phase s = listen -> pending (timers s) = [] ->
  t + 300 <= t1 -> t1 + intervalMs s <= t2 ->
  let n := next_id (timers s) in
  let a := effect_body t s in
  let b := step a (Expire n t1 r1) in
  let c := step b (Expire (S n) t2 r2) in
  (out a = (t, Vibrate [10%Z]) :: (t, Tone 240 (1 # 10)) :: out s /\
   pulse a = 1%Z /\ phase a = listen /\
   pending (timers a) = [mkTimer n (t + 300) (PulseOff (intervalMs s))]) /\
  (forall t' r, t' < t + 300 -> step a (Expire n t' r) = a) /\
  (forall t', step a (Tap t') = a) /\
  (out b = out a /\ pulse b = 0%Z /\ phase b = listen /\
   pending (timers b) = [mkTimer (S n) (t1 + intervalMs s) ToTap]) /\
  (forall t' r, t' < t1 + intervalMs s -> step b (Expire (S n) t' r) = b) /\
  (out c = out a /\ phase c = tap /\ pending (timers c) = []) /\
  intervalMs init = 800 /\
  (forall t' r s', mounted s' = true ->
     intervalMs (run_cb NextRound t' r s') = rand r 500 1400) /\
  (forall r, 0 <= r -> r < 1 ->
     500 <= rand r 500 1400 /\ rand r 500 1400 <= 1400).
Proof.
  intros Hm Hph Hpend Ht1 Ht2.
  destruct s as [ph iv sc pu tp tm [pend nid] o m].
  cbn [mounted phase timers pending next_id intervalMs out] in *.
  subst m ph pend. cbv zeta.
  assert (Ha : effect_body t
                 (mkSession listen iv sc pu tp tm (mkQueue [] nid) o true)
               = mkSession listen iv sc 1 tp (Some nid)
                   (mkQueue [mkTimer nid (t + 300) (PulseOff iv)] (S nid))
                   ((t, Vibrate [10%Z]) :: (t, Tone 240 (1 # 10)) :: o) true)
    by reflexivity.
  rewrite Ha. clear Ha.
  assert (Hb : forall r,
             step (mkSession listen iv sc 1 tp (Some nid)
                     (mkQueue [mkTimer nid (t + 300) (PulseOff iv)] (S nid))
                     ((t, Vibrate [10%Z]) :: (t, Tone 240 (1 # 10)) :: o) true)
                  (Expire nid t1 r)
             = mkSession listen iv sc 0 tp (Some (S nid))
                 (mkQueue [mkTimer (S nid) (t1 + iv) ToTap] (S (S nid)))
                 ((t, Vibrate [10%Z]) :: (t, Tone 240 (1 # 10)) :: o) true).
  { intros r. unfold step. cbn [timers]. rewrite (expire_head _ _ _ _ _ Ht1).
    unfold rerender, run_cb, set_timer, set_pulse, schedule_timer, setTimeout.
    cbn [mounted phase intervalMs score pulse taps timer timers out next_id
         pending phase_eqb andb negb].
    rewrite Qeq_bool_refl. reflexivity. }
  rewrite Hb. clear Hb.
  assert (Hc : forall r,
             step (mkSession listen iv sc 0 tp (Some (S nid))
                     (mkQueue [mkTimer (S nid) (t1 + iv) ToTap] (S (S nid)))
                     ((t, Vibrate [10%Z]) :: (t, Tone 240 (1 # 10)) :: o) true)
                  (Expire (S nid) t2 r)
             = mkSession tap iv sc 0 tp None (mkQueue [] (S (S nid)))
                 ((t, Vibrate [10%Z]) :: (t, Tone 240 (1 # 10)) :: o) true).
  { intros r. unfold step. cbn [timers]. rewrite (expire_head _ _ _ _ _ Ht2).
    reflexivity. }
  rewrite Hc. clear Hc.
  repeat match goal with |- _ /\ _ => split end; try reflexivity.
  - intros t' r Hearly. unfold step. cbn [timers].
    rewrite (expire_early _ _ _ _ _ Hearly). reflexivity.
  - intros t'. unfold step, onTap, rerender.
    cbn [mounted phase intervalMs phase_eqb negb andb].
    rewrite Qeq_bool_refl. reflexivity.
  - intros t' r Hearly. unfold step. cbn [timers].
    rewrite (expire_early _ _ _ _ _ Hearly). reflexivity.
  - intros t' r s' Hs'. unfold run_cb, set_taps, set_intervalMs, set_phase.
    destruct s' as [ph' iv' sc' pu' tp' tm' q' o' m']. cbn in Hs'. subst m'.
    reflexivity.
  - intros r H0 H1. apply rand_range; lra.
Qed.

(** X26: the rest of a round.  In [tap], with no tap recorded and no timer
    pending, the first tap is only recorded; the second one scores the round
    from the two timestamps and the interval, shows [result] and leaves
    exactly one timer pending, due 700 ms after the second tap, which will
    start the next round. *)
Lemma two_taps_score_round (s : session) (t3 t4 : Q) :
  mounted s = true -> phase s = tap -> taps s = [] ->
  pending (timers s) = [] -> timer s <> Some (next_id (timers s)) ->
  let s' := step (step s (Tap t3)) (Tap t4) in
  phase s' = result /\
  score s' = (score s + round_points t3 t4 (intervalMs s))%Z /\
  taps s' = [t3; t4] /\
  pending (timers s')
  = [mkTimer (next_id (timers s)) (t4 + 700) NextRound].
Proof.
  intros Hm Hph Htp Hpend Hfresh.
  destruct s as [ph iv sc pu tp tm [pend nid] o m].
  cbn [mounted phase timers pending next_id intervalMs taps score timer] in *.
  subst m ph pend tp. cbv zeta.
  assert (H1 : step (mkSession tap iv sc pu [] tm (mkQueue [] nid) o true)
                    (Tap t3)
               = mkSession tap iv sc pu [t3] tm (mkQueue [] nid) o true).
  { unfold step, onTap, rerender.
    cbn [mounted phase intervalMs phase_eqb negb andb set_taps taps app].
    rewrite Qeq_bool_refl. reflexivity. }
  rewrite H1. clear H1.
  unfold step, onTap.
  cbn [mounted phase intervalMs phase_eqb negb andb set_taps taps app].
  generalize (round_points t3 t4 iv). intros pts.
  assert (Hk : forall k, tm = Some k -> Nat.eqb nid k = false).
  { intros k ->. apply Nat.eqb_neq. congruence. }
  destruct tm as [k|]; [specialize (Hk k eq_refl)|];
    destruct (8 <? pts)%Z; repeat split;
    unfold rerender, effect_cleanup, effect_body, set_timer, clearTimeout;
    cbn; rewrite ?Hk; reflexivity.
Qed.

(** X27: the next round.  When the timer of a scored round runs (in
    [result], mounted, once it is due), the taps are emptied, the interval
    is drawn anew as [rand(500, 1400)], the phase is [listen] again, and the
    listen effect starts afresh from that state with no timer pending and
    the feedback log as it was. *)
Lemma next_round_enters_listen (s : session) (i : nat) (d t r : Q) :
  mounted s = true -> phase s = result ->
  pending (timers s) = [mkTimer i d NextRound] -> d <= t ->
  exists s',
    step s (Expire i t r) = effect_body t s' /\
    mounted s' = true /\ phase s' = listen /\ pending (timers s') = [] /\
    intervalMs s' = rand r 500 1400 /\ taps s' = [] /\ out s' = out s.
Proof.
  intros Hm Hph Hpend Hd.
  destruct s as [ph iv sc pu tp tm [pend nid] o m].
  cbn [mounted phase timers pending next_id intervalMs taps score out] in *.
  subst m ph pend.
  exists (mkSession listen (rand r 500 1400) sc pu [] tm (mkQueue [] nid) o
                    true).
  split; [|repeat split].
  unfold step. cbn [timers]. rewrite (expire_head _ _ _ _ _ Hd).
  unfold rerender, run_cb, set_timer, set_taps, set_intervalMs, set_phase.
  cbn [mounted phase intervalMs score pulse taps timer timers out
       phase_eqb andb negb].
  unfold effect_cleanup, set_timer.
  cbn [mounted phase intervalMs score pulse taps timer timers out].
  destruct tm as [k|]; reflexivity.
Qed.

Lemma listen_phase_single_cue_witness :
  out (start 0) = [(0, Vibrate [10%Z]); (0, Tone 240 (1 # 10))] /\
  out first_listen = out (start 0) /\
  phase first_listen = tap.
Proof.
  destruct (listen_phase_single_cue init 0 300 1100 0 0
              eq_refl eq_refl eq_refl ltac:(lra) ltac:(cbn; lra))
    as ((Ha & _) & _ & _ & _ & _ & (Hc1 & Hc2 & _) & _).
  split; [exact Ha|]. split; [exact Hc1|exact Hc2].
Defined.

End EchoProperties.

(* ------------------------------------------------------------------------- *)
(** ** Timers and the end of a session *)

Section TimerProperties.

Import Timers.

(** C9 on its failing inputs.  Echo Orb: after the unmount the timer of line
    409 is still pending, and when it runs at 2700 ms it empties the taps of
    the discarded session.  Heartbeat: the unmount cancels the beat timer
    (id 2) but not the pulse-off timer (id 1), whose id the next line
    overwrote; it is still pending and runs at 2680 ms. *)
Theorem stale_timers_survive_unmount :
  (EchoOrb.mounted echo_left_in_result = false /\
   pending (EchoOrb.timers echo_left_in_result)
   = [mkTimer 3 2700 EchoOrb.NextRound] /\
   EchoOrb.taps echo_left_in_result = [1200; 2000] /\
   EchoOrb.taps
     (EchoOrb.step echo_left_in_result (EchoOrb.Expire 3 2700 (1 # 2)))
   = []) /\
  (Heartbeat.mounted heart_left_after_calibration = false /\
   pending (Heartbeat.timers heart_left_after_calibration)
   = [mkTimer 1 2680 Heartbeat.PulseOff] /\
   expire 1 2680 (Heartbeat.timers heart_left_after_calibration)
   = Some (Heartbeat.PulseOff, mkQueue [] 3)).
Proof. repeat split. Qed.

Lemma pulse_tick_timers (t : Q) (s : PulseLink.session) :
  PulseLink.mounted s = true -> pending (PulseLink.timers s) = [] ->
  pulse_timers_inv (PulseLink.tick t s).
Proof.
  intros Hm Hp. destruct s as [sc ba bp i [pend nid] o m].
  cbn [PulseLink.mounted PulseLink.timers pending] in *. subst m pend.
  unfold pulse_timers_inv, PulseLink.tick, PulseLink.set_beatAt, setTimeout.
  cbn [PulseLink.mounted PulseLink.timers PulseLink.id pending next_id].
  right. eexists. split; reflexivity.
Qed.

Lemma pulse_onTap_timers (t : Q) (s : PulseLink.session) :
  PulseLink.timers (PulseLink.onTap t s) = PulseLink.timers s /\
  PulseLink.id (PulseLink.onTap t s) = PulseLink.id s /\
  PulseLink.mounted (PulseLink.onTap t s) = PulseLink.mounted s.
Proof.
  unfold PulseLink.onTap.
  generalize (PulseLink.tap_gain t (PulseLink.emit t (Feedback.blip true) s)).
  intros gain. destruct s as [sc ba bp i q o m].
  unfold PulseLink.set_score, PulseLink.emit.
  destruct m; destruct (9 <=? gain)%Z; repeat split.
Qed.

Lemma pulse_step_timers (s : PulseLink.session) (e : PulseLink.event) :
  pulse_timers_inv s -> pulse_timers_inv (PulseLink.step s e).
Proof.
  intros Hinv. destruct e as [t|i t|]; unfold PulseLink.step.
  - destruct (PulseLink.mounted s) eqn:Hm; [|exact Hinv].
    destruct (pulse_onTap_timers t s) as (Hq & Hi & Hm').
    unfold pulse_timers_inv in *. rewrite Hq, Hi, Hm'. exact Hinv.
  - destruct (expire i t (PulseLink.timers s)) as [[[] q]|] eqn:Hex;
      [|exact Hinv].
    unfold pulse_timers_inv in Hinv.
    destruct s as [sc ba bp i0 [pend nid] o m].
    cbn [PulseLink.mounted PulseLink.timers PulseLink.id pending] in *.
    unfold expire in Hex. cbn [pending] in Hex.
    destruct m.
    + destruct Hinv as [Hp|(tm & Hp & Hid)]; subst pend;
        cbn [find] in Hex; [discriminate|].
      destruct (Nat.eqb (tid tm) i) eqn:Heq; [|discriminate].
      destruct (Qle_bool (due tm) t); [|discriminate].
      injection Hex as Hq. subst q.
      apply pulse_tick_timers; [reflexivity|].
      unfold clearTimeout. cbn [pending filter PulseLink.timers].
      rewrite Heq. reflexivity.
    + subst pend. cbn [find] in Hex. discriminate.
  - destruct (PulseLink.mounted s) eqn:Hm; [|exact Hinv].
    unfold pulse_timers_inv in *. rewrite Hm in Hinv.
    unfold PulseLink.unmount. cbn [PulseLink.mounted PulseLink.timers].
    destruct Hinv as [Hp|(tm & Hp & Hid)].
    + unfold clearTimeout. destruct (PulseLink.id s); [|exact Hp].
      cbn [pending]. rewrite Hp. reflexivity.
    + rewrite Hid. unfold clearTimeout. cbn [pending]. rewrite Hp.
      cbn [filter]. rewrite Nat.eqb_refl. reflexivity.
Qed.

(** X29: PulseLink tears its timer down: in every session, whatever
    happened before, leaving the game cancels the beat timer, and from then
    on no timer of the session is pending, so none can run. *)
Lemma pulse_unmount_cancels_timers (t0 r : Q)
      (evs rest : list PulseLink.event) :
  pending (PulseLink.timers
             (PulseLink.run t0 r (evs ++ PulseLink.Unmount :: rest))) = [].
Proof.
  assert (Hinv : forall l, pulse_timers_inv (PulseLink.run t0 r l)).
  { intros l. unfold PulseLink.run.
    apply (fold_left_invariant PulseLink.step pulse_timers_inv
             pulse_step_timers).
    apply pulse_tick_timers; reflexivity. }
  assert (Hun : forall l,
            PulseLink.mounted
              (fold_left PulseLink.step l
                 (PulseLink.run t0 r (evs ++ [PulseLink.Unmount]))) = false).
  { intros l.
    apply (fold_left_invariant PulseLink.step
             (fun s => PulseLink.mounted s = false)).
    - intros s e Hs. destruct s as [sc ba bp i0 q0 o m].
      cbn [PulseLink.mounted] in Hs. subst m.
      destruct e as [t|i t|]; unfold PulseLink.step;
        cbn [PulseLink.mounted PulseLink.timers]; try reflexivity.
      destruct (expire i t q0) as [[[] q]|]; reflexivity.
    - unfold PulseLink.run. rewrite fold_left_app. cbn [fold_left].
      generalize (fold_left PulseLink.step evs (PulseLink.start t0 r)).
      intros x. unfold PulseLink.step.
      destruct (PulseLink.mounted x) eqn:Hm; [reflexivity|exact Hm]. }
  specialize (Hinv (evs ++ PulseLink.Unmount :: rest)).
  specialize (Hun rest).
  replace (evs ++ PulseLink.Unmount :: rest)
    with ((evs ++ [PulseLink.Unmount]) ++ rest) in *
    by (rewrite <- app_assoc; reflexivity).
  unfold PulseLink.run in Hinv, Hun |- *.
  rewrite fold_left_app in Hinv |- *.
  unfold pulse_timers_inv in Hinv. rewrite Hun in Hinv. exact Hinv.
Qed.

End TimerProperties.

(* ========================================================================= *)
(** * Further properties of the code *)

(* ------------------------------------------------------------------------- *)
(** ** Utilities *)

Section UtilityContracts.

Import JS.

(** X1: [clamp(v, a, b)] with [a <= b] lies in [a, b], leaves a value of
    [a, b] as it is, and is idempotent; with the bounds the wrong way round
    ([b < a]) it returns [a] whatever [v] is. *)
Theorem clamp_contract (v a b : Q) :
  (a <= b -> a <= clamp v a b <= b) /\
  (a <= v <= b -> clamp v a b == v) /\
  (a <= b -> clamp (clamp v a b) a b == clamp v a b) /\
  (b < a -> clamp v a b == a).
Proof.
  unfold clamp, Math_max, Math_min.
  repeat split; intros; repeat case_dec; lra.
Qed.

Lemma clamp_contract_witness :
  clamp 7 0 1 == 1 /\ clamp (1 # 2) 0 1 == 1 # 2 /\ clamp 7 1 0 == 1.
Proof.
  destruct (clamp_contract 7 0 1) as (_ & _ & Hidem & _).
  destruct (clamp_contract (1 # 2) 0 1) as (_ & Hin & _).
  destruct (clamp_contract 7 1 0) as (_ & _ & _ & Hinv).
  split; [|split].
  - rewrite <- (Hidem ltac:(lra)). reflexivity.
  - apply Hin. lra.
  - apply Hinv. lra.
Defined.

(** X2: [rand(min, max)] for a draw [r] of [Math.random()], that is
    [0 <= r < 1], and [min <= max]: the result lies between the two bounds,
    both included; the draw 0 gives [min]; on the unit range the result is
    the draw itself; on an empty range it is [min]; and a larger draw never
    gives a smaller result. *)
Theorem rand_within_bounds (r r' lo hi : Q) :
  0 <= r -> r < 1 -> lo <= hi ->
  lo <= rand r lo hi <= hi /\
  rand 0 lo hi == lo /\
  rand r 0 1 == r /\
  rand r lo lo == lo /\
  (r <= r' -> rand r lo hi <= rand r' lo hi).
Proof.
  intros H0 H1 Hlh. unfold rand.
  assert (0 <= r * (hi - lo)) by (apply Qmult_le_0_compat; lra).
  assert (r * (hi - lo) <= 1 * (hi - lo))
    by (apply Qmult_le_compat_r; lra).
  split; [lra|]. split; [ring|]. split; [ring|]. split; [ring|].
  intros Hr. assert (r * (hi - lo) <= r' * (hi - lo))
    by (apply Qmult_le_compat_r; lra). lra.
Qed.

Lemma rand_within_bounds_witness :
  72 <= rand (1 # 2) 72 128 <= 128 /\ rand (1 # 2) 0 1 == 1 # 2.
Proof.
  destruct (rand_within_bounds (1 # 2) (1 # 2) 72 128
              ltac:(lra) ltac:(lra) ltac:(lra)) as (Hrange & _ & Hunit & _).
  split; assumption.
Defined.

End UtilityContracts.

(* ------------------------------------------------------------------------- *)
(** ** Palettes *)

Section PaletteProperties.

Import Palettes.

Lemma resolve_cases (k : string) :
  (resolve k = first /\ ~ In k (map key PALETTES)) \/
  (key (resolve k) = k /\ In k (map key PALETTES)).
Proof.
  unfold resolve, find_key, PALETTES. cbn [find key map].
  repeat match goal with
         | |- context [String.eqb ?x k] =>
             destruct (String.eqb_spec x k) as [<-|?]
         end;
    try (right; split; [reflexivity|cbn; tauto]).
  left. split; [reflexivity|]. cbn. intuition congruence.
Qed.

(** X3: the palette lookup [PALETTES.find(p => p.key === k) || PALETTES[0]]
    always yields one of the five palettes: the one whose key is [k] when
    there is one, and the first, "aurora", for every other string.  The keys
    are distinct, so looking up the key of a palette gives that palette
    back. *)
Theorem resolve_palette (k : string) :
  In (resolve k) PALETTES /\
  (In k (map key PALETTES) -> key (resolve k) = k) /\
  (~ In k (map key PALETTES) -> resolve k = first) /\
  key first = "aurora"%string /\
  (forall p, In p PALETTES -> resolve (key p) = p) /\
  map key PALETTES = Store.PALETTES.
Proof.
  split; [|split; [|split; [|split; [|split]]]]; try reflexivity.
  - unfold resolve, find_key.
    destruct (find _ PALETTES) as [p|] eqn:E.
    + apply find_some in E. apply E.
    + left. reflexivity.
  - intros Hin. destruct (resolve_cases k) as [[_ H]|[H _]];
      [contradiction|exact H].
  - intros Hout. destruct (resolve_cases k) as [[H _]|[_ H]];
      [exact H|contradiction].
  - intros p Hp. cbn in Hp.
    repeat (destruct Hp as [<-|Hp]; [reflexivity|]). contradiction.
Qed.

Lemma resolve_palette_witness :
  key (resolve "lilac") = "lilac"%string /\ resolve "neon" = first.
Proof.
  destruct (resolve_palette "lilac") as (_ & Hin & _).
  destruct (resolve_palette "neon") as (_ & _ & Hout & _).
  split.
  - apply Hin. cbn. tauto.
  - apply Hout. cbn. intuition discriminate.
Defined.

End PaletteProperties.

(* ------------------------------------------------------------------------- *)
(** ** The application shell *)

Section ShellProperties.

Import Store AppShell.

Variable stringify : Persist.json -> string.

Lemma exit_click_shape (k : GameKey) (score : Z) :
  GameFrame.exit_click k score
  = [CallAward (score / exit_divisor k); CallOnExit score].
Proof.
  destruct k; unfold GameFrame.exit_click, PulseLink.exit_click,
    HeatBloom.exit_click, TensionLine.exit_click, EchoOrb.exit_click,
    PressureCraft.exit_click, AscendLight.exit_click, Heartbeat.exit_click,
    JS.Math_floor, exit_divisor;
    rewrite Zdiv_Qdiv; reflexivity.
Qed.

Lemma exit_run (k : GameKey) (score : Z) (s : SaveState) :
  run_calls (GameFrame.exit_click k score) (Store.mkApp s (game k))
  = Store.mkApp (recordBest k score (award (score / exit_divisor k) s)) menu.
Proof. rewrite exit_click_shape. reflexivity. Qed.

Lemma save_writable (s : SaveState) (ls : Storage.localStorage) :
  Storage.writable ls = true ->
  Storage.writable (Storage.saveState stringify s ls) = true /\
  Storage.readable (Storage.saveState stringify s ls) = Storage.readable ls /\
  Storage.lookup Storage.LS_KEY
    (Storage.items (Storage.saveState stringify s ls))
  = Some (stringify (Persist.json_of_state s)).
Proof.
  intros Hw. unfold Storage.saveState, Storage.setItem. rewrite Hw.
  cbn [Storage.writable Storage.readable Storage.items Storage.lookup].
  rewrite String.eqb_refl. repeat split.
Qed.

Lemma save_unwritable (s : SaveState) (ls : Storage.localStorage) :
  Storage.writable ls = false -> Storage.saveState stringify s ls = ls.
Proof.
  intros Hw. unfold Storage.saveState, Storage.setItem. rewrite Hw.
  reflexivity.
Qed.

Lemma save_each_unwritable (l : list SaveState) (ls : Storage.localStorage) :
  Storage.writable ls = false -> save_each stringify l ls = ls.
Proof.
  intros Hw. induction l as [|s l IH]; [reflexivity|].
  unfold save_each in *. cbn [fold_left].
  rewrite (save_unwritable s ls Hw). exact IH.
Qed.

Lemma save_each_writable (l : list SaveState) (s : SaveState)
      (ls : Storage.localStorage) :
  Storage.writable ls = true ->
  Storage.writable (save_each stringify (l ++ [s]) ls) = true /\
  Storage.readable (save_each stringify (l ++ [s]) ls) = Storage.readable ls /\
  Storage.lookup Storage.LS_KEY
    (Storage.items (save_each stringify (l ++ [s]) ls))
  = Some (stringify (Persist.json_of_state s)).
Proof.
  revert ls. induction l as [|s0 l IH]; intros ls Hw.
  - apply save_writable, Hw.
  - destruct (save_writable s0 ls Hw) as (Hw' & Hr' & _).
    specialize (IH _ Hw'). unfold save_each in *. cbn [List.app fold_left].
    rewrite <- Hr'. exact IH.
Qed.

Lemma resolve_in (k : string) : In (Palettes.resolve k) Palettes.PALETTES.
Proof.
  unfold Palettes.resolve, Palettes.find_key.
  destruct (find _ Palettes.PALETTES) as [p|] eqn:E.
  - apply find_some in E. apply E.
  - left. reflexivity.
Qed.

Lemma set_palette_synced (p : Palettes.palette) (changed : bool)
      (s : SaveState) (a : app) :
  In p Palettes.PALETTES -> In (palette a) Palettes.PALETTES ->
  Store.palette s = Palettes.key (palette a) ->
  palette_synced (set_palette stringify p changed s a).
Proof.
  intros Hp Ha Hs. unfold set_palette, palette_synced.
  destruct (String.eqb _ _); cbn [saved palette]; split; trivial.
Qed.

Lemma perform_synced (a : app) (act : action) :
  palette_synced a -> palette_synced (perform stringify a act).
Proof.
  intros [Hs Hin]. destruct act as [k| | | |score|n|k]; unfold perform;
    destruct (view a) as [|g| |]; try (split; assumption).
  - rewrite exit_run. split; [exact Hs|exact Hin].
  - destruct (nth_error Palettes.PALETTES n) as [p|] eqn:E;
      [|split; assumption].
    destruct (buy_disabled p a); [split; assumption|].
    apply set_palette_synced; [eapply nth_error_In, E|exact Hin|exact Hs].
  - apply set_palette_synced; [apply resolve_in|exact Hin|exact Hs].
  - apply set_palette_synced; [apply resolve_in|exact Hin|exact Hs].
  - apply set_palette_synced; [apply resolve_in|exact Hin|exact Hs].
  - apply set_palette_synced; [apply resolve_in|exact Hin|exact Hs].
Qed.

Lemma set_palette_frame (p : Palettes.palette) (changed : bool)
      (s : SaveState) (a : app) :
  tokens (saved (set_palette stringify p changed s a)) = tokens s /\
  best (saved (set_palette stringify p changed s a)) = best s /\
  view (set_palette stringify p changed s a) = view a.
Proof.
  unfold set_palette. destruct (String.eqb _ _); repeat split.
Qed.

(** X4: in the running application the saved palette key is always the key
    of the palette in use, and that palette is always one of the five of
    [PALETTES], whatever the loaded state named (an unknown key is replaced by
    "aurora" on mount) and whatever the user does afterwards. *)
Theorem shell_palette_valid (loaded : SaveState)
        (ls : Storage.localStorage) (acts : list action) :
  let a := run stringify loaded ls acts in
  Store.palette (saved a) = Palettes.key (palette a) /\
  In (palette a) Palettes.PALETTES /\
  In (Store.palette (saved a)) Store.PALETTES /\
  (~ In (Store.palette loaded) Store.PALETTES ->
   Store.palette (saved (mount stringify loaded ls)) = "aurora"%string).
Proof.
  cbv zeta.
  assert (H : palette_synced (run stringify loaded ls acts)).
  { unfold run. apply (fold_left_invariant (perform stringify) palette_synced).
    - intros a act. apply perform_synced.
    - split; [reflexivity|apply resolve_in]. }
  destruct H as [Hs Hin]. split; [exact Hs|]. split; [exact Hin|]. split.
  - rewrite Hs. change Store.PALETTES with (map Palettes.key Palettes.PALETTES).
    apply in_map, Hin.
  - intros Hout. cbn [mount saved with_palette Store.palette].
    destruct (resolve_cases (Store.palette loaded)) as [[-> _]|[_ H]];
      [reflexivity|contradiction].
Qed.



Lemma perform_best (a : app) (act : action) (k : GameKey) :
  let b := get_best (best (saved a)) k in
  let b' := get_best (best (saved (perform stringify a act))) k in
  b' = b \/
  (exists score, act = ExitSave score /\ view a = game k /\
                 b' = Z.max b score).
Proof.
  cbv zeta. destruct act as [g| | | |score|n|key]; unfold perform;
    destruct (view a) as [|g'| |] eqn:Hv; try (left; reflexivity).
  - rewrite exit_run. cbn [state saved].
    destruct (GameKey_eq_dec g' k) as [->|Hne].
    + right. exists score. split; [reflexivity|]. split; [reflexivity|].
      rewrite recordBest_best. reflexivity.
    + left. unfold recordBest. cbn [best award].
      apply get_set_best_other, Hne.
  - destruct (nth_error Palettes.PALETTES n) as [p|]; [|left; reflexivity].
    destruct (buy_disabled p a); [left; reflexivity|].
    left. rewrite (proj1 (proj2 (set_palette_frame p true _ a))). reflexivity.
  - left. rewrite (proj1 (proj2 (set_palette_frame _ false _ a))). reflexivity.
  - left. rewrite (proj1 (proj2 (set_palette_frame _ false _ a))). reflexivity.
  - left. rewrite (proj1 (proj2 (set_palette_frame _ false _ a))). reflexivity.
  - left. rewrite (proj1 (proj2 (set_palette_frame _ false _ a))). reflexivity.
Qed.

(** X6: no action ever lowers a best score.  The best of a game changes
    only by Exit & Save on that game, to the larger of the old best and the
    score; in particular leaving a game by Back records nothing; so through
    any sequence of actions every best is at least what was loaded. *)
Theorem shell_best_never_decreases (loaded : SaveState)
        (ls : Storage.localStorage) (acts : list action) (k : GameKey) :
  (forall a act,
     let b := get_best (best (saved a)) k in
     let b' := get_best (best (saved (perform stringify a act))) k in
     b' = b \/
     (exists score, act = ExitSave score /\ view a = game k /\
                    b' = Z.max b score)) /\
  (forall a, saved (perform stringify a Back) = saved a /\
             storage (perform stringify a Back) = storage a) /\
  (get_best (best loaded) k
   <= get_best (best (saved (run stringify loaded ls acts))) k)%Z.
Proof.
  split; [intros a act; apply perform_best|]. split.
  - intros a. unfold perform. destruct (view a); split; reflexivity.
  - unfold run.
    apply (fold_left_invariant (perform stringify)
             (fun a => (get_best (best loaded) k
                        <= get_best (best (saved a)) k)%Z)).
    + intros a act Ha. pose proof (perform_best a act k) as H.
      cbv zeta in H. destruct H as [H|(score & _ & _ & H)]; rewrite H; lia.
    + cbn. lia.
Qed.

End ShellProperties.

Lemma shell_palette_valid_witness :
  Store.palette
    (AppShell.saved
       (AppShell.mount Codec.show
          (Store.mkSave 0 "neon" (Store.mkBest 0 0 0 0 0 0 0))
          empty_storage))
  = "aurora"%string.
Proof.
  destruct (shell_palette_valid Codec.show
              (Store.mkSave 0 "neon" (Store.mkBest 0 0 0 0 0 0 0))
              empty_storage []) as (_ & _ & _ & H).
  apply H. cbn. intuition discriminate.
Defined.


(* ------------------------------------------------------------------------- *)
(** ** Saving and loading *)

Section StorageProperties.

Import Store Persist AppShell.

Variable stringify : json -> string.
Variable parse : string -> outcome json.

Lemma set_palette_current (p : Palettes.palette) (changed : bool)
      (s : SaveState) (a : app) :
  Storage.writable (storage a) = true ->
  (changed = false -> storage_current stringify a /\ s = saved a) ->
  storage_current stringify (set_palette stringify p changed s a).
Proof.
  intros Hw Hsame. unfold set_palette, storage_current.
  destruct (String.eqb _ _); cbn [storage saved].
  - destruct changed.
    + destruct (save_each_writable stringify [] s (storage a) Hw)
        as (H1 & _ & H2). split; assumption.
    + destruct (Hsame eq_refl) as [[H1 H2] ->]. split; assumption.
  - destruct changed.
    + destruct (save_each_writable stringify
                  [with_palette (Palettes.key p) s; s]
                  (with_palette (Palettes.key p) s) (storage a) Hw)
        as (H1 & _ & H2). split; assumption.
    + destruct (save_each_writable stringify
                  [with_palette (Palettes.key p) s]
                  (with_palette (Palettes.key p) s) (storage a) Hw)
        as (H1 & _ & H2). split; assumption.
Qed.

Lemma perform_current (a : app) (act : action) :
  storage_current stringify a ->
  storage_current stringify (perform stringify a act).
Proof.
  intros Hc. pose proof Hc as [Hw Hl].
  destruct act as [k| | | |score|n|k]; unfold perform;
    destruct (view a) as [|g| |]; try exact Hc;
    try (apply set_palette_current; [exact Hw|intros _; split; trivial]).
  - destruct (save_each_writable stringify []
                (state (run_calls (GameFrame.exit_click g score)
                          (Store.mkApp (saved a) (game g))))
                (storage a) Hw) as (H1 & _ & H2).
    split; assumption.
  - destruct (nth_error Palettes.PALETTES n) as [p|]; [|exact Hc].
    destruct (buy_disabled p a); [exact Hc|].
    apply set_palette_current; [exact Hw|discriminate].
Qed.

Lemma perform_readable (a : app) (act : action) :
  Storage.readable (storage (perform stringify a act))
  = Storage.readable (storage a).
Proof.
  assert (Hsave : forall l ls,
            Storage.readable (save_each stringify l ls) = Storage.readable ls).
  { induction l as [|s l IH]; intros ls; [reflexivity|].
    unfold save_each in *. cbn [fold_left]. rewrite IH.
    unfold Storage.saveState, Storage.setItem.
    destruct (Storage.writable ls); reflexivity. }
  assert (Hset : forall p c s,
            Storage.readable (storage (set_palette stringify p c s a))
            = Storage.readable (storage a)).
  { intros p c s. unfold set_palette.
    destruct (String.eqb _ _); destruct c; cbn [storage];
      rewrite ?Hsave; reflexivity. }
  destruct act as [k| | | |score|n|k]; unfold perform;
    destruct (view a) as [|g| |]; try reflexivity; try apply Hset.
  - cbn [storage]. apply Hsave.
  - destruct (nth_error Palettes.PALETTES n) as [p|]; [|reflexivity].
    destruct (buy_disabled p a); [reflexivity|apply Hset].
Qed.

Lemma perform_unwritable (a : app) (act : action) :
  Storage.writable (storage a) = false ->
  storage (perform stringify a act) = storage a.
Proof.
  intros Hw.
  assert (Hset : forall p c s,
            storage (set_palette stringify p c s a) = storage a).
  { intros p c s. unfold set_palette.
    destruct (String.eqb _ _); destruct c; cbn [storage];
      rewrite ?(save_each_unwritable stringify _ _ Hw); reflexivity. }
  destruct act as [k| | | |score|n|k]; unfold perform;
    destruct (view a) as [|g| |]; try reflexivity; try apply Hset.
  - cbn [storage]. apply save_each_unwritable, Hw.
  - destruct (nth_error Palettes.PALETTES n) as [p|]; [|reflexivity].
    destruct (buy_disabled p a); [reflexivity|apply Hset].
Qed.

Lemma run_current (loaded : SaveState) (ls : Storage.localStorage)
      (acts : list action) :
  Storage.writable ls = true ->
  storage_current stringify (run stringify loaded ls acts).
Proof.
  intros Hw. unfold run.
  apply (fold_left_invariant (perform stringify) (storage_current stringify)
           perform_current).
  unfold mount, storage_current. cbn [storage saved].
  set (s := with_palette _ loaded).
  destruct (save_each_writable stringify [s; loaded] s ls Hw) as (H1 & _ & H2).
  split; assumption.
Qed.

Lemma run_readable (loaded : SaveState) (ls : Storage.localStorage)
      (acts : list action) :
  Storage.readable (storage (run stringify loaded ls acts))
  = Storage.readable ls.
Proof.
  unfold run.
  apply (fold_left_invariant (perform stringify)
           (fun a => Storage.readable (storage a) = Storage.readable ls)).
  - intros a act H. rewrite perform_readable. exact H.
  - unfold mount. cbn [storage]. unfold save_each. cbn [fold_left].
    unfold Storage.saveState, Storage.setItem.
    repeat match goal with
           | |- context [if Storage.writable ?x then _ else _] =>
               destruct (Storage.writable x) eqn:?; cbn [Storage.readable Storage.writable] in *
           end; reflexivity.
Qed.

(** X7: the storage follows the state.  When [localStorage] takes writes,
    then after the mount and after every action the item "warm-pulse-arcade"
    is the current state as [JSON.stringify] writes it, whatever was stored
    before; when it refuses them, the application runs on and the storage is
    never changed. *)
Theorem storage_follows_state (loaded : SaveState)
        (ls : Storage.localStorage) (acts : list action) :
  let a := run stringify loaded ls acts in
  (Storage.writable ls = true -> Storage.readable ls = true ->
   Storage.getItem Storage.LS_KEY (storage a)
   = Returns (Some (stringify (json_of_state (saved a))))) /\
  (Storage.writable ls = false -> storage a = ls).
Proof.
  cbv zeta. split; intros Hw.
  - intros Hr. destruct (run_current loaded ls acts Hw) as [_ H].
    unfold Storage.getItem. rewrite run_readable, Hr, H. reflexivity.
  - unfold run.
    assert (H : forall l a0, Storage.writable (storage a0) = false ->
               storage (fold_left (perform stringify) l a0) = storage a0).
    { induction l as [|act l IH]; intros a0 H0; [reflexivity|].
      cbn [fold_left]. rewrite IH; rewrite perform_unwritable; trivial. }
    rewrite H.
    + unfold mount. cbn [storage]. apply save_each_unwritable, Hw.
    + unfold mount. cbn [storage].
      rewrite (save_each_unwritable stringify _ ls Hw). exact Hw.
Qed.

(** X8: saving and loading round-trip.  On a storage that can be read and
    written, [loadState] after any run of the application hands
    [JSON.parse] the text [JSON.stringify] made of the current state (a
    non-empty text) and returns what it returns; so when [JSON.parse] reads
    that text back, the state loaded is exactly the state last saved. *)
Theorem reload_gives_saved_state (loaded : SaveState)
        (ls : Storage.localStorage) (acts : list action) :
  let a := run stringify loaded ls acts in
  let v := json_of_state (saved a) in
  Storage.writable ls = true -> Storage.readable ls = true ->
  stringify v <> EmptyString ->
  (parse (stringify v) = Returns v ->
   Storage.loadState parse (storage a) = Returns v) /\
  (parse (stringify v) = Throws ->
   Storage.loadState parse (storage a)
   = Returns (json_of_state default_state)).
Proof.
  cbv zeta. intros Hw Hr Hne.
  destruct (run_current loaded ls acts Hw) as [_ Hl].
  pose proof (run_readable loaded ls acts) as Hr'. rewrite Hr in Hr'.
  unfold Storage.loadState, Persist.loadState, Storage.getItem.
  cbn [Persist.getItem Persist.JSON_parse]. rewrite Hr', Hl.
  cbn [bind truthy].
  destruct (String.eqb_spec
              (stringify (json_of_state
                            (saved (run stringify loaded ls acts))))
              EmptyString) as [E|_]; [contradiction|].
  cbn [negb]. split; intros ->; reflexivity.
Qed.

(** X9: [loadState] does not validate.  Whatever [JSON.parse] makes of a
    non-empty stored text is returned as the state, be it of the shape of a
    saved state or not (the text [null] loads as [null]). *)
Theorem loadState_returns_parsed (w : browser) (txt : string) (v : json) :
  getItem w = Returns (Some txt) -> txt <> EmptyString ->
  JSON_parse w txt = Returns v ->
  Persist.loadState w = Returns v.
Proof.
  intros Hg Hne Hp. unfold Persist.loadState. rewrite Hg.
  cbn [bind truthy].
  destruct (String.eqb_spec txt EmptyString) as [E|_]; [contradiction|].
  cbn [negb]. rewrite Hp. reflexivity.
Qed.

End StorageProperties.

Lemma storage_follows_state_witness :
  Storage.getItem Storage.LS_KEY
    (AppShell.storage
       (AppShell.run Codec.show five_tokens empty_storage
          [AppShell.ClickCard Store.echo; AppShell.ExitSave 100]))
  = Persist.Returns
      (Some (Codec.show
               (Persist.json_of_state
                  (AppShell.saved
                     (AppShell.run Codec.show five_tokens empty_storage
                        [AppShell.ClickCard Store.echo;
                         AppShell.ExitSave 100]))))) /\
  AppShell.storage
    (AppShell.run Codec.show five_tokens full_storage
       [AppShell.ClickCard Store.echo; AppShell.ExitSave 100])
  = full_storage.
Proof.
  destruct (storage_follows_state Codec.show five_tokens empty_storage
              [AppShell.ClickCard Store.echo; AppShell.ExitSave 100])
    as (Hw & _).
  destruct (storage_follows_state Codec.show five_tokens full_storage
              [AppShell.ClickCard Store.echo; AppShell.ExitSave 100])
    as (_ & Hf).
  split.
  - apply Hw; reflexivity.
  - apply Hf. reflexivity.
Defined.

Lemma reload_gives_saved_state_witness :
  Storage.loadState
    (Codec.reads_back
       (Codec.show (Persist.json_of_state
                      (Store.mkSave 21 "aurora" (Store.mkBest 0 0 0 100 0 0 0))))
       (Persist.json_of_state
          (Store.mkSave 21 "aurora" (Store.mkBest 0 0 0 100 0 0 0))))
    (AppShell.storage
       (AppShell.run Codec.show five_tokens empty_storage
          [AppShell.ClickCard Store.echo; AppShell.ExitSave 100]))
  = Persist.Returns
      (Persist.json_of_state
         (Store.mkSave 21 "aurora" (Store.mkBest 0 0 0 100 0 0 0))).
Proof.
  apply (reload_gives_saved_state Codec.show
           (Codec.reads_back
              (Codec.show (Persist.json_of_state
                             (Store.mkSave 21 "aurora"
                                (Store.mkBest 0 0 0 100 0 0 0))))
              (Persist.json_of_state
                 (Store.mkSave 21 "aurora" (Store.mkBest 0 0 0 100 0 0 0))))
           five_tokens empty_storage
           [AppShell.ClickCard Store.echo; AppShell.ExitSave 100]
           eq_refl eq_refl).
  - vm_compute. discriminate.
  - vm_compute. reflexivity.
Defined.

Lemma loadState_returns_parsed_witness :
  Persist.loadState
    (Persist.mkBrowser (Persist.Returns (Some "null"%string))
                       (fun _ => Persist.Returns Persist.JNull))
  = Persist.Returns Persist.JNull.
Proof.
  apply (loadState_returns_parsed
           (Persist.mkBrowser (Persist.Returns (Some "null"%string))
                              (fun _ => Persist.Returns Persist.JNull))
           "null"%string Persist.JNull eq_refl).
  - discriminate.
  - reflexivity.
Defined.

(* ------------------------------------------------------------------------- *)
(** ** The backends *)

Section BackendProperties.

Import Backends.

Lemma replay_audio (w : window) (nav : navigator) (clock : Q -> Q)
      (l : Feedback.log) :
  let s := audio (replay w nav clock l (mkDevices [] fresh)) in
  if has_audio w
  then (expected_oscillators clock l = [] /\ s = fresh) \/
       (expected_oscillators clock l <> [] /\
        s = mkSound (Some (mkContext (starts_suspended w) (1 # 10)
                                     (expected_oscillators clock l)))
                    false 1)
  else s = fresh.
Proof.
  cbv zeta. induction l as [|[t r] l IH]; cbn [replay fold_right].
  - destruct (has_audio w); [left; split|]; reflexivity.
  - fold (replay w nav clock l (mkDevices [] fresh)).
    destruct r as [f d|p]; cbn [perform audio fst snd].
    + unfold tone, ensure. destruct (has_audio w) eqn:Hw.
      * unfold expected_oscillators in *. cbn [flat_map fst snd List.app].
        right. split; [discriminate|].
        destruct IH as [[He ->]|[He ->]].
        -- rewrite He. reflexivity.
        -- reflexivity.
      * rewrite IH. reflexivity.
    + exact IH.
Qed.

Lemma replay_handed (w : window) (nav : navigator) (clock : Q -> Q)
      (l : Feedback.log) :
  handed (replay w nav clock l (mkDevices [] fresh))
  = match nav with
    | HasVibrate accepts => filter accepts (patterns l)
    | NoNavigator | NoVibrate => []
    end.
Proof.
  induction l as [|[t r] l IH]; cbn [replay fold_right].
  - destruct nav; reflexivity.
  - fold (replay w nav clock l (mkDevices [] fresh)).
    destruct r as [f d|p]; cbn [perform handed fst snd].
    + exact IH.
    + unfold vibrate, patterns in *. cbn [flat_map fst snd List.app].
      rewrite IH. destruct nav as [| |accepts]; reflexivity.
Qed.

(** X10: the feedback of any game carried out on the backends.  Whatever
    the log of requests: at most one [AudioContext] is ever constructed; when
    the page has no audio API the sound object stays as new, and when the
    navigator is missing or has no [vibrate] nothing is handed to a device;
    with the API present every tone request makes exactly one oscillator, of
    the requested frequency, started at [currentTime] and stopped 0.02 s
    after its duration; a device that throws on a pattern only loses that
    pattern; and playing feedback never marks the sound as unlocked. *)
Theorem feedback_on_backends (w : window) (nav : navigator)
        (clock : Q -> Q) (l : Feedback.log) :
  let d := replay w nav clock l (mkDevices [] fresh) in
  (constructed (audio d) <= 1)%nat /\
  unlocked (audio d) = false /\
  (has_audio w = false -> audio d = fresh) /\
  (has_audio w = true ->
   audio_oscillators (audio d) = expected_oscillators clock l) /\
  (nav = NoNavigator \/ nav = NoVibrate -> handed d = []) /\
  (forall accepts, nav = HasVibrate accepts ->
     handed d = filter accepts (patterns l)).
Proof.
  cbv zeta. pose proof (replay_audio w nav clock l) as Ha. cbv zeta in Ha.
  pose proof (replay_handed w nav clock l) as Hh.
  destruct (has_audio w).
  - destruct Ha as [[He Ha]|[He Ha]]; rewrite Ha; repeat split;
      try discriminate; try (cbn; lia);
      try (intros [->| ->]; exact Hh); try (intros accepts ->; exact Hh).
    + intros _. rewrite He. reflexivity.
  - rewrite Ha. repeat split; try discriminate; try (cbn; lia);
      try (intros [->| ->]; exact Hh); try (intros accepts ->; exact Hh).
Qed.

Lemma feedback_on_backends_witness :
  audio (replay (mkWindow false true) NoVibrate (fun t => t)
           (EchoOrb.out echo_left_in_result) (mkDevices [] fresh))
  = fresh /\
  List.length
    (audio_oscillators
       (audio (replay (mkWindow true true) NoVibrate (fun t => t)
                 (EchoOrb.out echo_left_in_result) (mkDevices [] fresh))))
  = 2%nat.
Proof.
  destruct (feedback_on_backends (mkWindow false true) NoVibrate (fun t => t)
              (EchoOrb.out echo_left_in_result))
    as (_ & _ & Hno & _).
  destruct (feedback_on_backends (mkWindow true true) NoVibrate (fun t => t)
              (EchoOrb.out echo_left_in_result))
    as (_ & _ & _ & Hyes & _).
  split.
  - apply Hno. reflexivity.
  - rewrite (Hyes eq_refl). reflexivity.
Defined.

End BackendProperties.

(* ------------------------------------------------------------------------- *)
(** ** Tapping on the beat *)

Section BeatProperties.

Import JS Scoring.

Lemma Math_round_ge (x : Q) (n : Z) : inject_Z n <= x -> (n <= Math_round x)%Z.
Proof.
  intros Hx. unfold Math_round. rewrite <- (Qfloor_Z n).
  apply Qfloor_resp_le. lra.
Qed.

Lemma Math_trunc_comp (x y : Q) : x == y -> Math_trunc x = Math_trunc y.
Proof.
  intros Hxy. unfold Math_trunc.
  destruct (Qlt_le_dec x 0), (Qlt_le_dec y 0); try lra.
  - apply Qceiling_comp, Hxy.
  - apply Qfloor_comp, Hxy.
Qed.

Lemma Math_trunc_Z (k : Z) : Math_trunc (inject_Z k) = k.
Proof.
  unfold Math_trunc. destruct (Qlt_le_dec (inject_Z k) 0).
  - apply Qceiling_Z.
  - apply Qfloor_Z.
Qed.

(** The remainder of a whole number of intervals is zero. *)
Lemma fmod_multiple (x iv : Q) (k : Z) :
  ~ iv == 0 -> x == inject_Z k * iv -> fmod x iv == 0.
Proof.
  intros Hiv Hx. unfold fmod.
  assert (Hq : x / iv == inject_Z k).
  { rewrite Hx. unfold Qdiv. rewrite <- Qmult_assoc, Qmult_inv_r by exact Hiv.
    ring. }
  rewrite (Math_trunc_comp _ _ Hq), Math_trunc_Z. rewrite Hx. ring.
Qed.

(** An error of zero scores the full ten points. *)
Lemma zero_error_points (err tol : Q) :
  0 < tol -> err == 0 ->
  pointsFromAccuracy (accuracyFromError err tol) 10 = 10%Z.
Proof.
  intros Htol Herr. unfold pointsFromAccuracy, accuracyFromError, Math_round.
  assert (Hc : clamp (err / tol) 0 1 == 0).
  { apply clamp_low; [lra|]. rewrite Herr. unfold Qdiv.
    rewrite Qmult_0_l. lra. }
  assert (Hv : (1 - clamp (err / tol) 0 1) * 10 + (1 # 2) == 21 # 2)
    by (rewrite Hc; reflexivity).
  rewrite (Qfloor_comp _ _ Hv). reflexivity.
Qed.

Lemma pulse_interval_positive (s : PulseLink.session) :
  (0 < PulseLink.bpm s)%Z -> 0 < PulseLink.interval s.
Proof.
  intros Hb. unfold PulseLink.interval. apply Qlt_shift_div_l.
  - change 0 with (inject_Z 0). rewrite <- Zlt_Qlt. exact Hb.
  - lra.
Qed.

(** X11: a PulseLink tap that lands a whole number of beat intervals after
    the last beat (on the beat itself, or on any beat the timer is late for)
    scores the full 10 points, whatever the tempo. *)
Theorem pulse_tap_on_beat_scores_ten (s : PulseLink.session) (k : Z) :
  (0 < PulseLink.bpm s)%Z ->
  PulseLink.tap_gain
    (PulseLink.beatAt s + inject_Z k * PulseLink.interval s) s = 10%Z.
Proof.
  intros Hb. pose proof (pulse_interval_positive s Hb) as Hiv.
  unfold PulseLink.tap_gain.
  set (iv := PulseLink.interval s) in *.
  assert (Hd : Math_abs (fmod (PulseLink.beatAt s + inject_Z k * iv
                               - PulseLink.beatAt s) iv) == 0).
  { unfold Math_abs. rewrite (fmod_multiple _ iv k); [reflexivity|lra|ring]. }
  apply zero_error_points; [apply Qlt_shift_div_l; lra|].
  revert Hd. generalize (Math_abs (fmod (PulseLink.beatAt s + inject_Z k * iv
                                         - PulseLink.beatAt s) iv)).
  intros d Hd. unfold Math_min. case_dec; lra.
Qed.

Lemma pulse_tap_on_beat_scores_ten_witness :
  PulseLink.tap_gain (1000 + inject_Z 3 * (60000 / inject_Z 60))
    (PulseLink.mkSession 0 1000 60 None Timers.empty [] true) = 10%Z.
Proof.
  apply (pulse_tap_on_beat_scores_ten
           (PulseLink.mkSession 0 1000 60 None Timers.empty [] true) 3).
  reflexivity.
Defined.

(** X12: a Heartbeat tap in [sync] at a whole multiple of the beat interval
    scores the full 10 points. *)
Theorem heart_tap_on_beat_scores_ten (i : Q) (k : Z) :
  0 < i ->
  Heartbeat.sync_points (Fin i) (inject_Z k * i) = Some 10%Z.
Proof.
  intros Hi. unfold Heartbeat.sync_points. rewrite (Qeq_bool_pos i Hi).
  f_equal. apply zero_error_points; [apply Qlt_shift_div_l; lra|].
  assert (Hd : fmod (inject_Z k * i) i == 0)
    by (apply (fmod_multiple _ i k); [lra|reflexivity]).
  revert Hd. generalize (fmod (inject_Z k * i) i).
  intros d Hd. unfold Math_min. case_dec; lra.
Qed.

Lemma heart_tap_on_beat_scores_ten_witness :
  Heartbeat.sync_points (Fin 500) (inject_Z 7 * 500) = Some 10%Z.
Proof. apply (heart_tap_on_beat_scores_ten 500 7). reflexivity. Defined.

End BeatProperties.

(* ------------------------------------------------------------------------- *)
(** ** PulseLink: tempo and metronome *)

Section PulseProperties.

Import JS Timers.

Lemma pulse_tick_bpm (t : Q) (s : PulseLink.session) :
  PulseLink.bpm (PulseLink.tick t s) = PulseLink.bpm s.
Proof.
  destruct s as [sc ba bp i q o m].
  unfold PulseLink.tick, PulseLink.set_beatAt. destruct m; reflexivity.
Qed.

Lemma pulse_step_bpm (s : PulseLink.session) (e : PulseLink.event) :
  PulseLink.bpm (PulseLink.step s e) = PulseLink.bpm s.
Proof.
  destruct e as [t|i t|]; unfold PulseLink.step.
  - destruct (PulseLink.mounted s); [|reflexivity].
    unfold PulseLink.onTap.
    generalize (PulseLink.tap_gain t (PulseLink.emit t (Feedback.blip true) s)).
    intros gain. destruct s as [sc ba bp i q o m].
    unfold PulseLink.set_score, PulseLink.emit.
    destruct m; destruct (9 <=? gain)%Z; reflexivity.
  - destruct (expire i t (PulseLink.timers s)) as [[[] q]|]; [|reflexivity].
    rewrite pulse_tick_bpm. reflexivity.
  - destruct (PulseLink.mounted s); reflexivity.
Qed.

(** X13: the tempo of a PulseLink session is drawn once, at mount: for a
    draw [0 <= r < 1] it is a whole number of beats a minute between 72 and
    128, no event of the session changes it, and the beat interval
    [60000 / bpm] stays between 468.75 ms and 834 ms. *)
Theorem pulse_tempo_fixed (t0 r : Q) (evs : list PulseLink.event) :
  0 <= r -> r < 1 ->
  let s := PulseLink.run t0 r evs in
  PulseLink.bpm s = Math_round (rand r 72 128) /\
  (72 <= PulseLink.bpm s <= 128)%Z /\
  60000 / 128 <= PulseLink.interval s <= 834.
Proof.
  intros H0 H1. cbv zeta.
  assert (Hb : PulseLink.bpm (PulseLink.run t0 r evs)
               = Math_round (rand r 72 128)).
  { unfold PulseLink.run.
    apply (fold_left_invariant PulseLink.step
             (fun s => PulseLink.bpm s = Math_round (rand r 72 128))).
    - intros s e Hs. rewrite pulse_step_bpm. exact Hs.
    - unfold PulseLink.start. rewrite pulse_tick_bpm. reflexivity. }
  destruct (rand_range r 72 128 ltac:(lra) H0 H1) as [Hlo Hhi].
  assert (Hrange : (72 <= Math_round (rand r 72 128) <= 128)%Z).
  { split; [apply Math_round_ge|apply Math_round_le]; assumption. }
  split; [exact Hb|]. split; [rewrite Hb; exact Hrange|].
  unfold PulseLink.interval. rewrite Hb.
  generalize dependent (Math_round (rand r 72 128)). intros b _ [Hb1 Hb2].
  assert (H72 : 72 <= inject_Z b)
    by (change 72 with (inject_Z 72); rewrite <- Zle_Qle; exact Hb1).
  assert (H128 : inject_Z b <= 128)
    by (change 128 with (inject_Z 128); rewrite <- Zle_Qle; exact Hb2).
  split.
  - apply Qle_shift_div_l; [lra|].
    setoid_replace (60000 / 128 * inject_Z b)
      with (60000 * (inject_Z b / 128)) by field.
    assert (inject_Z b / 128 <= 1) by (apply Qle_shift_div_r; lra).
    lra.
  - apply Qle_shift_div_r; lra.
Qed.

Lemma pulse_tempo_fixed_witness :
  (72 <= PulseLink.bpm (PulseLink.run 0 (1 # 2)
                          [PulseLink.Tap 10; PulseLink.Expire 1 600])
   <= 128)%Z.
Proof.
  destruct (pulse_tempo_fixed 0 (1 # 2)
              [PulseLink.Tap 10; PulseLink.Expire 1 600]
              ltac:(lra) ltac:(lra)) as (_ & H & _).
  exact H.
Defined.

Lemma pulse_tick_metronome (t : Q) (s : PulseLink.session) :
  PulseLink.mounted s = true -> pending (PulseLink.timers s) = [] ->
  metronome_runs (PulseLink.tick t s).
Proof.
  intros Hm Hp _. destruct s as [sc ba bp i [pend nid] o m].
  cbn [PulseLink.mounted PulseLink.timers pending] in *. subst m pend.
  exists nid. split; reflexivity.
Qed.

Lemma pulse_step_metronome (s : PulseLink.session) (e : PulseLink.event) :
  metronome_runs s -> metronome_runs (PulseLink.step s e).
Proof.
  intros Hinv. destruct e as [t|i t|]; unfold PulseLink.step.
  - destruct (PulseLink.mounted s) eqn:Hm; [|exact Hinv].
    destruct (Hinv Hm) as (n & Hid & Hp).
    unfold PulseLink.onTap.
    generalize (PulseLink.tap_gain t (PulseLink.emit t (Feedback.blip true) s)).
    intros gain. destruct s as [sc ba bp i q o m].
    cbn [PulseLink.mounted PulseLink.id PulseLink.timers PulseLink.beatAt] in *.
    subst m. intros _. exists n.
    unfold PulseLink.set_score, PulseLink.emit.
    destruct (9 <=? gain)%Z; split; assumption.
  - destruct (expire i t (PulseLink.timers s)) as [[[] q]|] eqn:Hex;
      [|exact Hinv].
    destruct (PulseLink.mounted s) eqn:Hm.
    + destruct (Hinv Hm) as (n & Hid & Hp).
      destruct s as [sc ba bp i0 [pend nid] o m].
      unfold PulseLink.interval in Hp.
      cbn [PulseLink.mounted PulseLink.id PulseLink.timers pending
           PulseLink.bpm PulseLink.beatAt] in *.
      subst m pend. unfold expire in Hex. cbn [pending find tid] in Hex.
      destruct (Nat.eqb n i) eqn:Heq; [|discriminate].
      cbn [due] in Hex. destruct (Qle_bool _ t); [|discriminate].
      injection Hex as Hq. subst q.
      apply pulse_tick_metronome; [reflexivity|].
      unfold clearTimeout. cbn [pending filter PulseLink.timers tid].
      rewrite Heq. reflexivity.
    + intros Hm'. exfalso.
      destruct s as [sc ba bp i0 q0 o m].
      cbn [PulseLink.mounted] in Hm. subst m.
      unfold PulseLink.tick, PulseLink.set_beatAt in Hm'.
      cbn in Hm'. discriminate.
  - destruct (PulseLink.mounted s); [|exact Hinv].
    intros Hm. cbn in Hm. discriminate.
Qed.

(** X14: the metronome of a mounted PulseLink session never stops and never
    doubles: after every sequence of taps and timer expirations exactly one
    timer is pending, it is the [tick] the effect's [id] names, and it is due
    one beat interval after the last beat. *)
Theorem pulse_metronome_keeps_running (t0 r : Q)
        (evs : list PulseLink.event) :
  let s := PulseLink.run t0 r evs in
  PulseLink.mounted s = true ->
  exists i,
    PulseLink.id s = Some i /\
    pending (PulseLink.timers s)
    = [mkTimer i (PulseLink.beatAt s + PulseLink.interval s) PulseLink.Tick].
Proof.
  cbv zeta. unfold PulseLink.run.
  apply (fold_left_invariant PulseLink.step metronome_runs
           pulse_step_metronome).
  apply pulse_tick_metronome; reflexivity.
Qed.

Lemma pulse_metronome_keeps_running_witness :
  exists i,
    PulseLink.id (PulseLink.run 0 (1 # 2)
                    [PulseLink.Tap 10; PulseLink.Expire 1 600]) = Some i.
Proof.
  destruct (pulse_metronome_keeps_running 0 (1 # 2)
              [PulseLink.Tap 10; PulseLink.Expire 1 600] eq_refl)
    as (i & Hi & _).
  exists i. exact Hi.
Defined.

End PulseProperties.

(* ------------------------------------------------------------------------- *)
(** ** Echo Orb: taps, points and the interval *)

Section EchoRoundProperties.

Import JS Scoring EchoOrb.

(** X15: a press outside the [tap] phase is ignored: in [listen] and in
    [result], mounted or not, a tap leaves every cell of the session, its
    timers and its feedback log as they were. *)
Theorem echo_tap_outside_tap_phase_ignored (s : session) (t : Q) :
  phase s <> tap -> step s (Tap t) = s.
Proof.
  intros Hph. unfold step. destruct (mounted s) eqn:Hm; [|reflexivity].
  assert (Ht : onTap t s = s).
  { unfold onTap. destruct (phase s); try reflexivity. contradiction. }
  rewrite Ht. unfold rerender.
  assert (Hsame : phase_eqb (phase s) (phase s) = true)
    by (destruct (phase s); reflexivity).
  rewrite Hsame, Qeq_bool_refl, Hm. reflexivity.
Qed.

Lemma echo_tap_outside_tap_phase_ignored_witness :
  step (start 0) (Tap 100) = start 0.
Proof.
  apply (echo_tap_outside_tap_phase_ignored (start 0) 100). discriminate.
Defined.

Lemma clamp_comp (v w lo hi : Q) : v == w -> clamp v lo hi == clamp w lo hi.
Proof.
  intros Hvw. apply Qle_antisym; apply clamp_monotone; lra.
Qed.

(** [Math.round] rounds halves up: it reaches [n] from [n - 1/2] on. *)
Lemma Math_round_ge_iff (x : Q) (n : Z) :
  (n <= Math_round x)%Z <-> inject_Z n - (1 # 2) <= x.
Proof.
  unfold Math_round. split; intros H.
  - assert (H' : inject_Z n <= inject_Z (Qfloor (x + (1 # 2))))
      by (rewrite <- Zle_Qle; exact H).
    pose proof (Qfloor_le (x + (1 # 2))). lra.
  - assert (H' : inject_Z n <= x + (1 # 2)) by lra.
    apply Qfloor_resp_le in H'. rewrite Qfloor_Z in H'. exact H'.
Qed.

(** The points of an error of [err] ms against the tolerance of 800 ms. *)
Lemma echo_points_by_error (a b iv : Q) :
  round_points a b iv
  = pointsFromAccuracy
      (accuracyFromError (Qabs (Qabs (b - a) - iv)) 800) 12.
Proof. reflexivity. Qed.

Lemma points_comp (e e' tol m : Q) :
  e == e' ->
  pointsFromAccuracy (accuracyFromError e tol) m
  = pointsFromAccuracy (accuracyFromError e' tol) m.
Proof.
  intros He. unfold pointsFromAccuracy, accuracyFromError, Math_round.
  apply Qfloor_comp.
  assert (Hd : e / tol == e' / tol) by (rewrite He; reflexivity).
  rewrite (clamp_comp _ _ 0 1 Hd). reflexivity.
Qed.

(** X16: the points of an Echo Orb round, by the error of the echo, that is
    by how far the gap between the two taps is from the interval.  They are
    a whole number from 0 to 12 and do not depend on the order of the two
    timestamps.  An error of up to 33 ms gives all 12 points; an error of up
    to 233 ms gives more than 8 points, which is when the success feedback
    is given; an error of 234 ms or more gives at most 8 points and the
    other feedback; and an error of 767 ms or more gives no point. *)
Theorem echo_round_points_by_error (a b iv : Q) :
  let err := Qabs (Qabs (b - a) - iv) in
  let pts := round_points a b iv in
  pts = round_points b a iv /\
  (0 <= pts <= 12)%Z /\
  (err <= 33 -> pts = 12%Z) /\
  (err <= 233 -> (8 <? pts)%Z = true) /\
  (234 <= err -> (8 <? pts)%Z = false) /\
  (767 <= err -> pts = 0%Z).
Proof.
  cbv zeta.
  pose proof (echo_round_points_range a b iv) as Hrange.
  rewrite !echo_points_by_error in *.
  split.
  { apply points_comp.
    assert (H : Qabs (b - a) == Qabs (a - b)).
    { setoid_replace (a - b) with (- (b - a)) by ring.
      rewrite Qabs_opp. reflexivity. }
    rewrite H. reflexivity. }
  split; [exact Hrange|].
  pose proof (Qabs_nonneg (Qabs (b - a) - iv)) as Hpos.
  generalize dependent (Qabs (Qabs (b - a) - iv)). intros err Hrange Hpos.
  unfold pointsFromAccuracy, accuracyFromError in *.
  pose proof (Math_round_ge_iff ((1 - clamp (err / 800) 0 1) * 12))
    as Hround.
  generalize dependent (Math_round ((1 - clamp (err / 800) 0 1) * 12)).
  intros n Hrange Hround.
  pose proof (Hround 12%Z) as H12. change (inject_Z 12) with 12 in H12.
  pose proof (Hround 9%Z) as H9. change (inject_Z 9) with 9 in H9.
  pose proof (Hround 1%Z) as H1. change (inject_Z 1) with 1 in H1.
  clear Hround. revert H12 H9 H1.
  assert (Hdiv : err / 800 == err * (1 # 800)) by reflexivity.
  unfold clamp, Math_max, Math_min.
  repeat case_dec; intros H12 H9 H1;
    (split; [|split; [|split]]); intros Herr.
  all: try (assert (Hn : (12 <= n)%Z) by (apply H12; lra); lia).
  all: try (apply Z.ltb_lt;
            assert (Hn : (9 <= n)%Z) by (apply H9; lra); lia).
  all: try (apply Z.ltb_ge;
            assert (Hn : ~ (9 <= n)%Z) by (intros Hn; apply H9 in Hn; lra);
            lia).
  all: try (assert (Hn : ~ (1 <= n)%Z) by (intros Hn; apply H1 in Hn; lra);
            lia).
  all: exfalso; lra.
Qed.

Lemma echo_round_points_by_error_witness :
  round_points 1200 2000 800 = 12%Z /\ round_points 0 5000 800 = 0%Z.
Proof.
  destruct (echo_round_points_by_error 1200 2000 800)
    as (_ & _ & Hexact & _).
  destruct (echo_round_points_by_error 0 5000 800)
    as (_ & _ & _ & _ & _ & Hzero).
  split.
  - apply Hexact. vm_compute. discriminate.
  - apply Hzero. vm_compute. discriminate.
Defined.

End EchoRoundProperties.

(* ------------------------------------------------------------------------- *)
(** ** PressureCraft: the zone and the level *)

Section PressureProperties.

Import JS PressureCraft.

Lemma Qle_bool_false (x y : Q) : Qle_bool x y = false -> y < x.
Proof.
  intros H. apply Qnot_le_lt. intros Hle.
  apply Qle_bool_iff in Hle. congruence.
Qed.

Lemma pressure_frame_zone (t : Q) (s : session) :
  pressure_zone_inv s ->
  pressure_zone_inv (frame t s) /\
  ((zone_dir (frame t s) = zone_dir s /\
    0 < zone_a (frame t s) /\ zone_b (frame t s) < 1) \/
   (zone_dir (frame t s) = zone_dir s * -1 /\
    (zone_b (frame t s) == 1 \/ zone_a (frame t s) == 0))).
Proof.
  unfold pressure_zone_inv, frame.
  destruct s as [sc lv f hd a b dir lst].
  cbn [zone_a zone_b zone_dir level last holding fill score].
  intros (Ha & Hab & Hb & Hdir). cbv zeta.
  generalize (dir * frame_dt t lst * ((2 # 10) + inject_Z lv * (4 # 100))).
  intros d.
  destruct (Qle_bool 1 (b + d)) eqn:H1; cbn [orb zone_a zone_b zone_dir].
  - apply Qle_bool_iff in H1.
    assert (Hb1 : clamp (b + d) (15 # 100) 1 == 1)
      by (apply clamp_high; lra).
    split.
    + pose proof (clamp_range (a + d) 0 (85 # 100) ltac:(lra)).
      repeat split; try lra;
        try (destruct Hdir; [right|left]; lra).
    + right. split; [reflexivity|]. left. exact Hb1.
  - apply Qle_bool_false in H1.
    destruct (Qle_bool (a + d) 0) eqn:H2; cbn [orb zone_a zone_b zone_dir].
    + apply Qle_bool_iff in H2.
      assert (Ha0 : clamp (a + d) 0 (85 # 100) == 0)
        by (apply clamp_low; lra).
      split.
      * pose proof (clamp_range (b + d) (15 # 100) 1 ltac:(lra)).
        repeat split; try lra;
        try (destruct Hdir; [right|left]; lra).
      * right. split; [reflexivity|]. right. exact Ha0.
    + apply Qle_bool_false in H2.
      split; [repeat split; try lra; exact Hdir|].
      left. repeat split; assumption.
Qed.

Lemma pressure_restart_zone (t : Q) (before s : session) :
  zone_a (restart t before s) = zone_a s /\
  zone_b (restart t before s) = zone_b s /\
  zone_dir (restart t before s) = zone_dir s /\
  level (restart t before s) = level s /\
  score (restart t before s) = score s.
Proof.
  unfold restart. destruct (_ && _); repeat split.
Qed.

Lemma pressure_handler_zone (s : session) (e : event) :
  (forall t, e <> Frame t) ->
  zone_a (step s e) = zone_a s /\ zone_b (step s e) = zone_b s /\
  zone_dir (step s e) = zone_dir s.
Proof.
  intros He. destruct e as [t|t|t]; cbn [step].
  - exfalso. apply (He t). reflexivity.
  - destruct (pressure_restart_zone t s (onDown s)) as (Ha & Hb & Hd & _).
    rewrite Ha, Hb, Hd. repeat split.
  - destruct (pressure_restart_zone t s (release s)) as (Ha & Hb & Hd & _).
    rewrite Ha, Hb, Hd. unfold release.
    destruct (_ && _); repeat split.
Qed.

Lemma pressure_step_zone (s : session) (e : event) :
  pressure_zone_inv s -> pressure_zone_inv (step s e).
Proof.
  intros Hinv. destruct e as [t|t|t].
  - apply pressure_frame_zone, Hinv.
  - destruct (pressure_handler_zone s (Down t)) as (Ha & Hb & Hd);
      [discriminate|].
    unfold pressure_zone_inv in *. rewrite Ha, Hb, Hd. exact Hinv.
  - destruct (pressure_handler_zone s (Release t)) as (Ha & Hb & Hd);
      [discriminate|].
    unfold pressure_zone_inv in *. rewrite Ha, Hb, Hd. exact Hinv.
Qed.

(** X17: the zone of PressureCraft stays a zone.  After any events, with any
    timestamps, its edges are in order and within the bar
    ([0 <= a <= b <= 1]) and its direction is 1 or -1.  A frame either keeps
    the direction and leaves the zone strictly inside the bar, or turns the
    direction round and leaves the zone on the end it has reached ([b = 1]
    or [a = 0]); pressing and releasing never move the zone. *)
Theorem pressure_zone_stays_in_bar (t0 : Q) (evs : list event) :
  let s := run t0 evs in
  pressure_zone_inv s /\
  (forall t,
     (zone_dir (frame t s) = zone_dir s /\
      0 < zone_a (frame t s) /\ zone_b (frame t s) < 1) \/
     (zone_dir (frame t s) = zone_dir s * -1 /\
      (zone_b (frame t s) == 1 \/ zone_a (frame t s) == 0))) /\
  (forall t,
     zone_a (step s (Down t)) = zone_a s /\
     zone_b (step s (Down t)) = zone_b s /\
     zone_dir (step s (Down t)) = zone_dir s) /\
  (forall t,
     zone_a (step s (Release t)) = zone_a s /\
     zone_b (step s (Release t)) = zone_b s /\
     zone_dir (step s (Release t)) = zone_dir s).
Proof.
  cbv zeta.
  assert (Hinv : pressure_zone_inv (run t0 evs)).
  { unfold run.
    apply (fold_left_invariant step pressure_zone_inv pressure_step_zone).
    unfold pressure_zone_inv, start. cbn [zone_a zone_b zone_dir].
    repeat split; lra. }
  split; [exact Hinv|]. split; [|split].
  - intros t. apply pressure_frame_zone, Hinv.
  - intros t. apply pressure_handler_zone. discriminate.
  - intros t. apply pressure_handler_zone. discriminate.
Qed.

Lemma pressure_step_level (s : session) (e : event) :
  pressure_level_inv s ->
  pressure_level_inv (step s e) /\
  (level s <= level (step s e) <= level s + 1)%Z /\
  (level (step s e) = level s + 1 <-> score (step s e) = score s + 12)%Z.
Proof.
  unfold pressure_level_inv. intros (Hl & Hs).
  destruct e as [t|t|t]; cbn [step].
  - unfold frame. destruct (_ || _); cbn [level score]; lia.
  - destruct (pressure_restart_zone t s (onDown s)) as (_ & _ & _ & Hlv & Hsc).
    rewrite Hlv, Hsc. cbn [onDown level score]. lia.
  - destruct (pressure_restart_zone t s (release s)) as (_ & _ & _ & Hlv & Hsc).
    rewrite Hlv, Hsc. unfold release.
    destruct (_ && _); cbn [level score]; lia.
Qed.

(** X18: the level of PressureCraft counts the forged releases.  In every
    session the level is at least 1 and the score is at most 12 points per
    level gained; an event raises the level by one exactly when it adds 12
    points, and no event lowers it. *)
Theorem pressure_level_counts_forges (t0 : Q) (evs : list event) :
  let s := run t0 evs in
  (1 <= level s)%Z /\
  (0 <= score s <= 12 * (level s - 1))%Z /\
  forall e,
    (level s <= level (step s e) <= level s + 1)%Z /\
    (level (step s e) = level s + 1 <-> score (step s e) = score s + 12)%Z.
Proof.
  cbv zeta.
  assert (Hinv : pressure_level_inv (run t0 evs)).
  { unfold run.
    apply (fold_left_invariant step pressure_level_inv
             (fun s e H => proj1 (pressure_step_level s e H))).
    unfold pressure_level_inv, start. cbn [level score]. lia. }
  split; [apply Hinv|]. split; [apply Hinv|].
  intros e. apply pressure_step_level, Hinv.
Qed.

End PressureProperties.

(* ------------------------------------------------------------------------- *)
(** ** Ascend Light: the crash and the updrafts *)

Section AscendProperties.

Import JS AscendLight.

Variable hyp : Q -> Q -> Q.

Lemma ascend_zones_loop_dead (dt w h py : Q) (draw : nat -> Q)
      (zs : list zone) :
  forall (i : nat) (v : Q) (sc : Z),
    snd (zones_loop hyp dt w h py false draw i zs v sc) = sc.
Proof.
  induction zs as [|z rest IH]; intros i v sc.
  - reflexivity.
  - cbn [zones_loop].
    destruct (zone_step hyp dt w h py false draw i z v) as [[z' v'] pts] eqn:Hz.
    assert (Hpts : pts = 0%Z).
    { unfold zone_step in Hz. injection Hz as _ _ Hp. subst pts. reflexivity. }
    specialize (IH (S i) v' (sc + pts)%Z).
    destruct (zones_loop hyp dt w h py false draw (S i) rest v' (sc + pts))
      as [[rest' v''] sc'].
    cbn [snd] in *. lia.
Qed.

Lemma ascend_zones_loop_radii (dt w h py : Q) (live : bool) (draw : nat -> Q)
      (zs : list zone) :
  forall (i : nat) (v : Q) (sc : Z),
    map zr (fst (fst (zones_loop hyp dt w h py live draw i zs v sc)))
    = map zr zs.
Proof.
  induction zs as [|z rest IH]; intros i v sc.
  - reflexivity.
  - cbn [zones_loop].
    destruct (zone_step hyp dt w h py live draw i z v) as [[z' v'] pts] eqn:Hz.
    assert (Hr : zr z' = zr z).
    { unfold zone_step in Hz. injection Hz as Hz' _ _. subst z'. reflexivity. }
    specialize (IH (S i) v' (sc + pts)%Z).
    destruct (zones_loop hyp dt w h py live draw (S i) rest v' (sc + pts))
      as [[rest' v''] sc'].
    cbn [fst map] in *. rewrite Hr, IH. reflexivity.
Qed.

Lemma ascend_frame_dead (t : Q) (draw : nat -> Q) (s : session) :
  alive s = false ->
  alive (frame hyp t draw s) = false /\
  score (frame hyp t draw s) = score s.
Proof.
  intros Ha. destruct s as [sc y0 v0 al lst zs pr w h].
  cbn [alive] in Ha. subst al. unfold frame.
  cbn [alive press vy y last zones score W H].
  repeat case_dec; cbv beta iota zeta;
    match goal with
    | |- context [zones_loop ?a ?b ?c ?d ?e ?f ?g ?i ?j ?k ?l] =>
        pose proof (ascend_zones_loop_dead b c d e g j i k l) as Hd;
        destruct (zones_loop a b c d e f g i j k l) as [[zs' v4] sc']
    end; cbn [snd alive score] in *; (split; [reflexivity|exact Hd]).
Qed.

Lemma ascend_step_dead (s : session) (e : event) :
  alive s = false ->
  alive (step hyp s e) = false /\ score (step hyp s e) = score s.
Proof.
  intros Ha. destruct e as [t draw| | |cw ch]; cbn [step].
  - apply ascend_frame_dead, Ha.
  - split; [exact Ha|reflexivity].
  - split; [exact Ha|reflexivity].
  - split; [exact Ha|reflexivity].
Qed.

(** X19: a crash of Ascend Light is final.  Once the light has hit the
    ground or the ceiling ([alive] is false), no frame, press, release or
    resize brings it back, and the score stays what it was at the crash,
    whatever updrafts the light still drifts through. *)
Theorem ascend_crash_is_final (s : session) (evs : list event) :
  alive s = false ->
  alive (fold_left (step hyp) evs s) = false /\
  score (fold_left (step hyp) evs s) = score s.
Proof.
  revert s. induction evs as [|e evs IH]; intros s Ha.
  - split; [exact Ha|reflexivity].
  - cbn [fold_left].
    destruct (ascend_step_dead s e Ha) as (Ha' & Hs').
    destruct (IH (step hyp s e) Ha') as (Ha'' & Hs'').
    split; [exact Ha''|]. rewrite Hs''. exact Hs'.
Qed.

Lemma ascend_frame_radii (t : Q) (draw : nat -> Q) (s : session) :
  map zr (zones (frame hyp t draw s)) = map zr (zones s).
Proof.
  unfold frame.
  repeat case_dec; cbv beta iota zeta;
    match goal with
    | |- context [zones_loop ?a ?b ?c ?d ?e ?f ?g ?i ?j ?k ?l] =>
        pose proof (ascend_zones_loop_radii b c d e f g j i k l) as Hd;
        destruct (zones_loop a b c d e f g i j k l) as [[zs' v4] sc']
    end; cbn [fst zones] in *; exact Hd.
Qed.

Lemma ascend_step_radii (s : session) (e : event) :
  map zr (zones (step hyp s e)) = map zr (zones s).
Proof.
  destruct e as [t draw| | |cw ch]; cbn [step]; try reflexivity.
  apply ascend_frame_radii.
Qed.

(** X20: Ascend Light always has its five updrafts of radius 60.  The frames
    move the zones and redraw their heights but never add, drop or resize
    one; so an event adds at most 5 points to the score, one per zone, and
    never takes any away. *)
Theorem ascend_five_updrafts (t0 cw ch : Q) (r : nat -> Q)
        (evs : list event) :
  let s := run hyp t0 cw ch r evs in
  map zr (zones s) = [60; 60; 60; 60; 60] /\
  forall e, (score s <= score (step hyp s e) <= score s + 5)%Z.
Proof.
  cbv zeta.
  assert (Hr : map zr (zones (run hyp t0 cw ch r evs))
               = [60; 60; 60; 60; 60]).
  { unfold run.
    apply (fold_left_invariant (step hyp)
             (fun s => map zr (zones s) = [60; 60; 60; 60; 60])).
    - intros s e Hs. rewrite ascend_step_radii. exact Hs.
    - reflexivity. }
  split; [exact Hr|].
  intros e.
  assert (Hlen : List.length (zones (run hyp t0 cw ch r evs)) = 5%nat).
  { rewrite <- (length_map zr), Hr. reflexivity. }
  destruct e as [t draw| | |c1 c2]; cbn [step];
    try (cbn [set_press resize score]; lia).
  pose proof (ascend_frame_score hyp t draw (run hyp t0 cw ch r evs)) as H.
  rewrite Hlen in H. cbn [Z.of_nat Pos.of_succ_nat Pos.succ] in H. lia.
Qed.

End AscendProperties.

Lemma ascend_crash_is_final_witness :
  AscendLight.alive
    (fold_left (AscendLight.step axis_distance)
       [AscendLight.Down; AscendLight.Frame 100016 (fun _ => 1 # 2)]
       ascend_crashed) = false /\
  AscendLight.score
    (fold_left (AscendLight.step axis_distance)
       [AscendLight.Down; AscendLight.Frame 100016 (fun _ => 1 # 2)]
       ascend_crashed) = AscendLight.score ascend_crashed.
Proof.
  apply (ascend_crash_is_final axis_distance ascend_crashed
           [AscendLight.Down; AscendLight.Frame 100016 (fun _ => 1 # 2)]).
  vm_compute. reflexivity.
Defined.

(* ------------------------------------------------------------------------- *)
(** ** TensionLine and HeatBloom: releases, targets and bands *)

Section TargetProperties.

Import JS.

(** A property kept by every step whose event is well formed holds after
    every run of such events. *)
Lemma fold_left_invariant_on {S E : Type} (step : S -> E -> S)
      (P : S -> Prop) (ok : E -> Prop) :
  (forall s e, ok e -> P s -> P (step s e)) ->
  forall evs s, Forall ok evs -> P s -> P (fold_left step evs s).
Proof.
  intros Hstep evs; induction evs as [|e evs IH]; intros s Hok Hs; cbn.
  - exact Hs.
  - inversion Hok as [|e' evs' He Hevs]; subst.
    apply IH; [exact Hevs|]. apply Hstep; assumption.
Qed.

Lemma rand_below (r lo hi : Q) :
  lo < hi -> 0 <= r -> r < 1 -> rand r lo hi < hi.
Proof.
  intros Hlh H0 H1. unfold rand.
  assert (r * (hi - lo) < 1 * (hi - lo))
    by (apply Qmult_lt_compat_r; lra).
  lra.
Qed.

(** X21: the points of a TensionLine release, by the distance between the
    length and the target.  They are a whole number from 0 to 12.  A
    distance of up to 0.012 gives all 12 points and one of 0.013 or more at
    most 11; a distance of up to 0.28 gives at least one point and one of
    0.29 or more none.  The success cue (a distance under 0.04) comes with
    at least 10 points, the failure cue with at most 10. *)
Theorem tension_release_by_distance (l tgt : Q) :
  let err := Qabs (l - tgt) in
  let pts := TensionLine.release_points l tgt in
  (0 <= pts <= 12)%Z /\
  (err <= 12 # 1000 -> pts = 12%Z) /\
  (13 # 1000 <= err -> (pts <= 11)%Z) /\
  (err <= 28 # 100 -> (1 <= pts)%Z) /\
  (29 # 100 <= err -> pts = 0%Z) /\
  (Cues.tension_onUp l tgt
   = [Feedback.Vibrate [10; 10; 10]%Z; Feedback.blip true] ->
   (10 <= pts)%Z) /\
  (Cues.tension_onUp l tgt = [Feedback.blip false] -> (pts <= 10)%Z).
Proof.
  cbv zeta.
  pose proof (tension_release_points_range l tgt) as Hrange.
  pose proof (Qabs_nonneg (l - tgt)) as Hpos.
  unfold Cues.tension_onUp, TensionLine.release_points, Math_abs in *.
  pose proof (Math_round_ge_iff (12 - Qabs (l - tgt) * 40)) as Hround.
  generalize dependent (Qabs (l - tgt)). intros err.
  generalize (Math_round (12 - err * 40)). intros n Hrange Hpos Hround.
  pose proof (Hround 12%Z) as H12. change (inject_Z 12) with 12 in H12.
  pose proof (Hround 11%Z) as H11. change (inject_Z 11) with 11 in H11.
  pose proof (Hround 10%Z) as H10. change (inject_Z 10) with 10 in H10.
  pose proof (Hround 1%Z) as H1. change (inject_Z 1) with 1 in H1.
  clear Hround.
  split; [exact Hrange|].
  split; [|split; [|split; [|split; [|split]]]].
  - intros H. assert (Hn : (12 <= n)%Z) by (apply H12; lra). lia.
  - intros H.
    assert (Hn : ~ (12 <= n)%Z) by (intros Hn; apply H12 in Hn; lra). lia.
  - intros H. assert (Hn : (1 <= n)%Z) by (apply H1; lra). lia.
  - intros H.
    assert (Hn : ~ (1 <= n)%Z) by (intros Hn; apply H1 in Hn; lra). lia.
  - destruct (Qlt_le_dec err (4 # 100)) as [Hlt|Hge]; [|discriminate].
    intros _. assert (Hn : (10 <= n)%Z) by (apply H10; lra). lia.
  - destruct (Qlt_le_dec err (4 # 100)) as [Hlt|Hge]; [discriminate|].
    intros _.
    assert (Hn : ~ (11 <= n)%Z) by (intros Hn; apply H11 in Hn; lra). lia.
Qed.

Lemma tension_release_by_distance_witness :
  TensionLine.release_points (1 # 2) (1 # 2) = 12%Z /\
  TensionLine.release_points 1 (3 # 10) = 0%Z /\
  (10 <= TensionLine.release_points (52 # 100) (1 # 2))%Z.
Proof.
  destruct (tension_release_by_distance (1 # 2) (1 # 2))
    as (_ & Hexact & _).
  destruct (tension_release_by_distance 1 (3 # 10))
    as (_ & _ & _ & _ & Hzero & _).
  destruct (tension_release_by_distance (52 # 100) (1 # 2))
    as (_ & _ & _ & _ & _ & Hcue & _).
  split; [|split].
  - apply Hexact. vm_compute. discriminate.
  - apply Hzero. vm_compute. discriminate.
  - apply Hcue. reflexivity.
Defined.

Lemma tension_step_target (s : TensionLine.session) (e : TensionLine.event) :
  tension_draws_ok e ->
  (3 # 10 <= TensionLine.target s /\ TensionLine.target s < 9 # 10) /\
  0 <= TensionLine.len s <= 1 ->
  (3 # 10 <= TensionLine.target (TensionLine.step s e) /\
   TensionLine.target (TensionLine.step s e) < 9 # 10) /\
  0 <= TensionLine.len (TensionLine.step s e) <= 1.
Proof.
  intros Hok (Ht & Hl). destruct e as [t| |r]; cbn [TensionLine.step].
  - split; [exact Ht|].
    unfold TensionLine.frame. cbv zeta. cbn [TensionLine.len].
    destruct (TensionLine.pulling s); apply clamp_range; lra.
  - split; [exact Ht|exact Hl].
  - destruct Hok as (H0 & H1).
    unfold TensionLine.onUp. cbn [TensionLine.target TensionLine.len].
    split; [|exact Hl]. split.
    + apply rand_range; lra.
    + apply rand_below; lra.
Qed.

(** X22: the target of TensionLine can always be reached.  With draws of
    [Math.random()] in [0, 1), in every session the target lies in
    [0.3, 0.9) and the length of the line in [0, 1], whatever the
    timestamps of the frames. *)
Theorem tension_target_within_reach (t0 r0 : Q)
        (evs : list TensionLine.event) :
  is_draw r0 -> Forall tension_draws_ok evs ->
  let s := TensionLine.run t0 r0 evs in
  3 # 10 <= TensionLine.target s /\ TensionLine.target s < 9 # 10 /\
  0 <= TensionLine.len s <= 1.
Proof.
  intros (H0 & H1) Hevs. cbv zeta.
  assert (H : (3 # 10 <= TensionLine.target (TensionLine.run t0 r0 evs) /\
               TensionLine.target (TensionLine.run t0 r0 evs) < 9 # 10) /\
              0 <= TensionLine.len (TensionLine.run t0 r0 evs) <= 1).
  { unfold TensionLine.run.
    apply (fold_left_invariant_on TensionLine.step
             (fun s => (3 # 10 <= TensionLine.target s /\
                        TensionLine.target s < 9 # 10) /\
                       0 <= TensionLine.len s <= 1)
             tension_draws_ok tension_step_target); [exact Hevs|].
    unfold TensionLine.start. cbn [TensionLine.target TensionLine.len].
    pose proof (rand_range r0 (35 # 100) (8 # 10)
                  ltac:(lra) H0 H1) as (Ha & Hb).
    repeat split; lra. }
  destruct H as ((Ha & Hb) & Hc). repeat split; try assumption; apply Hc.
Qed.

Lemma tension_target_within_reach_witness :
  3 # 10 <= TensionLine.target
              (TensionLine.run 0 (1 # 2)
                 [TensionLine.Down; TensionLine.Frame 1000;
                  TensionLine.Up (9 # 10)]) /\
  TensionLine.target
    (TensionLine.run 0 (1 # 2)
       [TensionLine.Down; TensionLine.Frame 1000; TensionLine.Up (9 # 10)])
  < 9 # 10.
Proof.
  destruct (tension_target_within_reach 0 (1 # 2)
              [TensionLine.Down; TensionLine.Frame 1000;
               TensionLine.Up (9 # 10)]) as (Ha & Hb & _).
  - split; lra.
  - repeat constructor; unfold is_draw; lra.
  - split; [exact Ha|exact Hb].
Defined.

Lemma heat_frame_band (t : Q) (r : HeatBloom.draws) (s : HeatBloom.session) :
  heat_draws_ok (HeatBloom.Frame t r) ->
  heat_band_inv s -> heat_band_inv (HeatBloom.frame t r s).
Proof.
  intros ((A0 & A1) & (B0 & B1) & (C0 & C1) & (D0 & D1)) (Hmin & Hmax & Hheat).
  unfold heat_band_inv, HeatBloom.frame. cbv zeta.
  pose proof (heat_step_range (HeatBloom.holding s)
                (HeatBloom.frame_dt t (HeatBloom.last s))
                (HeatBloom.heat s)) as Hh.
  generalize dependent (HeatBloom.heat_step (HeatBloom.holding s)
                          (HeatBloom.frame_dt t (HeatBloom.last s))
                          (HeatBloom.heat s)).
  intros h Hh.
  pose proof (rand_range (HeatBloom.bloom_min r) (3 # 10) (5 # 10)
                ltac:(lra) A0 A1).
  pose proof (rand_range (HeatBloom.bloom_max r) (6 # 10) (8 # 10)
                ltac:(lra) B0 B1).
  pose proof (rand_range (HeatBloom.crack_min r) (35 # 100) (55 # 100)
                ltac:(lra) C0 C1).
  pose proof (rand_range (HeatBloom.crack_max r) (6 # 10) (85 # 100)
                ltac:(lra) D0 D1).
  destruct (Qle_bool (995 # 1000) h) eqn:Hc;
    cbn [HeatBloom.target_min HeatBloom.target_max HeatBloom.heat].
  - repeat split; lra.
  - apply Qle_bool_false in Hc.
    destruct (_ && Qle_bool 1 _); repeat split; lra.
Qed.

Lemma heat_step_band (s : HeatBloom.session) (e : HeatBloom.event) :
  heat_draws_ok e -> heat_band_inv s -> heat_band_inv (HeatBloom.step s e).
Proof.
  intros Hok Hinv. destruct e as [t r| |]; cbn [HeatBloom.step].
  - apply heat_frame_band; assumption.
  - exact Hinv.
  - exact Hinv.
Qed.

(** X23: the band of HeatBloom is always a band one can hold.  With draws of
    [Math.random()] in [0, 1), in every session the lower edge lies in
    [0.3, 0.55] and the upper edge in [0.6, 0.85], so the lower edge is
    below the upper one and the band ends below the threshold of a crack;
    and the heat a frame leaves is below that threshold, since a frame that
    reaches it resets the heat to 0.3. *)
Theorem heat_band_can_be_held (t0 : Q) (evs : list HeatBloom.event) :
  Forall heat_draws_ok evs ->
  let s := HeatBloom.run t0 evs in
  heat_band_inv s /\
  HeatBloom.target_min s < HeatBloom.target_max s /\
  HeatBloom.target_max s < 995 # 1000.
Proof.
  intros Hevs. cbv zeta.
  assert (H : heat_band_inv (HeatBloom.run t0 evs)).
  { unfold HeatBloom.run.
    apply (fold_left_invariant_on HeatBloom.step heat_band_inv heat_draws_ok
             heat_step_band); [exact Hevs|].
    unfold heat_band_inv, HeatBloom.start.
    cbn [HeatBloom.target_min HeatBloom.target_max HeatBloom.heat].
    repeat split; lra. }
  split; [exact H|].
  destruct H as ((Ha & Hb) & (Hc & Hd) & _). split; lra.
Qed.

Lemma heat_band_can_be_held_witness :
  heat_band_inv
    (HeatBloom.run 0 [HeatBloom.Down;
                      HeatBloom.Frame 5000 (HeatBloom.mkDraws 0 0 0 (1 # 2))]).
Proof.
  apply (heat_band_can_be_held 0
           [HeatBloom.Down;
            HeatBloom.Frame 5000 (HeatBloom.mkDraws 0 0 0 (1 # 2))]).
  repeat constructor; unfold is_draw; cbn; lra.
Defined.

End TargetProperties.

(* ------------------------------------------------------------------------- *)
(** ** Heartbeat: the tempo and the ticker *)

Section TickerProperties.

Import JS Timers Heartbeat.

(** X24: the tempo Heartbeat calibrates saturates at both ends.  For six
    taps in the order of time: when none comes more than 400 ms after the
    one before, the tempo is exactly 150, and when each comes 1200 ms or more
    after the one before, it is exactly 50; when every gap lies between
    400 and 1200 ms the clamp changes nothing and the tempo is
    [60000 / avg], [avg] being the mean gap the code computes. *)
Theorem heart_tempo_saturates (t0 t1 t2 t3 t4 t5 t6 : Q) :
  let recorded := [t1; t2; t3; t4; t5; t6] in
  let s := run t0 (six_taps t1 t2 t3 t4 t5 t6) in
  (spaced 0 400 recorded -> bpm s = Fin 150) /\
  (forall far, spaced 1200 far recorded -> bpm s = Fin 50) /\
  (spaced 400 1200 recorded ->
   exists q, bpm s = Fin q /\ q == 60000 / mean (gaps recorded) /\
             50 <= q <= 150).
Proof.
  cbv zeta.
  pose proof (six_taps_calibrate t0 t1 t2 t3 t4 t5 t6) as (_ & Hb & _).
  rewrite Hb. clear Hb.
  assert (Hm : mean (gaps [t1; t2; t3; t4; t5; t6]) == (t6 - t1) / 5).
  { unfold mean. cbn [gaps fold_left List.length].
    change (inject_Z (Z.of_nat 5)) with 5. field. }
  unfold candidate, div.
  generalize dependent (mean (gaps [t1; t2; t3; t4; t5; t6])). intros m Hm.
  assert (H5 : m * 5 == t6 - t1) by (rewrite Hm; field).
  cbn [spaced].
  split; [|split].
  - intros (G1 & G2 & G3 & G4 & G5 & _).
    destruct (Qeq_bool m 0) eqn:Hz; [reflexivity|].
    apply Qeq_bool_neq in Hz.
    assert (Hpos : 0 < m) by (apply Qnot_le_lt; intros Hle; apply Hz; lra).
    assert (Hq : 150 <= 60000 / m) by (apply Qle_shift_div_l; lra).
    cbn [clamp_num Math_min_num Math_max_num].
    unfold Math_min, Math_max.
    destruct (Qlt_le_dec (60000 / m) 150); [lra|].
    destruct (Qlt_le_dec 50 150); [reflexivity|lra].
  - intros far (G1 & G2 & G3 & G4 & G5 & _).
    assert (Hpos : 1200 <= m) by lra.
    destruct (Qeq_bool m 0) eqn:Hz;
      [apply Qeq_bool_iff in Hz; lra|].
    assert (Hq : 60000 / m <= 50) by (apply Qle_shift_div_r; lra).
    cbn [clamp_num Math_min_num Math_max_num].
    unfold Math_min, Math_max.
    destruct (Qlt_le_dec (60000 / m) 150); [|lra].
    destruct (Qlt_le_dec 50 (60000 / m)); [lra|reflexivity].
  - intros (G1 & G2 & G3 & G4 & G5 & _).
    assert (Hlo : 400 <= m) by lra. assert (Hhi : m <= 1200) by lra.
    destruct (Qeq_bool m 0) eqn:Hz;
      [apply Qeq_bool_iff in Hz; lra|].
    assert (Hq1 : 60000 / m <= 150) by (apply Qle_shift_div_r; lra).
    assert (Hq2 : 50 <= 60000 / m) by (apply Qle_shift_div_l; lra).
    exists (clamp (60000 / m) 50 150). split; [reflexivity|].
    unfold clamp, Math_min, Math_max. repeat case_dec; split; lra.
Qed.

Lemma heart_tempo_saturates_witness :
  bpm (run 0 (six_taps 0 300 600 900 1200 1500)) = Fin 150 /\
  bpm (run 0 (six_taps 0 1500 3000 4500 6000 7500)) = Fin 50.
Proof.
  destruct (heart_tempo_saturates 0 0 300 600 900 1200 1500) as (Hfast & _).
  destruct (heart_tempo_saturates 0 0 1500 3000 4500 6000 7500)
    as (_ & Hslow & _).
  split.
  - apply Hfast. cbn [spaced]. repeat split; lra.
  - apply (Hslow 1500). cbn [spaced]. repeat split; lra.
Defined.

Lemma heart_schedule_id_timers (c : cb) (delay t : Q) (s : session) :
  pending (timers (schedule_id c delay t s))
  = mkTimer (next_id (timers s)) (t + delay) c :: pending (timers s) /\
  id (schedule_id c delay t s) = Some (next_id (timers s)) /\
  cleanup (schedule_id c delay t s) = cleanup s.
Proof. repeat split. Qed.

Lemma heart_tick_ticker (t : Q) (iv : num) (s : session) :
  heart_no_ticker s ->
  (forall tm, In tm (pending (timers (tick t iv s))) ->
     (exists iv', callback tm = Tick iv') ->
     id (tick t iv s) = Some (tid tm)) /\
  cleanup (tick t iv s) = cleanup s.
Proof.
  intros Hno. unfold tick. cbv zeta.
  match goal with
  | |- context [schedule_id PulseOff 180 t ?x] =>
      assert (Hq : timers x = timers s /\ cleanup x = cleanup s)
        by (unfold set_pulse; destruct (mounted s); split; reflexivity);
      revert Hq; generalize x
  end.
  intros s0 (Hq & Hc).
  destruct (heart_schedule_id_timers PulseOff 180 t s0) as (P1 & _ & C1).
  revert P1 C1. generalize (schedule_id PulseOff 180 t s0). intros s1 P1 C1.
  destruct (heart_schedule_id_timers (Tick iv) (delay_of iv) t s1)
    as (P2 & I2 & C2).
  split; [|congruence].
  intros tm Hin (iv' & Hcb). rewrite I2. rewrite P2, P1, Hq in Hin.
  destruct Hin as [<-|[<-|Hin]].
  - reflexivity.
  - discriminate Hcb.
  - rewrite (Hno tm Hin) in Hcb. discriminate Hcb.
Qed.

Lemma heart_cleanup_no_ticker (s : session) :
  heart_ticker_inv s -> heart_no_ticker (effect_cleanup s).
Proof.
  intros Hinv tm Hin.
  destruct (callback tm) as [|iv] eqn:Hcb; [reflexivity|exfalso].
  unfold effect_cleanup in Hin.
  destruct (cleanup s) eqn:Hcl.
  - cbn [timers set_id] in Hin. unfold clearTimeout in Hin.
    destruct (id s) as [i|] eqn:Hid.
    + cbn [pending] in Hin. apply filter_In in Hin. destruct Hin as (Hin & Hf).
      destruct (Hinv tm Hin (ex_intro _ iv Hcb)) as (Hi & _).
      assert (Heq : i = tid tm) by congruence.
      subst i. rewrite Nat.eqb_refl in Hf. discriminate.
    + destruct (Hinv tm Hin (ex_intro _ iv Hcb)) as (Hi & _). congruence.
  - destruct (Hinv tm Hin (ex_intro _ iv Hcb)) as (_ & Hc). congruence.
Qed.

Lemma heart_no_ticker_inv (s : session) :
  heart_no_ticker s -> heart_ticker_inv s.
Proof.
  intros Hno tm Hin (iv & Hcb). rewrite (Hno tm Hin) in Hcb. discriminate.
Qed.

Lemma heart_effect_body_ticker (t : Q) (s : session) :
  heart_no_ticker s -> heart_ticker_inv (effect_body t s).
Proof.
  intros Hno. unfold effect_body.
  destruct (phase_eqb (phase s) sync).
  - assert (Hno' : heart_no_ticker (set_id None (timers s) s)) by exact Hno.
    destruct (heart_tick_ticker t
                (beat_interval (bpm (set_id None (timers s) s)))
                (set_id None (timers s) s) Hno') as (Hid & _).
    intros tm Hin Hcb. split; [|reflexivity].
    apply (Hid tm Hin Hcb).
  - apply heart_no_ticker_inv. exact Hno.
Qed.

Lemma heart_rerender_ticker (t : Q) (before s : session) :
  heart_ticker_inv s -> heart_ticker_inv (rerender t before s).
Proof.
  intros Hinv. unfold rerender.
  destruct (mounted s && _); [|exact Hinv].
  apply heart_effect_body_ticker, heart_cleanup_no_ticker, Hinv.
Qed.

Lemma heart_onTap_timers (t : Q) (s : session) :
  timers (onTap t s) = timers s /\ id (onTap t s) = id s /\
  cleanup (onTap t s) = cleanup s.
Proof.
  destruct s as [ph b tp sc pu i cl q o m]. unfold onTap.
  cbn [phase]. destruct ph.
  - unfold set_taps, emit, set_bpm, set_phase.
    cbn [timers id cleanup phase bpm taps score pulse out mounted].
    destruct (6 <=? _)%nat; destruct m; repeat split.
  - cbn [bpm score].
    generalize (sync_points (beat_interval b) t). intros pts.
    unfold set_score, emit.
    destruct (above_8 pts); destruct m; repeat split.
Qed.

Lemma heart_set_pulse_ticker (v : Z) (s : session) :
  heart_ticker_inv s -> heart_ticker_inv (set_pulse v s).
Proof.
  intros Hinv. unfold set_pulse. destruct (mounted s); exact Hinv.
Qed.

Lemma heart_step_ticker (s : session) (e : event) :
  heart_ticker_inv s -> heart_ticker_inv (step s e).
Proof.
  intros Hinv. destruct e as [t|i t|]; unfold step.
  - destruct (mounted s); [|exact Hinv].
    apply heart_rerender_ticker.
    destruct (heart_onTap_timers t s) as (Hq & Hi & Hc).
    unfold heart_ticker_inv. rewrite Hq, Hi, Hc. exact Hinv.
  - destruct (expire i t (timers s)) as [[c q]|] eqn:Hex; [|exact Hinv].
    apply heart_rerender_ticker.
    unfold expire in Hex.
    destruct (find (fun tm => Nat.eqb (tid tm) i) (pending (timers s)))
      as [tm0|] eqn:Hfind; [|discriminate].
    destruct (Qle_bool (due tm0) t); [|discriminate].
    injection Hex as Hc Hq. subst c.
    apply find_some in Hfind. destruct Hfind as (Hin0 & Hi0).
    apply Nat.eqb_eq in Hi0.
    assert (Hsub : forall tm,
              In tm (pending q) ->
              In tm (pending (timers s)) /\ tid tm <> i).
    { intros tm Hin. subst q. cbn [pending] in Hin.
      apply filter_In in Hin. destruct Hin as (Hin & Hf). split; [exact Hin|].
      intros Heq. rewrite Heq, Nat.eqb_refl in Hf. discriminate. }
    clear Hq.
    destruct (callback tm0) as [|iv] eqn:Hcb0; cbn [run_cb].
    + assert (Hs1 : heart_ticker_inv
                      (set_id (id s) q s)).
      { intros tm Hin Hcb. cbn [timers set_id] in Hin.
        apply Hsub in Hin. apply (Hinv tm (proj1 Hin) Hcb). }
      apply heart_set_pulse_ticker, Hs1.
    + destruct (Hinv tm0 Hin0 (ex_intro _ iv Hcb0)) as (Hid0 & Hcl0).
      assert (Hno : heart_no_ticker
                      (set_id (id s) q s)).
      { intros tm Hin. cbn [timers set_id] in Hin.
        apply Hsub in Hin. destruct Hin as (Hin & Hne).
        destruct (callback tm) as [|iv'] eqn:Hcb; [reflexivity|exfalso].
        destruct (Hinv tm Hin (ex_intro _ iv' Hcb)) as (Hid & _).
        rewrite Hid0 in Hid. injection Hid as Hid. congruence. }
      destruct (heart_tick_ticker t iv _ Hno) as (Hid & Hcl).
      intros tm Hin Hcb. split; [apply (Hid tm Hin Hcb)|].
      rewrite Hcl. exact Hcl0.
  - destruct (mounted s); [|exact Hinv].
    apply heart_no_ticker_inv.
    intros tm Hin. unfold unmount in Hin. cbn [timers] in Hin.
    apply (heart_cleanup_no_ticker s Hinv tm Hin).
Qed.

Lemma heart_step_unmounted (s : session) (e : event) :
  mounted s = false -> heart_no_ticker s ->
  mounted (step s e) = false /\ heart_no_ticker (step s e) /\
  out (step s e) = out s.
Proof.
  intros Hm Hno. destruct e as [t|i t|]; unfold step.
  - rewrite Hm. repeat split; assumption.
  - destruct (expire i t (timers s)) as [[c q]|] eqn:Hex;
      [|repeat split; assumption].
    unfold expire in Hex.
    destruct (find (fun tm => Nat.eqb (tid tm) i) (pending (timers s)))
      as [tm0|] eqn:Hfind; [|discriminate].
    destruct (Qle_bool (due tm0) t); [|discriminate].
    injection Hex as Hc Hq. subst c q.
    apply find_some in Hfind. destruct Hfind as (Hin0 & _).
    rewrite (Hno tm0 Hin0). cbn [run_cb].
    destruct s as [ph b tp sc pu i0 cl [pend nid] o m].
    cbn [mounted] in Hm. subst m.
    unfold heart_no_ticker in *. cbn [timers pending] in Hno.
    unfold rerender, set_pulse, set_id, clearTimeout.
    cbn [mounted timers pending out andb id phase bpm taps score pulse
         cleanup].
    repeat split.
    intros tm Hin. apply filter_In in Hin. apply Hno, Hin.
  - rewrite Hm. repeat split; assumption.
Qed.

Lemma heart_tick_mounted (t : Q) (iv : num) (s : session) :
  mounted (tick t iv s) = mounted s.
Proof.
  destruct s as [ph b tp sc pu i cl q o m].
  unfold tick, set_pulse, schedule_id. destruct m; reflexivity.
Qed.

Lemma heart_rerender_mounted (t : Q) (before s : session) :
  mounted (rerender t before s) = mounted s.
Proof.
  unfold rerender. destruct (mounted s && _); [|reflexivity].
  assert (Hc : mounted (effect_cleanup s) = mounted s)
    by (unfold effect_cleanup; destruct (cleanup s); reflexivity).
  rewrite <- Hc. generalize (effect_cleanup s). intros s'.
  unfold effect_body. destruct (phase_eqb (phase s') sync).
  - cbn [set_cleanup mounted]. rewrite heart_tick_mounted. reflexivity.
  - reflexivity.
Qed.

Lemma heart_onTap_mounted (t : Q) (s : session) :
  mounted (onTap t s) = mounted s.
Proof.
  destruct s as [ph b tp sc pu i cl q o m]. unfold onTap.
  cbn [phase]. destruct ph.
  - unfold set_taps, emit, set_bpm, set_phase.
    cbn [timers id cleanup phase bpm taps score pulse out mounted].
    destruct (6 <=? _)%nat; destruct m; reflexivity.
  - cbn [bpm score].
    generalize (sync_points (beat_interval b) t). intros pts.
    unfold set_score, emit.
    destruct (above_8 pts); destruct m; reflexivity.
Qed.

Lemma heart_step_mounted (s : session) (e : event) :
  mounted s = true -> e <> Unmount -> mounted (step s e) = true.
Proof.
  intros Hm He. destruct e as [t|i t|]; unfold step; [| |contradiction].
  - rewrite Hm, heart_rerender_mounted, heart_onTap_mounted. exact Hm.
  - destruct (expire i t (timers s)) as [[c q]|]; [|exact Hm].
    rewrite heart_rerender_mounted.
    destruct c as [|iv]; cbn [run_cb].
    + unfold set_pulse. cbn [mounted set_id]. rewrite Hm. reflexivity.
    + rewrite heart_tick_mounted. exact Hm.
Qed.

Lemma heart_step_left (s : session) (e : event) :
  heart_ticker_inv s /\ (mounted s = false -> heart_no_ticker s) ->
  heart_ticker_inv (step s e) /\
  (mounted (step s e) = false -> heart_no_ticker (step s e)).
Proof.
  intros (Hinv & Hleft). destruct (mounted s) eqn:Hm.
  - split; [apply heart_step_ticker, Hinv|].
    destruct e as [t|i t|].
    + rewrite (heart_step_mounted s (Tap t) Hm); discriminate.
    + rewrite (heart_step_mounted s (Expire i t) Hm); discriminate.
    + intros _. unfold step. rewrite Hm.
      intros tm Hin. unfold unmount in Hin. cbn [timers] in Hin.
      apply (heart_cleanup_no_ticker s Hinv tm Hin).
  - destruct (heart_step_unmounted s e Hm (Hleft eq_refl)) as (_ & Hno & _).
    split; [apply heart_no_ticker_inv, Hno|]. intros _. exact Hno.
Qed.

(** X25: leaving Heartbeat stops its ticker.  Whatever happened before, the
    cleanup of the unmount cancels the one pending timer that would run
    [tick]; what may stay pending only turns the pulse off.  So after the
    unmount no event, and no timer that still runs, asks for a tone or a
    vibration again. *)
Theorem heart_unmount_stops_ticker (t0 : Q) (evs rest : list event) :
  let left := run t0 (evs ++ [Unmount]) in
  let later := run t0 (evs ++ Unmount :: rest) in
  mounted later = false /\
  (forall tm, In tm (pending (timers later)) -> callback tm = PulseOff) /\
  out later = out left.
Proof.
  cbv zeta.
  assert (Hinv : forall l,
            heart_ticker_inv (run t0 l) /\
            (mounted (run t0 l) = false -> heart_no_ticker (run t0 l))).
  { intros l. unfold run.
    apply (fold_left_invariant step
             (fun s => heart_ticker_inv s /\
                       (mounted s = false -> heart_no_ticker s))
             heart_step_left).
    split; [|discriminate].
    apply heart_effect_body_ticker. intros tm []. }
  assert (Hleft : mounted (run t0 (evs ++ [Unmount])) = false /\
                  heart_no_ticker (run t0 (evs ++ [Unmount]))).
  { destruct (Hinv (evs ++ [Unmount])) as (_ & Hno).
    assert (Hm : mounted (run t0 (evs ++ [Unmount])) = false).
    { unfold run. rewrite fold_left_app. cbn [fold_left].
      generalize (fold_left step evs (start t0)). intros x.
      unfold step. destruct (mounted x) eqn:Hm; [reflexivity|exact Hm]. }
    split; [exact Hm|apply Hno, Hm]. }
  clear Hinv.
  replace (evs ++ Unmount :: rest) with ((evs ++ [Unmount]) ++ rest)
    by (rewrite <- app_assoc; reflexivity).
  unfold run in *. rewrite (fold_left_app step (evs ++ [Unmount]) rest).
  revert Hleft.
  generalize (fold_left step (evs ++ [Unmount]) (start t0)). intros x Hx.
  revert x Hx.
  induction rest as [|e rest IH]; intros x (Hm & Hno).
  - repeat split; assumption.
  - cbn [fold_left].
    destruct (heart_step_unmounted x e Hm Hno) as (Hm' & Hno' & Hout).
    destruct (IH (step x e) (conj Hm' Hno')) as (H1 & H2 & H3).
    split; [exact H1|]. split; [exact H2|]. rewrite H3. exact Hout.
Qed.

End TickerProperties.

(* ------------------------------------------------------------------------- *)
(** ** Echo Orb: the rounds of a session *)

Section EchoCycleProperties.

Import JS EchoOrb.

Lemma two_taps_score_round_witness :
  let s := step (step first_listen (Tap 1200)) (Tap 2000) in
  phase s = result /\
  score s = (score first_listen + round_points 1200 2000 800)%Z /\
  taps s = [1200; 2000] /\
  Timers.pending (timers s) = [Timers.mkTimer 3 (2000 + 700) NextRound].
Proof.
  apply (two_taps_score_round first_listen 1200 2000);
    try reflexivity.
  discriminate.
Defined.

Lemma next_round_enters_listen_witness :
  exists s',
    step (step (step first_listen (Tap 1200)) (Tap 2000))
         (Expire 3 2700 (1 # 2))
    = effect_body 2700 s' /\
    mounted s' = true /\ phase s' = listen /\
    Timers.pending (timers s') = [] /\
    intervalMs s' = rand (1 # 2) 500 1400 /\ taps s' = [] /\
    out s' = out (step (step first_listen (Tap 1200)) (Tap 2000)).
Proof.
  apply (next_round_enters_listen
           (step (step first_listen (Tap 1200)) (Tap 2000)) 3 2700 2700
           (1 # 2)).
  - reflexivity.
  - reflexivity.
  - reflexivity.
  - apply Qle_refl.
Defined.







End EchoCycleProperties.
